(** * graphgenerator-v2: the M1 codec, the model fitter, the sampler and the
    multi-instance runtime, embedded from the C++ sources.

    Conventions of the embedding.
    - [uint64_t] and [size_t] ([Amount], [NodeID], [Degree]) are integers in
      [Z] and every operation on them is reduced modulo [2^64].
    - [long double] ([ContinuousNodeID]) and [float] ([Probability]) are exact
      rationals in [Q]: rounding, infinities and NaN are outside the model.
    - [std::map<std::string, std::string>] is a [gmap string string];
      [std::unordered_map] and [std::unordered_set], whose iteration order the
      code observes, are association lists in iteration order.
    - A [throw] is the [Thrown] outcome; reading a vector out of bounds and the
      other undefined operations are the [Undefined] outcome. *)

From Stdlib Require Import ZArith QArith Qminmax Qround Lia String Ascii List DecimalString.
From Stdlib Require Import Reals Lra Qreals.
From Stdlib Require Import Qfield.
From Stdlib Require Decimal DecimalFacts DecimalPos DecimalN.
From stdpp Require Import gmap strings list sorting.

Local Open Scope Z_scope.

(** ** Outcomes of a call *)

Inductive exception : Type :=
| Scale_must_be_greater_than_zero
| Failed_to_open_file
| Unexpected_directive (line : string)
| Unexpected_line_in_mode_NONE (line : string)
| Missing_META_section
| Missing_NODES_section
| Missing_EDGES_section
| Equal_sign_in_key (key : string)
| Newline_in_key_value_pair (key : string)
| Newline_in_node_type (t : string)
| Newline_in_edge_type (t : string)
| Edge_type_too_long (t : string)
| Could_not_open_output_file (path : string).

Inductive outcome (A : Type) : Type :=
| Returned (a : A)
| Thrown (e : exception)
| Undefined.
Arguments Returned {A} a.
Arguments Thrown {A} e.
Arguments Undefined {A}.

(** Sequencing: the first [throw] or undefined step ends the call.  With the
    instances below, [x ← c; k] is stdpp's notation for it. *)
#[export] Instance outcome_ret : MRet outcome := fun A a => Returned a.
#[export] Instance outcome_bind : MBind outcome := fun A B f x =>
  match x with
  | Returned a => f a
  | Thrown e => Thrown e
  | Undefined => Undefined
  end.

(** ** graphgenerator_types.h *)

Module Num.

Abbreviation NodeID := Z (only parsing).
Abbreviation Amount := Z (only parsing).
Abbreviation Degree := Z (only parsing).
Abbreviation ContinuousNodeID := Q (only parsing).
Abbreviation Probability := Q (only parsing).

Definition two64 : Z := 2 ^ 64.
Definition wrap64 (z : Z) : Z := z mod two64.
Definition add64 (a b : Z) : Z := wrap64 (a + b).
Definition sub64 (a b : Z) : Z := wrap64 (a - b).
Definition mul64 (a b : Z) : Z := wrap64 (a * b).

Definition two32 : Z := 2 ^ 32.
Definition wrap32 (z : Z) : Z := z mod two32.

(** [x < y] and [x > y] on the real-valued types. *)
Definition Qltb (x y : Q) : bool := negb (Qle_bool y x).

(** [static_cast<long double>(n)] and [static_cast<float>(n)]. *)
Definition of_int (n : Z) : Q := inject_Z n.

End Num.

(** ** Text: the pieces of [<string>], [<sstream>] and [<cstdlib>] the code calls *)

Module Text.

Definition nl : ascii := "010"%char.
Definition cr : ascii := "013"%char.

Fixpoint contains (c : ascii) (s : string) : bool :=
  match s with
  | EmptyString => false
  | String d r => if Ascii.eqb c d then true else contains c r
  end.

(** [s.starts_with(p)] *)
Definition starts_with (p s : string) : bool := String.prefix p s.

Fixpoint last_char (s : string) : option ascii :=
  match s with
  | EmptyString => None
  | String c EmptyString => Some c
  | String _ r => last_char r
  end.

Fixpoint drop_last (s : string) : string :=
  match s with
  | EmptyString => EmptyString
  | String _ EmptyString => EmptyString
  | String c r => String c (drop_last r)
  end.

(** [if (line.ends_with('\r')) line.erase(line.length() - 1, 1);] *)
Definition strip_cr (line : string) : string :=
  match last_char line with
  | Some c => if Ascii.eqb c cr then drop_last line else line
  | None => line
  end.

Definition is_empty (s : string) : bool :=
  match s with EmptyString => true | _ => false end.

(** [std::getline(ss, field, d)] on the rest [s] of a string stream: the text
    before the first [d] and what follows it.  When [d] does not occur the
    stream is exhausted and every later extraction leaves its target empty. *)
Fixpoint getline_delim (d : ascii) (s : string) : string * string :=
  match s with
  | EmptyString => (EmptyString, EmptyString)
  | String c r =>
      if Ascii.eqb c d then (EmptyString, r)
      else let (f, rest) := getline_delim d r in (String c f, rest)
  end.

(** The lines [std::getline(file, line)] yields until it fails: the segments
    between newlines, without a last empty one. *)
Fixpoint getlines_from (cur : string) (s : string) : list string :=
  match s with
  | EmptyString => if is_empty cur then [] else [cur]
  | String c r =>
      if Ascii.eqb c nl then cur :: getlines_from EmptyString r
      else getlines_from (cur +:+ String c EmptyString) r
  end.

Definition getlines (text : string) : list string := getlines_from EmptyString text.

(** [line.substr(line.find('=') + 1)]: [npos + 1] wraps to [0]. *)
Fixpoint after_first (d : ascii) (s : string) : option string :=
  match s with
  | EmptyString => None
  | String c r => if Ascii.eqb c d then Some r else after_first d r
  end.

Definition substr_after_find (d : ascii) (line : string) : string :=
  match after_first d line with
  | Some r => r
  | None => line
  end.

(** *** Numbers as text *)

Definition is_digit (c : ascii) : bool :=
  let n := Z.of_N (N_of_ascii c) in (48 <=? n) && (n <=? 57).

Definition digit_value (c : ascii) : Z := Z.of_N (N_of_ascii c) - 48.

Definition isspace (c : ascii) : bool :=
  let n := Z.of_N (N_of_ascii c) in ((9 <=? n) && (n <=? 13)) || (n =? 32).

Fixpoint skip_space (s : string) : string :=
  match s with
  | String c r => if isspace c then skip_space r else s
  | EmptyString => s
  end.

Fixpoint read_digits (s : string) (acc : Z) (cnt : nat) : Z * nat * string :=
  match s with
  | String c r =>
      if is_digit c then read_digits r (10 * acc + digit_value c) (S cnt)
      else (acc, cnt, s)
  | EmptyString => (acc, cnt, s)
  end.

Definition read_sign (s : string) : bool * string :=
  match s with
  | String "-" r => (true, r)
  | String "+" r => (false, r)
  | _ => (false, s)
  end.

Definition read_exponent (s : string) : Z :=
  match s with
  | String c r =>
      if Ascii.eqb c "e" || Ascii.eqb c "E" then
        let (neg, r1) := read_sign r in
        let '(e, cnt, _) := read_digits r1 0 0 in
        match cnt with
        | O => 0
        | S _ => if neg then - e else e
        end
      else 0
  | EmptyString => 0
  end.

Definition is_hex_prefix (s : string) : bool :=
  match s with
  | String "0" (String c _) => Ascii.eqb c "x" || Ascii.eqb c "X"
  | _ => false
  end.

(** [std::stold] and [std::stof], after the C library's [strtold]: leading
    white space, an optional sign, decimal
    digits with an optional point and an optional exponent; what follows the
    number is ignored.  [None] is the [std::invalid_argument] the callers
    catch.  Hexadecimal floats, [inf] and [nan] are no rationals; they are
    reported as unparseable here. *)
Definition stold (s : string) : option Q :=
  let s1 := skip_space s in
  let (neg, s2) := read_sign s1 in
  if is_hex_prefix s2 then None else
  let '(ip, ni, s3) := read_digits s2 0 0 in
  let '(fp, nf, s4) :=
    match s3 with
    | String "." r => read_digits r 0 0
    | _ => (0, O, s3)
    end in
  match (ni + nf)%nat with
  | O => None
  | S _ =>
      let m := (inject_Z ip + inject_Z fp / inject_Z (10 ^ Z.of_nat nf))%Q in
      let v := (m * Qpower (inject_Z 10) (read_exponent s4))%Q in
      Some (Qred (if neg then - v else v)%Q)
  end.

Definition stof : string -> option Q := stold.

(** [std::to_string(unsigned long long)] *)
Definition to_string_u64 (n : Z) : string :=
  NilZero.string_of_uint (N.to_uint (Z.to_N n)).

(** Nearest integer, ties to even: the rounding of [printf]. *)
Definition round_half_even (q : Q) : Z :=
  let n := Qnum q in
  let d := Zpos (Qden q) in
  let fl := n / d in
  let r2 := 2 * (n mod d) in
  if r2 <? d then fl
  else if d <? r2 then fl + 1
  else if Z.even fl then fl else fl + 1.

Fixpoint pad_zeros (width : nat) (s : string) : string :=
  match width with
  | O => s
  | S w => if (String.length s <? S w)%nat then String "0" (pad_zeros w s) else s
  end.

(** [std::to_string] on a floating type, which is [printf("%f")]: six digits
    after the point. *)
Definition to_string (q : Q) : string :=
  let a := Z.abs (round_half_even (q * inject_Z 1000000)%Q) in
  (if Num.Qltb q 0 then "-" else "")
    +:+ to_string_u64 (a / 1000000) +:+ "."
    +:+ pad_zeros 6 (to_string_u64 (a mod 1000000)).

End Text.

(** ** m1ModelFormat.cpp *)

Module M1.

Import Num Text.

Record Meta_Record := {
  name : string;
  values : gmap string string
}.

Record Node_Record := {
  startID : ContinuousNodeID;
  endID : ContinuousNodeID;
  node_type : string
}.

Record Edge_Block := {
  startX : ContinuousNodeID;
  endX : ContinuousNodeID;
  startY : ContinuousNodeID;
  endY : ContinuousNodeID;
  expression_probability : Probability
}.

Record Edge_Record := {
  edge_type : string;
  blocks : list Edge_Block
}.

Record m1_data := {
  meta : Meta_Record;
  nodes : list Node_Record;
  edges : list Edge_Record
}.

(** [Node_Record::operator<], [Edge_Block::operator<], [Edge_Record::operator<] *)
Definition Node_Record_lt (a b : Node_Record) : bool :=
  Qltb (startID a) (startID b)
  || (Qeq_bool (startID a) (startID b) && Qltb (endID a) (endID b)).

Definition Edge_Block_lt (a b : Edge_Block) : bool :=
  Qltb (startX a) (startX b)
  || (Qeq_bool (startX a) (startX b) && Qltb (startY a) (startY b)).

Definition Edge_Record_lt (a b : Edge_Record) : bool :=
  String.ltb (edge_type a) (edge_type b).

(** A [for] loop over a [std::map] visits the entries in key order. *)
Definition key_le {V} (a b : string * V) : Prop := String.leb a.1 b.1 = true.

#[export] Instance key_le_dec {V} (a b : string * V) : Decision (key_le a b).
Proof. unfold key_le. apply _. Defined.

Definition map_items {V} (m : gmap string V) : list (string * V) :=
  merge_sort key_le (map_to_list m).

Inductive ReaderMode := NONE | META | NODES | EDGES.

(** The local variables of [read_m1_file]. *)
Record reader := {
  result : m1_data;
  has_meta : bool;
  has_node : bool;
  has_edges : bool;
  current_edge_type : string;
  current_blocks : list Edge_Block;
  mode : ReaderMode
}.

Definition empty_m1 : m1_data :=
  {| meta := {| name := ""; values := ∅ |}; nodes := []; edges := [] |}.

Definition reader_init : reader :=
  {| result := empty_m1; has_meta := false; has_node := false; has_edges := false;
     current_edge_type := ""; current_blocks := []; mode := NONE |}.

Definition set_mode (m : ReaderMode) (st : reader) : reader :=
  {| result := result st; has_meta := has_meta st; has_node := has_node st;
     has_edges := has_edges st; current_edge_type := current_edge_type st;
     current_blocks := current_blocks st; mode := m |}.

(** [if (!current_blocks.empty()) { result.edges.push_back(...); has_edges = true; }] *)
Definition push_current (st : reader) : reader :=
  match current_blocks st with
  | [] => st
  | _ :: _ =>
      {| result :=
           {| meta := meta (result st); nodes := nodes (result st);
              edges := edges (result st)
                         ++ [ {| edge_type := current_edge_type st;
                                 blocks := current_blocks st |} ] |};
         has_meta := has_meta st; has_node := has_node st; has_edges := true;
         current_edge_type := current_edge_type st;
         current_blocks := current_blocks st; mode := mode st |}
  end.

Definition open_edges (line : string) (st : reader) : reader :=
  let st1 := push_current st in
  {| result := result st1; has_meta := has_meta st1; has_node := has_node st1;
     has_edges := has_edges st1;
     current_edge_type := substr_after_find "=" line;
     current_blocks := []; mode := EDGES |}.

Definition meta_line (line : string) (st : reader) : reader :=
  let (key, value) := getline_delim "=" line in
  if is_empty key || is_empty value then st
  else if String.eqb key "NAME" then
    {| result := {| meta := {| name := value; values := values (meta (result st)) |};
                    nodes := nodes (result st); edges := edges (result st) |};
       has_meta := true; has_node := has_node st; has_edges := has_edges st;
       current_edge_type := current_edge_type st;
       current_blocks := current_blocks st; mode := mode st |}
  else
    {| result := {| meta := {| name := name (meta (result st));
                               values := <[key := value]> (values (meta (result st))) |};
                    nodes := nodes (result st); edges := edges (result st) |};
       has_meta := has_meta st; has_node := has_node st; has_edges := has_edges st;
       current_edge_type := current_edge_type st;
       current_blocks := current_blocks st; mode := mode st |}.

(** The node row of a line of the NODES section, when the line is complete and
    both numbers parse. *)
Definition parse_node (line : string) : option Node_Record :=
  let (start, r1) := getline_delim "," line in
  let (end_, node_type) := getline_delim "," r1 in
  if is_empty start || is_empty end_ || is_empty node_type then None
  else
    match stold start, stold end_ with
    | Some s, Some e => Some {| startID := s; endID := e; node_type := node_type |}
    | _, _ => None
    end.

Definition node_line (line : string) (st : reader) : reader :=
  match parse_node line with
  | None => st
  | Some n =>
      {| result := {| meta := meta (result st); nodes := nodes (result st) ++ [n];
                      edges := edges (result st) |};
         has_meta := has_meta st; has_node := true; has_edges := has_edges st;
         current_edge_type := current_edge_type st;
         current_blocks := current_blocks st; mode := mode st |}
  end.

Definition parse_block (line : string) : option Edge_Block :=
  let (sX, r1) := getline_delim "," line in
  let (eX, r2) := getline_delim "," r1 in
  let (sY, r3) := getline_delim "," r2 in
  let (eY, probability) := getline_delim "," r3 in
  if is_empty sX || is_empty eX || is_empty sY || is_empty eY || is_empty probability
  then None
  else
    match stold sX, stold eX, stold sY, stold eY with
    | Some a, Some b, Some c, Some d =>
        match stof probability with
        | Some p => Some {| startX := a; endX := b; startY := c; endY := d;
                            expression_probability := p |}
        | None => None
        end
    | _, _, _, _ => None
    end.

Definition edge_line (line : string) (st : reader) : reader :=
  match parse_block line with
  | None => st
  | Some b =>
      {| result := result st; has_meta := has_meta st; has_node := has_node st;
         has_edges := has_edges st; current_edge_type := current_edge_type st;
         current_blocks := current_blocks st ++ [b]; mode := mode st |}
  end.

(** One turn of the [while (std::getline(file, line))] loop. *)
Definition read_line (st : reader) (raw : string) : outcome reader :=
  let line := strip_cr raw in
  if is_empty line then Returned st
  else if starts_with "#" line then
    if starts_with "# META" line then Returned (set_mode META st)
    else if starts_with "# NODES" line then Returned (set_mode NODES st)
    else if starts_with "# EDGES" line then Returned (open_edges line st)
    else Thrown (Unexpected_directive line)
  else
    match mode st with
    | NONE => Thrown (Unexpected_line_in_mode_NONE line)
    | META => Returned (meta_line line st)
    | NODES => Returned (node_line line st)
    | EDGES => Returned (edge_line line st)
    end.

Fixpoint read_lines (st : reader) (lines : list string) : outcome reader :=
  match lines with
  | [] => Returned st
  | l :: rest => st' ← read_line st l; read_lines st' rest
  end.

Definition finish (st : reader) : outcome m1_data :=
  let st1 := push_current st in
  if negb (has_meta st1) then Thrown Missing_META_section
  else if negb (has_node st1) then Thrown Missing_NODES_section
  else if negb (has_edges st1) then Thrown Missing_EDGES_section
  else Returned (result st1).

(** [read_m1_file], on the content of the file ([None]: it cannot be opened). *)
Definition read_m1_file (file : option string) : outcome m1_data :=
  match file with
  | None => Thrown Failed_to_open_file
  | Some text => st ← read_lines reader_init (getlines text); finish st
  end.

Definition endl : string := String nl EmptyString.

Fixpoint write_meta_values (kvs : list (string * string)) : outcome string :=
  match kvs with
  | [] => Returned ""
  | (key, value) :: rest =>
      if contains "=" key then Thrown (Equal_sign_in_key key)
      else if contains nl key || contains nl value then Thrown (Newline_in_key_value_pair key)
      else tail ← write_meta_values rest;
           Returned (key +:+ "=" +:+ value +:+ endl +:+ tail)
  end.

Definition node_str (n : Node_Record) : string :=
  to_string (startID n) +:+ "," +:+ to_string (endID n) +:+ "," +:+ node_type n +:+ endl.

Fixpoint write_nodes (ns : list Node_Record) : outcome string :=
  match ns with
  | [] => Returned ""
  | n :: rest =>
      if contains nl (node_type n) then Thrown (Newline_in_node_type (node_type n))
      else tail ← write_nodes rest; Returned (node_str n +:+ tail)
  end.

Definition edge_str (b : Edge_Block) : string :=
  to_string (startX b) +:+ "," +:+ to_string (endX b) +:+ ","
    +:+ to_string (startY b) +:+ "," +:+ to_string (endY b) +:+ ","
    +:+ to_string (expression_probability b) +:+ endl.

Definition write_blocks (bs : list Edge_Block) : string :=
  foldr (fun b tail => edge_str b +:+ tail) "" bs.

Fixpoint write_edges (es : list Edge_Record) : outcome string :=
  match es with
  | [] => Returned ""
  | e :: rest =>
      if contains nl (edge_type e) then Thrown (Newline_in_edge_type (edge_type e))
      else tail ← write_edges rest;
           Returned ("# EDGES=" +:+ edge_type e +:+ endl +:+ write_blocks (blocks e)
                       +:+ endl +:+ tail)
  end.

(** [write_m1_file]: the text written to the opened file. *)
Definition write_m1_file (data : m1_data) : outcome string :=
  meta_txt ← write_meta_values (map_items (values (meta data)));
  node_txt ← write_nodes (nodes data);
  edge_txt ← write_edges (edges data);
  Returned ("# META" +:+ endl +:+ "NAME=" +:+ name (meta data) +:+ endl +:+ meta_txt
              +:+ endl +:+ "# NODES" +:+ endl +:+ node_txt +:+ endl +:+ edge_txt).

(** [old_scale] of [scale_m1_data]: [1.0f] unless the key is there and parses. *)
Definition old_scale (vals : gmap string string) : Q :=
  match vals !! "SCALE" with
  | Some s => match stof s with Some v => v | None => 1%Q end
  | None => 1%Q
  end.

Definition scale_block (scale : Q) (b : Edge_Block) : Edge_Block :=
  let adapted_probability := (expression_probability b / scale)%Q in
  {| startX := (startX b * scale)%Q; endX := (endX b * scale)%Q;
     startY := (startY b * scale)%Q; endY := (endY b * scale)%Q;
     expression_probability :=
       if Qltb 1 adapted_probability then 1%Q else adapted_probability |}.

Definition scale_node (scale : Q) (n : Node_Record) : Node_Record :=
  {| startID := (startID n * scale)%Q; endID := (endID n * scale)%Q;
     node_type := node_type n |}.

Definition scale_record (scale : Q) (r : Edge_Record) : Edge_Record :=
  {| edge_type := edge_type r; blocks := map (scale_block scale) (blocks r) |}.

(** [new_model_failures]: the blocks whose probability the scaling clamps. *)
Definition new_model_failures (scale : Q) (data : m1_data) : Z :=
  let clamped (b : Edge_Block) := Qltb 1 (expression_probability b / scale)%Q in
  foldl (fun n r => n + Z.of_nat (length (filter (fun b => clamped b = true) (blocks r))))
        0 (edges data).

Definition scale_m1_data (data : m1_data) (scale : Q) : outcome m1_data :=
  if Qeq_bool scale 0 then Thrown Scale_must_be_greater_than_zero
  else
    let copied :=
      foldl (fun (m : gmap string string) kv => <[kv.1 := kv.2]> m) ∅
            (map_items (values (meta data))) in
    Returned
      {| meta := {| name := name (meta data);
                    values := <["SCALE" := to_string (old_scale (values (meta data)) * scale)%Q]>
                                copied |};
         nodes := map (scale_node scale) (nodes data);
         edges := map (scale_record scale) (edges data) |}.

End M1.

(** ** The M1 file format as the specification describes it

    A file is a sequence of sections, each opened by a directive line; blank
    lines and a trailing carriage return do not count.  The definitions below
    read a file section by section and are what [read_m1_file] is compared
    with. *)

Module M1Format.

Import Num Text M1.


Inductive directive :=
| D_META
| D_NODES
| D_EDGES (edge_type : string)
| D_unknown (line : string).





(** A [KEY=VALUE] line with both parts present. *)
Definition meta_entry (l : string) : option (string * string) :=
  let (key, value) := getline_delim "=" l in
  if is_empty key || is_empty value then None else Some (key, value).

Definition meta_lines (secs : list (directive * list string)) : list string :=
  concat ((fun s => match s.1 with D_META => s.2 | _ => [] end) <$> secs).

Definition node_lines (secs : list (directive * list string)) : list string :=
  concat ((fun s => match s.1 with D_NODES => s.2 | _ => [] end) <$> secs).

Definition meta_entries (secs : list (directive * list string)) : list (string * string) :=
  omap meta_entry (meta_lines secs).

Definition is_NAME (kv : string * string) : bool := String.eqb kv.1 "NAME".

(** The values of the NAME entries, and the other entries. *)
Definition names (secs : list (directive * list string)) : list string :=
  snd <$> filter (fun kv => is_NAME kv = true) (meta_entries secs).


Definition node_rows (secs : list (directive * list string)) : list Node_Record :=
  omap parse_node (node_lines secs).







(** *** The reader, section by section *)












End M1Format.

(** ** GenericGraphReader.cpp *)

Module Fitter.

Import Num Text M1.

(** *** Unordered containers

    A [std::unordered_map] is the list of its entries in iteration order.  The
    language does not fix that order; here an entry stays where it is and a new
    key is put at the end, which is one order an implementation may give. *)

Section unordered_map.
Context {K V : Type} `{EqDecision K}.

Fixpoint um_find (k : K) (m : list (K * V)) : option V :=
  match m with
  | [] => None
  | (k', v) :: rest => if decide (k' = k) then Some v else um_find k rest
  end.

(** [m[k] = f(m[k])], where [m[k]] is first set to [dflt] when [k] is new. *)
Fixpoint um_alter (dflt : V) (f : V -> V) (k : K) (m : list (K * V)) : list (K * V) :=
  match m with
  | [] => [(k, f dflt)]
  | (k', v) :: rest =>
      if decide (k' = k) then (k', f v) :: rest
      else (k', v) :: um_alter dflt f k rest
  end.

Definition um_set (k : K) (v : V) (m : list (K * V)) : list (K * V) :=
  um_alter v (fun _ => v) k m.

(** The value read by [m[k]]. *)
Definition um_at (dflt : V) (k : K) (m : list (K * V)) : V :=
  default dflt (um_find k m).

End unordered_map.

(** [unordered_set::insert] *)
Definition us_insert (k : string) (s : list string) : list string :=
  if decide (k ∈ s) then s else s ++ [k].

Definition incr (n : Z) : Z := add64 n 1.

Record Edge_Type_Container := {
  sum_of_in_degrees : Z;
  sum_of_out_degrees : Z;
  number_of_nodes_with_in_degree : Z;
  number_of_nodes_with_out_degree : Z;
  in_degrees : list (Z * Z);
  out_degrees : list (Z * Z)
}.

Record Node_Type_Container := {
  node_count : Z;
  node_type : string;
  edge_data : list (string * Edge_Type_Container)
}.

Definition has_edge_type (c : Node_Type_Container) (t : string) : bool :=
  match um_find t (edge_data c) with Some _ => true | None => false end.

Definition Edge_Type_Container_new : Edge_Type_Container :=
  {| sum_of_in_degrees := 0; sum_of_out_degrees := 0;
     number_of_nodes_with_in_degree := 0; number_of_nodes_with_out_degree := 0;
     in_degrees := []; out_degrees := [] |}.

Definition Node_Type_Container_new : Node_Type_Container :=
  {| node_count := 0; node_type := ""; edge_data := [] |}.

(** The members of the class. *)
Module GenericGraphReader.

Record t := {
  node_count : Z;
  edge_count : list (string * Z);
  sbm_matrix : list (string * gmap (string * string) Z);
  node_types : list (string * Z);
  edge_colors : list string;
  nodes_to_types : list (string * string);
  in_degrees : list (string * gmap string Z);
  out_degrees : list (string * gmap string Z)
}.

Definition new : t :=
  {| node_count := 0; edge_count := []; sbm_matrix := []; node_types := [];
     edge_colors := []; nodes_to_types := []; in_degrees := []; out_degrees := [] |}.

End GenericGraphReader.

(** [map[k]++] on a [std::map] with integer values. *)
Definition map_incr `{Countable K} (k : K) (m : gmap K Z) : gmap K Z :=
  <[k := incr (default 0 (m !! k))]> m.

Definition readNode (this : GenericGraphReader.t) (node node_type : string) : GenericGraphReader.t :=
  {| GenericGraphReader.node_count := incr (GenericGraphReader.node_count this);
     GenericGraphReader.edge_count := GenericGraphReader.edge_count this;
     GenericGraphReader.sbm_matrix := GenericGraphReader.sbm_matrix this;
     GenericGraphReader.node_types := um_alter 0 incr node_type (GenericGraphReader.node_types this);
     GenericGraphReader.edge_colors := GenericGraphReader.edge_colors this;
     GenericGraphReader.nodes_to_types := um_set node node_type (GenericGraphReader.nodes_to_types this);
     GenericGraphReader.in_degrees := GenericGraphReader.in_degrees this;
     GenericGraphReader.out_degrees := GenericGraphReader.out_degrees this |}.

Definition readEdge (this : GenericGraphReader.t) (start end_ edge_type : string) : GenericGraphReader.t :=
  (* [GenericGraphReader.nodes_to_types[start]] and [GenericGraphReader.nodes_to_types[end]] add the empty type for
     a node that was never read. *)
  let n2t1 := um_alter "" (fun v => v) start (GenericGraphReader.nodes_to_types this) in
  let type_start := um_at "" start n2t1 in
  let n2t2 := um_alter "" (fun v => v) end_ n2t1 in
  let type_end := um_at "" end_ n2t2 in
  {| GenericGraphReader.node_count := GenericGraphReader.node_count this;
     GenericGraphReader.edge_count := um_alter 0 incr edge_type (GenericGraphReader.edge_count this);
     GenericGraphReader.sbm_matrix := um_alter ∅ (map_incr (type_start, type_end)) edge_type (GenericGraphReader.sbm_matrix this);
     GenericGraphReader.node_types := GenericGraphReader.node_types this;
     GenericGraphReader.edge_colors := us_insert edge_type (GenericGraphReader.edge_colors this);
     GenericGraphReader.nodes_to_types := n2t2;
     GenericGraphReader.in_degrees :=
       um_alter ∅ (map_incr end_) edge_type (GenericGraphReader.in_degrees this);
     GenericGraphReader.out_degrees :=
       um_alter ∅ (map_incr start) edge_type (GenericGraphReader.out_degrees this) |}.

(** *** [process] *)

(** The generator [std::mt19937 random_source(seed)] and [std::shuffle] on a
    degree list, which rearranges the list and advances the generator. *)
Record Shuffler := {
  sgen : Type;
  shuffle_seed : Z -> sgen;
  shuffle : sgen -> list (Z * Z) -> list (Z * Z) * sgen;
  shuffle_Permutation : forall g l, (shuffle g l).1 ≡ₚ l
}.

(** [operator<] of [std::pair<Degree, Amount>]. *)
Definition pair_lt (a b : Z * Z) : bool :=
  (a.1 <? b.1) || ((a.1 =? b.1) && (a.2 <? b.2)).

(** [std::sort]: the order of elements that compare equivalent is the one of
    a stable sort. *)
Definition not_after {A} (lt : A -> A -> bool) (x y : A) : Prop := lt y x = false.

#[export] Instance not_after_dec {A} (lt : A -> A -> bool) (x y : A) :
  Decision (not_after lt x y).
Proof. unfold not_after. apply _. Defined.

Definition sort_by {A} (lt : A -> A -> bool) (l : list A) : list A :=
  merge_sort (not_after lt) l.

(** A degree distribution: node type, edge type, degree, number of nodes. *)
Definition distribution := list (string * list (string * list (Z * Z))).

Definition count_degree (types : list (string * string)) (e_type : string)
    (dist : distribution) (entry : string * Z) : distribution :=
  let '(node, deg) := entry in
  um_alter [] (um_alter [] (um_alter 0 incr deg) e_type) (um_at "" node types) dist.

Definition distribution_of (types : list (string * string))
    (degrees : list (string * gmap string Z)) : distribution :=
  foldl (fun dist '(e_type, nodes) =>
           foldl (count_degree types e_type) dist (map_items nodes))
        [] degrees.

Definition add_in_degree (deg amount : Z) (c : Edge_Type_Container) : Edge_Type_Container :=
  {| sum_of_in_degrees := add64 (sum_of_in_degrees c) (mul64 deg amount);
     sum_of_out_degrees := sum_of_out_degrees c;
     number_of_nodes_with_in_degree := add64 (number_of_nodes_with_in_degree c) amount;
     number_of_nodes_with_out_degree := number_of_nodes_with_out_degree c;
     in_degrees := in_degrees c ++ [(deg, amount)];
     out_degrees := out_degrees c |}.

Definition add_out_degree (deg amount : Z) (c : Edge_Type_Container) : Edge_Type_Container :=
  {| sum_of_in_degrees := sum_of_in_degrees c;
     sum_of_out_degrees := add64 (sum_of_out_degrees c) (mul64 deg amount);
     number_of_nodes_with_in_degree := number_of_nodes_with_in_degree c;
     number_of_nodes_with_out_degree := add64 (number_of_nodes_with_out_degree c) amount;
     in_degrees := in_degrees c;
     out_degrees := out_degrees c ++ [(deg, amount)] |}.

Definition nt_containers_t := list (string * Node_Type_Container).

(** [nt_containers[n_type].edge_data[e_type]] updated by [f]. *)
Definition alter_edge_data (f : Edge_Type_Container -> Edge_Type_Container)
    (n_type e_type : string) (nt : nt_containers_t) : nt_containers_t :=
  um_alter Node_Type_Container_new
    (fun c => {| node_count := node_count c; node_type := node_type c;
                 edge_data := um_alter Edge_Type_Container_new f e_type (edge_data c) |})
    n_type nt.

Definition read_distribution
    (add : Z -> Z -> Edge_Type_Container -> Edge_Type_Container)
    (dist : distribution) (nt : nt_containers_t) : nt_containers_t :=
  foldl (fun nt1 '(n_type, e_cont) =>
           foldl (fun nt2 '(e_type, nodes) =>
                    foldl (fun nt3 '(deg, amount) =>
                             alter_edge_data (add deg amount) n_type e_type nt3)
                          nt2 nodes)
                 nt1 e_cont)
        nt dist.

(** The containers set up from [GenericGraphReader.node_types] and [GenericGraphReader.edge_colors]. *)
Definition setup_containers (this : GenericGraphReader.t) : nt_containers_t :=
  foldl (fun nt '(n_type, cnt) =>
           um_set n_type
             {| node_count := cnt; node_type := n_type;
                edge_data := foldl (fun ed e_type => um_set e_type Edge_Type_Container_new ed)
                                   [] (GenericGraphReader.edge_colors this) |}
             nt)
        [] (GenericGraphReader.node_types this).

Section with_shuffler.

Variable Sh : Shuffler.

(** Pad with zero-degree nodes, then sort and shuffle both lists. *)
Definition pad_and_shuffle (n_count : Z) (g : sgen Sh) (c : Edge_Type_Container)
    : Edge_Type_Container * sgen Sh :=
  let ins := if number_of_nodes_with_in_degree c <? n_count
             then in_degrees c ++ [(0, sub64 n_count (number_of_nodes_with_in_degree c))]
             else in_degrees c in
  let outs := if number_of_nodes_with_out_degree c <? n_count
              then out_degrees c ++ [(0, sub64 n_count (number_of_nodes_with_out_degree c))]
              else out_degrees c in
  let (ins', g1) := shuffle Sh g (sort_by pair_lt ins) in
  let (outs', g2) := shuffle Sh g1 (sort_by pair_lt outs) in
  ({| sum_of_in_degrees := sum_of_in_degrees c;
      sum_of_out_degrees := sum_of_out_degrees c;
      number_of_nodes_with_in_degree := number_of_nodes_with_in_degree c;
      number_of_nodes_with_out_degree := number_of_nodes_with_out_degree c;
      in_degrees := ins'; out_degrees := outs' |}, g2).

Fixpoint pad_edge_data (n_count : Z) (g : sgen Sh) (ed : list (string * Edge_Type_Container))
    : list (string * Edge_Type_Container) * sgen Sh :=
  match ed with
  | [] => ([], g)
  | (e_type, c) :: rest =>
      let (c', g1) := pad_and_shuffle n_count g c in
      let (rest', g2) := pad_edge_data n_count g1 rest in
      ((e_type, c') :: rest', g2)
  end.

Fixpoint pad_containers (g : sgen Sh) (nt : nt_containers_t) : nt_containers_t * sgen Sh :=
  match nt with
  | [] => ([], g)
  | (n_type, c) :: rest =>
      let (ed, g1) := pad_edge_data (node_count c) g (edge_data c) in
      let (rest', g2) := pad_containers g1 rest in
      ((n_type, {| node_count := node_count c; node_type := node_type c;
                   edge_data := ed |}) :: rest', g2)
  end.

(** [work_container]: the first half of [process]. *)
Definition work_container_of (this : GenericGraphReader.t) (seed : Z) : list Node_Type_Container :=
  let nt0 := setup_containers this in
  let in_distribution :=
    distribution_of (GenericGraphReader.nodes_to_types this) (GenericGraphReader.in_degrees this) in
  let out_distribution :=
    distribution_of (GenericGraphReader.nodes_to_types this) (GenericGraphReader.out_degrees this) in
  let nt1 := read_distribution add_in_degree in_distribution nt0 in
  let nt2 := read_distribution add_out_degree out_distribution nt1 in
  snd <$> (pad_containers (shuffle_seed Sh seed) nt2).1.

End with_shuffler.

(** The node records: consecutive intervals in the order of [work_container]. *)
Fixpoint parse_nodes (current_id : Z) (work : list Node_Type_Container) : list Node_Record :=
  match work with
  | [] => []
  | c :: rest =>
      {| startID := of_int current_id; endID := of_int (add64 current_id (node_count c));
         M1.node_type := node_type c |}
        :: parse_nodes (add64 current_id (node_count c)) rest
  end.

(** The DDcSBM formula, with the guard against a division by zero. *)
Definition ddcsbm (edges_between_types deg_x sum_of_out deg_y sum_of_in : Z) : Q :=
  if (0 <? sum_of_out) && (0 <? sum_of_in)
  then (of_int edges_between_types * (of_int deg_x / of_int sum_of_out)
          * (of_int deg_y / of_int sum_of_in))%Q
  else 0%Q.

(** The blocks collected so far, [failed_ddcsbm_probabilities] and
    [total_blocks]. *)
Record tally := {
  tally_blocks : list Edge_Block;
  failed_ddcsbm_probabilities : Z;
  total_blocks : Z
}.

(** The innermost loop, over the in-degree list of [container_y]. *)
Fixpoint loop_deg_y (edges_between_types sum_of_out sum_of_in : Z)
    (deg_x amount_x current_id_x : Z) (ins : list (Z * Z)) (current_id_y : Z)
    (acc : tally) : tally :=
  match ins with
  | [] => acc
  | (deg_y, amount_y) :: rest =>
      let prob := ddcsbm edges_between_types deg_x sum_of_out deg_y sum_of_in in
      let failed := if Qltb 1 prob then incr (failed_ddcsbm_probabilities acc)
                    else failed_ddcsbm_probabilities acc in
      let acc' :=
        if Qltb 0 prob
        then {| tally_blocks :=
                  tally_blocks acc
                    ++ [ {| startX := of_int current_id_x;
                            endX := of_int (add64 current_id_x amount_x);
                            startY := of_int current_id_y;
                            endY := of_int (add64 current_id_y amount_y);
                            expression_probability := prob |} ];
                failed_ddcsbm_probabilities := failed;
                total_blocks := incr (total_blocks acc) |}
        else {| tally_blocks := tally_blocks acc;
                failed_ddcsbm_probabilities := failed;
                total_blocks := total_blocks acc |} in
      loop_deg_y edges_between_types sum_of_out sum_of_in deg_x amount_x current_id_x
        rest (add64 current_id_y amount_y) acc'
  end.

Fixpoint loop_deg_x (edges_between_types sum_of_out sum_of_in : Z)
    (outs ins : list (Z * Z)) (current_id_x outer_id_y : Z) (acc : tally) : tally :=
  match outs with
  | [] => acc
  | (deg_x, amount_x) :: rest =>
      loop_deg_x edges_between_types sum_of_out sum_of_in rest ins
        (add64 current_id_x amount_x) outer_id_y
        (loop_deg_y edges_between_types sum_of_out sum_of_in deg_x amount_x current_id_x
           ins outer_id_y acc)
  end.

Definition etc_of (c : Node_Type_Container) (e_type : string) : Edge_Type_Container :=
  um_at Edge_Type_Container_new e_type (edge_data c).

Fixpoint loop_container_y (matrix : gmap (string * string) Z) (e_type : string)
    (container_x : Node_Type_Container) (outer_id_x : Z)
    (work : list Node_Type_Container) (outer_id_y : Z) (acc : tally) : tally :=
  match work with
  | [] => acc
  | container_y :: rest =>
      let acc' :=
        if negb (has_edge_type container_y e_type)
           || (number_of_nodes_with_in_degree (etc_of container_y e_type) =? 0)
        then acc
        else
          loop_deg_x
            (default 0 (matrix !! (node_type container_x, node_type container_y)))
            (sum_of_out_degrees (etc_of container_x e_type))
            (sum_of_in_degrees (etc_of container_y e_type))
            (out_degrees (etc_of container_x e_type))
            (in_degrees (etc_of container_y e_type))
            outer_id_x outer_id_y acc in
      loop_container_y matrix e_type container_x outer_id_x rest
        (add64 outer_id_y (node_count container_y)) acc'
  end.

Fixpoint loop_container_x (matrix : gmap (string * string) Z) (e_type : string)
    (all : list Node_Type_Container) (work : list Node_Type_Container)
    (outer_id_x : Z) (acc : tally) : tally :=
  match work with
  | [] => acc
  | container_x :: rest =>
      let acc' :=
        if negb (has_edge_type container_x e_type)
           || (number_of_nodes_with_out_degree (etc_of container_x e_type) =? 0)
        then acc
        else loop_container_y matrix e_type container_x outer_id_x all 0 acc in
      loop_container_x matrix e_type all rest
        (add64 outer_id_x (node_count container_x)) acc'
  end.

(** The loop over [GenericGraphReader.edge_colors]: the edge records, each with its blocks
    sorted, and the two counters. *)
Fixpoint parse_edge_types (this : GenericGraphReader.t) (work : list Node_Type_Container)
    (colors : list string) (failed total : Z) : list Edge_Record * Z * Z :=
  match colors with
  | [] => ([], failed, total)
  | e_type :: rest =>
      let acc := loop_container_x (um_at ∅ e_type (GenericGraphReader.sbm_matrix this)) e_type work work 0
                   {| tally_blocks := []; failed_ddcsbm_probabilities := failed;
                      total_blocks := total |} in
      let '(records, failed', total') :=
        parse_edge_types this work rest (failed_ddcsbm_probabilities acc)
          (total_blocks acc) in
      ({| edge_type := e_type; blocks := sort_by Edge_Block_lt (tally_blocks acc) |}
         :: records, failed', total')
  end.

(** The meta record: SCALE and the default name first, then [meta_data]. *)
Definition process_meta (meta_data : gmap string string) : Meta_Record :=
  foldl (fun (m : Meta_Record) kv =>
           if String.eqb kv.1 "NAME" then {| name := kv.2; values := values m |}
           else {| name := name m; values := <[kv.1 := kv.2]> (values m) |})
        {| name := "Unnamed graph model"; values := {[ "SCALE" := "1.0" ]} |}
        (map_items meta_data).

(** What [process] returns and reports. *)
Record processed := {
  model : m1_data;
  model_failures : Z;
  blocks_emitted : Z
}.

Definition process (Sh : Shuffler) (this : GenericGraphReader.t) (meta_data : gmap string string) (seed : Z)
    : processed :=
  let work_container := work_container_of Sh this seed in
  let '(records, failed, total) :=
    parse_edge_types this work_container (GenericGraphReader.edge_colors this) 0 0 in
  {| model := {| meta := process_meta meta_data;
                 nodes := sort_by Node_Record_lt (parse_nodes 0 work_container);
                 edges := sort_by Edge_Record_lt records |};
     model_failures := failed;
     blocks_emitted := total |}.

(** *** The rows the ingestor feeds in *)

Inductive observation :=
| Node (id type : string)
| Edge (src dst type : string).

Definition observe (this : GenericGraphReader.t) (o : observation) : GenericGraphReader.t :=
  match o with
  | Node id type => readNode this id type
  | Edge src dst type => readEdge this src dst type
  end.

Definition fit (rows : list observation) : GenericGraphReader.t := foldl observe GenericGraphReader.new rows.

(** A shuffler for the closed examples: entries are drawn one after the other
    with the linear congruential step of [std::minstd_rand].  It stands in for
    [std::shuffle] with [std::mt19937]; like them it leaves a list of fewer
    than two entries as it is and draws nothing for it. *)
Fixpoint draw_entries (fuel : nat) (g : Z) (l : list (Z * Z)) : list (Z * Z) * Z :=
  match fuel with
  | O => (l, g)
  | S fuel' =>
      let g' := (48271 * g) mod 2147483647 in
      let j := Z.to_nat (g' mod Z.of_nat (length l)) in
      match l !! j with
      | Some x => let (rest, g'') := draw_entries fuel' g' (delete j l) in (x :: rest, g'')
      | None => (l, g')
      end
  end.

Definition minstd_shuffle (g : Z) (l : list (Z * Z)) : list (Z * Z) * Z :=
  if (length l <? 2)%nat then (l, g) else draw_entries (length l) g l.

Lemma draw_entries_Permutation (fuel : nat) (g : Z) (l : list (Z * Z)) :
  (draw_entries fuel g l).1 ≡ₚ l.
Proof.
  revert g l. induction fuel as [|fuel IH]; intros g l; [reflexivity|].
  cbn [draw_entries].
  destruct (l !! _) as [x|] eqn:E; [|reflexivity].
  specialize (IH ((48271 * g) mod 2147483647)
                 (delete (Z.to_nat (((48271 * g) mod 2147483647) mod Z.of_nat (length l))) l)).
  destruct (draw_entries fuel _ _) as [rest g'']. cbn [fst] in *.
  rewrite IH. symmetry. by apply delete_Permutation.
Qed.

Lemma minstd_shuffle_Permutation (g : Z) (l : list (Z * Z)) :
  (minstd_shuffle g l).1 ≡ₚ l.
Proof.
  unfold minstd_shuffle. destruct (length l <? 2)%nat; [reflexivity|].
  apply draw_entries_Permutation.
Qed.

Definition minstd_shuffler : Shuffler :=
  {| sgen := Z;
     shuffle_seed := fun seed => if seed mod 2147483647 =? 0 then 1 else seed mod 2147483647;
     shuffle := minstd_shuffle;
     shuffle_Permutation := minstd_shuffle_Permutation |}.

End Fitter.

(** ** Generator.cpp *)

Module Sampler.

Import Num Text M1.

(** [using Record = std::tuple<NodeID, NodeID, NodeID, NodeID, Probability>] *)
Definition Record_t : Type := Z * Z * Z * Z * Q.

Definition MAX_ALLOWED_TYPE_LENGTH : Z := 64.
Definition MAX_BUFFER_SIZE : Z := 100000.
Definition MAX_BUFFER_SAFETY_MARGIN : Z := 500.

(** The do-while loop of [unsafe_u64Int_to_str]; a 64-bit value has at most
    twenty digits. *)
Fixpoint u64_digits (fuel : nat) (value : Z) (acc : string) : string :=
  match fuel with
  | O => acc
  | S fuel' =>
      let acc' := String (ascii_of_N (Z.to_N (value mod 10 + 48))) acc in
      if value / 10 =? 0 then acc' else u64_digits fuel' (value / 10) acc'
  end.

Definition unsafe_u64Int_to_str (value : Z) : string := u64_digits 20 value "".

(** [static_cast<NodeID>(x)]: the value truncated towards zero, undefined when
    the truncated value is no [uint64_t]. *)
Definition to_NodeID (x : Q) : outcome Z :=
  let t := Z.quot (Qnum x) (Zpos (Qden x)) in
  if (0 <=? t) && (t <? two64) then Returned t else Undefined.

Definition convert_start_of_block (x : Q) : outcome Z :=
  n ← to_NodeID x; Returned (add64 n 1).

Definition convert_end_of_block (x : Q) : outcome Z := to_NodeID x.

(** The body of the loop of [read_edge_block_data]: [None] is [continue]. *)
Definition convert_block (b : Edge_Block) : outcome (option Record_t) :=
  s_X ← convert_start_of_block (startX b);
  e_X ← convert_end_of_block (endX b);
  s_Y ← convert_start_of_block (startY b);
  e_Y ← convert_end_of_block (endY b);
  if (e_X <? s_X) || (e_Y <? s_Y) then Returned None
  else
    let prob := expression_probability b in
    Returned (Some (s_X, e_X, s_Y, e_Y, if Qltb 1 prob then 1%Q else prob)).

Fixpoint convert_blocks (bs : list Edge_Block) : outcome (list Record_t) :=
  match bs with
  | [] => Returned []
  | b :: rest =>
      r ← convert_block b;
      res ← convert_blocks rest;
      Returned (match r with Some t => t :: res | None => res end)
  end.

Definition read_edge_block_data (data : Edge_Record) : outcome (list Record_t) :=
  if MAX_ALLOWED_TYPE_LENGTH <? Z.of_nat (String.length (edge_type data))
  then Thrown (Edge_type_too_long (edge_type data))
  else convert_blocks (blocks data).

(** The random source.  [engine_seed] is [std::mt19937_64 rdm_gen(seed)],
    [engine_next] is [rdm_gen()], and [jump_term prob] is one evaluation of
    [std::ceil(std::log2(uniform_f_distr(rdm_gen)) * devroye_denominator)]
    for a block of probability [prob], an integer, together with the advanced
    generator. *)
Record Engine := {
  gen : Type;
  engine_seed : Z -> gen;
  engine_next : gen -> Z * gen;
  jump_term : Q -> gen -> Z * gen
}.

Definition INT_MIN : Z := - 2 ^ 31.
Definition INT_MAX : Z := 2 ^ 31 - 1.

(** [const Amount jump_distance = 1 + static_cast<int>(...)]: the cast and the
    addition are undefined outside [int]; a negative [int] converts to
    [Amount] modulo [2^64]. *)
Definition jump_distance (c : Z) : outcome Z :=
  if (INT_MIN <=? c) && (c <? INT_MAX) then Returned (wrap64 (1 + c)) else Undefined.

(** An edge row [srcId \t dstId \t edgeType \n]. *)
Definition Edge : Type := Z * Z * string.

Definition row_text (e : Edge) : string :=
  let '(x, y, t) := e in
  unsafe_u64Int_to_str x +:+ String "009" (unsafe_u64Int_to_str y) +:+ String "009" t
    +:+ String nl "".

Section with_engine.

Variable E : Engine.

(** A worker: [rdm_gen], the rows in [buffer], [buffer_pos - buffer] and the
    buffers it has written to the output so far. *)
Record worker := {
  rdm_gen : gen E;
  buffer : list Edge;
  buffer_pos : Z;
  written : list (list Edge)
}.

(** Append one row to the buffer and write the buffer out when it is nearly
    full. *)
Definition emit (e : Edge) (g : gen E) (w : worker) : worker :=
  let pos := buffer_pos w + Z.of_nat (String.length (row_text e)) in
  if MAX_BUFFER_SIZE - MAX_BUFFER_SAFETY_MARGIN - 1 <=? pos
  then {| rdm_gen := g; buffer := []; buffer_pos := 0;
          written := written w ++ [buffer w ++ [e]] |}
  else {| rdm_gen := g; buffer := buffer w ++ [e]; buffer_pos := pos;
          written := written w |}.

(** The [while (true)] loop over one block.  [None]: the loop is still
    running after [fuel] turns. *)
Fixpoint block_loop (fuel : nat) (r : Record_t) (e_type : string)
    (len_x offset_x idx_y : Z) (w : worker) : option (outcome worker) :=
  match fuel with
  | O => None
  | S fuel' =>
      let '(startX, endX, startY, endY, prob) := r in
      let (c, g) := jump_term E prob (rdm_gen w) in
      match jump_distance c with
      | Returned jump =>
          let next_offset := add64 offset_x jump in
          if len_x =? 0 then Some Undefined
          else
            let offset_x' := next_offset mod len_x in
            let idx_y' := add64 idx_y (next_offset / len_x) in
            if endY <? idx_y'
            then Some (Returned {| rdm_gen := g; buffer := buffer w;
                                   buffer_pos := buffer_pos w; written := written w |})
            else block_loop fuel' r e_type len_x offset_x' idx_y'
                   (emit (add64 startX offset_x', idx_y', e_type) g w)
      | Thrown e => Some (Thrown e)
      | Undefined => Some Undefined
      end
  end.

Definition len_x_of (r : Record_t) : Z :=
  let '(startX, endX, _, _, _) := r in add64 (sub64 endX startX) 1.

Definition startY_of (r : Record_t) : Z := let '(_, _, startY, _, _) := r in startY.

(** The [for] loop over the blocks [data[idx]] that exist. *)
Fixpoint worker_blocks (fuel : nat) (todo : list Record_t) (e_type : string)
    (w : worker) : option (outcome worker) :=
  match todo with
  | [] => Some (Returned w)
  | r :: rest =>
      match block_loop fuel r e_type (len_x_of r) 0 (startY_of r) w with
      | Some (Returned w') => worker_blocks fuel rest e_type w'
      | other => other
      end
  end.

(** [multithread_generate_graph]: the buffers the worker writes, in order.
    The loop reads [data[idx]] for [idx] from [workload_start] up to
    [workload_end]; an index that is not smaller than [data.size()] is read
    out of bounds. *)
Definition multithread_generate_graph (fuel : nat) (data : list Record_t)
    (workload_start workload_end : Z) (seed : Z) (e_type : string)
    : option (outcome (list (list Edge))) :=
  let size := Z.of_nat (length data) in
  if workload_end <? workload_start then Some (Returned [])
  else
    let todo := take (Z.to_nat (Z.min (workload_end + 1) size - workload_start))
                     (drop (Z.to_nat workload_start) data) in
    let w0 := {| rdm_gen := engine_seed E seed; buffer := []; buffer_pos := 0;
                 written := [] |} in
    match worker_blocks fuel todo e_type w0 with
    | Some (Returned w) =>
        if size <=? workload_end then Some Undefined
        else Some (Returned (if 0 <? buffer_pos w then written w ++ [buffer w]
                             else written w))
    | Some (Thrown e) => Some (Thrown e)
    | Some Undefined => Some Undefined
    | None => None
    end.

(** [n_threads]: [hardware_concurrency()] is an [unsigned int]. *)
Definition n_threads_of (hardware_concurrency : Z) : Z :=
  let n := wrap32 (hardware_concurrency - 1) in
  if n <=? 1 then 1 else n.

(** The ranges [(idx_start, idx_end)] the thread loop hands out. *)
Fixpoint thread_ranges_loop (threads : nat) (size workload_size idx_start idx_end : Z)
    : list (Z * Z) :=
  match threads with
  | O => []
  | S threads' =>
      let idx_start' := add64 idx_end 1 in
      let idx_end0 := add64 idx_start' workload_size in
      let idx_end' := if size <? idx_end0 then sub64 size 1 else idx_end0 in
      (idx_start, idx_end)
        :: thread_ranges_loop threads' size workload_size idx_start' idx_end'
  end.

Definition thread_ranges (size n_threads : Z) : list (Z * Z) :=
  let workload_size := size / n_threads in
  let overflow_workload_size := workload_size mod n_threads in
  thread_ranges_loop (Z.to_nat n_threads) size workload_size 0
    (sub64 (add64 overflow_workload_size workload_size) 1).

(** The arguments of the calls of [multithread_generate_graph] for one edge
    type, each with its draw [rdm_gen()] of the parent generator. *)
Fixpoint draw_seeds (ranges : list (Z * Z)) (g : gen E) : list (Z * Z * Z) * gen E :=
  match ranges with
  | [] => ([], g)
  | (a, b) :: rest =>
      let (seed, g1) := engine_next E g in
      let (tl, g2) := draw_seeds rest g1 in
      ((a, b, seed) :: tl, g2)
  end.

Definition calls_for (hardware_concurrency : Z) (size : Z) (g : gen E)
    : list (Z * Z * Z) * gen E :=
  if size <? 100 then draw_seeds [(0, sub64 size 1)] g
  else draw_seeds (thread_ranges size (n_threads_of hardware_concurrency)) g.

Fixpoint run_calls (fuel : nat) (data : list Record_t) (e_type : string)
    (calls : list (Z * Z * Z)) : option (outcome (list (list (list Edge)))) :=
  match calls with
  | [] => Some (Returned [])
  | (a, b, seed) :: rest =>
      match multithread_generate_graph fuel data a b seed e_type with
      | Some (Returned chunks) =>
          match run_calls fuel data e_type rest with
          | Some (Returned tl) => Some (Returned (chunks :: tl))
          | other => other
          end
      | Some (Thrown e) => Some (Thrown e)
      | Some Undefined => Some Undefined
      | None => None
      end
  end.

(** The order in which the workers of one edge type get the write lock: the
    worker named next writes its next buffer; when the schedule is used up the
    remaining buffers follow worker by worker. *)
Fixpoint interleave (schedule : list nat) (ws : list (list (list Edge)))
    : list (list Edge) :=
  match schedule with
  | [] => concat ws
  | i :: schedule' =>
      match ws !! i with
      | Some (c :: cs) => c :: interleave schedule' (<[i := cs]> ws)
      | _ => interleave schedule' ws
      end
  end.

(** The loop over [block_data]: the rows of the edge file. *)
Fixpoint edge_types_loop (fuel : nat) (hardware_concurrency : Z)
    (schedules : list (list nat)) (block_data : list (string * list Record_t))
    (g : gen E) : option (outcome (list Edge)) :=
  match block_data with
  | [] => Some (Returned [])
  | (e_type, block) :: rest =>
      let (calls, g') := calls_for hardware_concurrency (Z.of_nat (length block)) g in
      match run_calls fuel block e_type calls with
      | Some (Returned ws) =>
          match edge_types_loop fuel hardware_concurrency (tail schedules) rest g' with
          | Some (Returned rows) =>
              Some (Returned (concat (interleave (default [] (head schedules)) ws) ++ rows))
          | other => other
          end
      | Some (Thrown e) => Some (Thrown e)
      | Some Undefined => Some Undefined
      | None => None
      end
  end.

(** The rows of the node file for one node record. [None]: the loop
    [for (NodeID i = start; i <= end; ++i)] does not end when [end] is the
    largest [NodeID]. *)
Definition node_rows (n : Node_Record) : option (outcome (list (Z * string))) :=
  match convert_start_of_block (startID n) with
  | Returned start =>
      match convert_end_of_block (endID n) with
      | Returned end_ =>
          if end_ <? start then Some (Returned [])
          else if end_ =? two64 - 1 then None
          else Some (Returned ((fun i => (i, node_type n)) <$> seqZ start (end_ - start + 1)))
      | Thrown e => Some (Thrown e)
      | Undefined => Some Undefined
      end
  | Thrown e => Some (Thrown e)
  | Undefined => Some Undefined
  end.

Fixpoint node_file_rows (ns : list Node_Record) : option (outcome (list (Z * string))) :=
  match ns with
  | [] => Some (Returned [])
  | n :: rest =>
      match node_rows n with
      | Some (Returned rows) =>
          match node_file_rows rest with
          | Some (Returned tl) => Some (Returned (rows ++ tl))
          | other => other
          end
      | other => other
      end
  end.

Fixpoint convert_records (es : list Edge_Record) : outcome (list (string * list Record_t)) :=
  match es with
  | [] => Returned []
  | e :: rest =>
      rs ← read_edge_block_data e;
      tl ← convert_records rest;
      Returned ((edge_type e, rs) :: tl)
  end.

(** What one run of the sampler depends on besides its arguments: whether an
    output file can be opened, the number of hardware threads, and the order
    in which the workers of each edge type write. *)
Record Environment := {
  can_open : string -> bool;
  hardware_concurrency : Z;
  schedules : list (list nat)
}.

(** [generate_graph]: the rows of the node file and of the edge file. *)
Definition generate_graph (fuel : nat) (env : Environment)
    (node_file_name edge_file_name : string) (data : m1_data) (seed : Z)
    : option (outcome (list (Z * string) * list Edge)) :=
  if negb (can_open env node_file_name)
  then Some (Thrown (Could_not_open_output_file node_file_name))
  else if negb (can_open env edge_file_name)
  then Some (Thrown (Could_not_open_output_file edge_file_name))
  else
    match node_file_rows (nodes data) with
    | Some (Returned node_file) =>
        match convert_records (edges data) with
        | Returned block_data =>
            match edge_types_loop fuel (hardware_concurrency env) (schedules env)
                    block_data (engine_seed E seed) with
            | Some (Returned edge_file) => Some (Returned (node_file, edge_file))
            | Some (Thrown e) => Some (Thrown e)
            | Some Undefined => Some Undefined
            | None => None
            end
        | Thrown e => Some (Thrown e)
        | Undefined => Some Undefined
        end
    | Some (Thrown e) => Some (Thrown e)
    | Some Undefined => Some Undefined
    | None => None
    end.

End with_engine.

Arguments rdm_gen {E} _.
Arguments buffer {E} _.
Arguments buffer_pos {E} _.
Arguments written {E} _.

(** *** The jump term, with real numbers for the floating-point values

    [std::ceil(std::log2(U) * devroye_denominator)] where
    [devroye_denominator = (1 / std::log(1 - prob)) * 0.69314718f].  For
    [prob = 1] the code computes [1 / log(0) = -0.0]; the total logarithm and
    division of the real numbers give [0] there as well. *)







(** An engine for which every jump term is one. *)
Definition constant_engine (c : Z) : Engine :=
  {| gen := unit;
     engine_seed := fun _ => tt;
     engine_next := fun g => (0, g);
     jump_term := fun _ g => (c, g) |}.

(** A small generator for the closed examples: the linear congruential step
    of [std::minstd_rand], with a jump term read off the state.  It stands in
    for [std::mt19937_64] and the floating-point evaluation of the jump; a
    block of probability one jumps by one cell, as in the code. *)
Definition minstd_step (g : Z) : Z := (48271 * g) mod 2147483647.

Definition minstd : Engine :=
  {| gen := Z;
     engine_seed := fun seed => if seed mod 2147483647 =? 0 then 1 else seed mod 2147483647;
     engine_next := fun g => (minstd_step g, minstd_step g);
     jump_term := fun prob g =>
       (if Qle_bool 1 prob then 0 else minstd_step g mod 4, minstd_step g) |}.

End Sampler.

(** ** main.cpp: the Generate instruction *)

Module Runtime.

Import Num Text M1 Sampler.

(** *** [std::filesystem::path], POSIX format, as far as [main] uses it *)

(** The text before and after the last [c] of [s]. *)
Fixpoint rsplit (c : ascii) (s : string) : option (string * string) :=
  match s with
  | EmptyString => None
  | String d r =>
      match rsplit c r with
      | Some (a, b) => Some (String d a, b)
      | None => if Ascii.eqb d c then Some (EmptyString, r) else None
      end
  end.

Fixpoint rstrip (c : ascii) (s : string) : string :=
  match s with
  | EmptyString => EmptyString
  | String d r =>
      let r' := rstrip c r in
      if is_empty r' && Ascii.eqb d c then EmptyString else String d r'
  end.

(** [p.parent_path().string()]: empty for a path without a directory
    separator, the root for a file directly under it. *)
Definition parent_path (p : string) : string :=
  match rsplit "/" p with
  | None => ""
  | Some (dir, _) => let d := rstrip "/" dir in if is_empty d then "/" else d
  end.

Definition filename (p : string) : string :=
  match rsplit "/" p with
  | None => p
  | Some (_, f) => f
  end.

(** [p.stem()] and [p.extension()]: the file name is split at its last dot,
    unless that dot is its first character or the name is [.] or [..]. *)
Definition split_extension (f : string) : string * string :=
  if String.eqb f "." || String.eqb f ".." then (f, "")
  else
    match rsplit "." f with
    | None => (f, "")
    | Some (s, e) => if is_empty s then (f, "") else (s, String "." e)
    end.

Definition stem (p : string) : string := (split_extension (filename p)).1.
Definition extension (p : string) : string := (split_extension (filename p)).2.

(** *** The instruction *)

Record Generate_Instruction := {
  nodefile_path : string;
  edge_file_path : string;
  n_to_generate : Z
}.

(** [n_file] and [e_file] of the loop over [i]. *)
Definition instance_path (p : string) (i : Z) : string :=
  parent_path p +:+ "/" +:+ stem p +:+ "_" +:+ to_string_u64 i +:+ extension p.

Section with_engine.

Variable E : Engine.

(** The calls [generate_graph(n_file, e_file, active_model, rng_seeds())] of the
    loop, from [i] on, for [count] more instances. *)
Fixpoint instances_from (count : nat) (i : Z) (g : Generate_Instruction)
    (rng_seeds : gen E) : list (string * string * Z) * gen E :=
  match count with
  | O => ([], rng_seeds)
  | S count' =>
      let (seed, rng1) := engine_next E rng_seeds in
      let (tl, rng2) := instances_from count' (i + 1) g rng1 in
      ((instance_path (nodefile_path g) i, instance_path (edge_file_path g) i, seed) :: tl,
       rng2)
  end.

(** The sampler calls of one Generate instruction with an active model: node
    file, edge file and seed of each, and the runtime's generator afterwards. *)
Definition generate_calls (g : Generate_Instruction) (rng_seeds : gen E)
    : list (string * string * Z) * gen E :=
  if n_to_generate g =? 1 then
    let (seed, rng1) := engine_next E rng_seeds in
    ([(nodefile_path g, edge_file_path g, seed)], rng1)
  else instances_from (Z.to_nat (n_to_generate g)) 0 g rng_seeds.

End with_engine.

End Runtime.

(** ** Errors of the TSV reader, the script parser and the runtime *)

(** The [std::runtime_error]s thrown outside the M1 codec and the sampler,
    named after their messages, and a throw of those two. *)
Inductive failure : Type :=
| Codec (e : exception)
| Error_opening_node_file (path : string)
| Error_opening_edge_file (path : string)
| Not_enough_columns_for_node_id (idx size : Z)
| Not_enough_columns_for_node_type (idx size : Z)
| Not_enough_columns_for_start_node_id (idx size : Z)
| Not_enough_columns_for_end_node_id (idx size : Z)
| Not_enough_columns_for_edge_type (idx size : Z)
| Unmatched_quotation_mark
| Incorrect_number_of_arguments (name : string) (want have : Z)
| Incorrect_type_of_tag (name : string)
| Unexpected_sub_instruction (token : string)
| Could_not_convert_argument (argument instruction : string)
| Unexpected_token_type (token : string)
| Execute_expects_odd_number_of_arguments
| Execute_must_be_followed_by_argument
| Scaling_factor_must_be_greater_than_0 (argument : string)
| Unknown_tag_type (tag : string)
| Could_not_open_file_for_reading (path : string)
| Model_needed_for_generation
| Model_needed_for_scaling
| Model_needed_for_saving
| Directory_does_not_exist (path : string)
| Unknown_instruction_type.

Inductive answer (A : Type) : Type :=
| Ok (a : A)
| Raise (e : failure)
| UB.
Arguments Ok {A} a.
Arguments Raise {A} e.
Arguments UB {A}.

#[export] Instance answer_ret : MRet answer := fun A a => Ok a.
#[export] Instance answer_bind : MBind answer := fun A B f x =>
  match x with
  | Ok a => f a
  | Raise e => Raise e
  | UB => UB
  end.

(** A call into the codec or the sampler. *)
Definition lift {A} (o : outcome A) : answer A :=
  match o with
  | Returned a => Ok a
  | Thrown e => Raise (Codec e)
  | Undefined => UB
  end.

(** [v[i]] on a [std::vector]: undefined out of range. *)
Definition at_index {A} (v : list A) (i : Z) : answer A :=
  if i <? 0 then UB
  else match v !! Z.to_nat i with
       | Some a => Ok a
       | None => UB
       end.

(** ** TSVReader.cpp *)

Module TSV.

Import Num Text M1 Fitter.

Definition tab : ascii := "009"%char.

(** The items [std::getline(ss, item, delimiter)] yields until it fails: the
    segments between delimiters, without a last empty one. *)
Fixpoint items_from (delimiter : ascii) (cur : string) (s : string) : list string :=
  match s with
  | EmptyString => if is_empty cur then [] else [cur]
  | String c r =>
      if Ascii.eqb c delimiter then cur :: items_from delimiter EmptyString r
      else items_from delimiter (cur +:+ String c EmptyString) r
  end.

(** [split_on_char]: the container after the call; the count returned is its
    length. *)
Definition split_on_char (s : string) (delimiter : ascii) : list string :=
  items_from delimiter EmptyString s.

Record TSVReader := {
  nodefiles : list string;
  edgefiles : list string;
  idx_node_id : Z;
  idx_node_type : list Z;
  idx_start_node_id : Z;
  idx_end_node_id : Z;
  idx_edge_type : list Z
}.

(** [*std::max_element(v.begin(), v.end())]: undefined on an empty vector. *)
Definition max_element (v : list Z) : answer Z :=
  match v with
  | [] => UB
  | x :: rest => Ok (foldl Z.max x rest)
  end.

(** [for (auto idx : indices) type.append(columns[idx] + "_");] *)
Fixpoint append_columns (columns : list string) (indices : list Z) (type : string)
    : answer string :=
  match indices with
  | [] => Ok type
  | idx :: rest =>
      c ← at_index columns idx;
      append_columns columns rest (type +:+ c +:+ "_")
  end.

(** The composite type of a row: the selected columns, each followed by an
    underscore, without the last character. *)
Definition composite_type (columns : list string) (indices : list Z) : answer string :=
  type ← append_columns columns indices "";
  Ok (if is_empty type then type else drop_last type).

(** The first line of a file, without its carriage return: empty when the
    file holds no line. *)
Definition header_of (lines : list string) : string :=
  strip_cr (default "" (head lines)).

Definition size_of {A} (v : list A) : Z := Z.of_nat (length v).

(** One turn of the loop over the data rows of a node file. *)
Definition node_row (this : TSVReader) (expected_nbr_of_columns : Z)
    (model : GenericGraphReader.t) (raw : string) : answer GenericGraphReader.t :=
  let line := strip_cr raw in
  let columns := split_on_char line tab in
  if negb (size_of columns =? expected_nbr_of_columns) then Ok model
  else
    node_id ← at_index columns (idx_node_id this);
    node_type ← composite_type columns (idx_node_type this);
    Ok (readNode model node_id node_type).

Fixpoint rows_loop {A} (row : A -> string -> answer A) (model : A) (lines : list string)
    : answer A :=
  match lines with
  | [] => Ok model
  | l :: rest => m ← row model l; rows_loop row m rest
  end.

(** The body of the loop over the node files, on the content of one file. *)
Definition read_node_file (this : TSVReader) (content : string)
    (model : GenericGraphReader.t) : answer GenericGraphReader.t :=
  let lines := getlines content in
  let columns := split_on_char (header_of lines) tab in
  if size_of columns <=? idx_node_id this
  then Raise (Not_enough_columns_for_node_id (idx_node_id this) (size_of columns))
  else
    highest_idx ← max_element (idx_node_type this);
    if size_of columns <=? highest_idx
    then Raise (Not_enough_columns_for_node_type highest_idx (size_of columns))
    else rows_loop (node_row this (size_of columns)) model (tail lines).

Definition edge_row (this : TSVReader) (expected_nbr_of_columns : Z)
    (model : GenericGraphReader.t) (raw : string) : answer GenericGraphReader.t :=
  let line := strip_cr raw in
  let columns := split_on_char line tab in
  if negb (size_of columns =? expected_nbr_of_columns) then Ok model
  else
    start_node_id ← at_index columns (idx_start_node_id this);
    end_node_id ← at_index columns (idx_end_node_id this);
    edge_type ← composite_type columns (idx_edge_type this);
    Ok (readEdge model start_node_id end_node_id edge_type).

Definition read_edge_file (this : TSVReader) (content : string)
    (model : GenericGraphReader.t) : answer GenericGraphReader.t :=
  let lines := getlines content in
  let columns := split_on_char (header_of lines) tab in
  if size_of columns <=? idx_start_node_id this
  then Raise (Not_enough_columns_for_start_node_id (idx_start_node_id this) (size_of columns))
  else if size_of columns <=? idx_end_node_id this
  then Raise (Not_enough_columns_for_end_node_id (idx_end_node_id this) (size_of columns))
  else
    highest_idx ← max_element (idx_edge_type this);
    if size_of columns <=? highest_idx
    then Raise (Not_enough_columns_for_edge_type highest_idx (size_of columns))
    else rows_loop (edge_row this (size_of columns)) model (tail lines).

(** The loops over the node files and the edge files; [files] gives the
    content of the files that can be opened. *)
Fixpoint read_files (read : string -> GenericGraphReader.t -> answer GenericGraphReader.t)
    (cannot_open : string -> failure) (files : string -> option string)
    (names : list string) (model : GenericGraphReader.t) : answer GenericGraphReader.t :=
  match names with
  | [] => Ok model
  | filename :: rest =>
      match files filename with
      | None => Raise (cannot_open filename)
      | Some content =>
          m ← read content model;
          read_files read cannot_open files rest m
      end
  end.

Definition ingest (this : TSVReader) (files : string -> option string)
    (model : GenericGraphReader.t) : answer GenericGraphReader.t :=
  m ← read_files (read_node_file this) Error_opening_node_file files (nodefiles this) model;
  read_files (read_edge_file this) Error_opening_edge_file files (edgefiles this) m.

(** [readTo]: all node files, then all edge files, then [process]. *)
Definition readTo (Sh : Shuffler) (this : TSVReader) (files : string -> option string)
    (model : GenericGraphReader.t) (meta_data : gmap string string) (seed : Z)
    : answer m1_data :=
  m ← ingest this files model;
  Ok (Fitter.model (process Sh m meta_data seed)).

End TSV.

(** ** s1ScriptFormat.cpp *)

Module Script.

Import Num Text Runtime.

Record Read_Instruction := {
  node_files : list string;
  edge_files : list string;
  node_name_index : Z;
  node_type_indices : list Z;
  start_node_index : Z;
  end_node_index : Z;
  edge_type_indices : list Z;
  data : gmap string string
}.

Record Execute_Instruction := {
  scriptfile_path : string;
  replace_templates : list (string * string)
}.

Inductive Instruction_Type :=
| IRead | IExecute | IGenerate | ILoad | IScale | ISave | ISeed | IHelp | IInfo.

Record Instruction := {
  type : Instruction_Type;
  s_val : string;
  f_val : Q;
  read : Read_Instruction;
  generate : Generate_Instruction;
  execute : Execute_Instruction
}.

Inductive Token_Type := TTag | TSubtag | TArgument.

Inductive Escape_Mode := Escape_Inactive | Escape_Active.

Inductive Reader_Mode := ReadDefault | ReadToken.

Definition token : Type := Token_Type * string.

(** The value-initialized structs, [T x = {}]. *)
Definition Read_Instruction_new : Read_Instruction :=
  {| node_files := []; edge_files := []; node_name_index := 0; node_type_indices := [];
     start_node_index := 0; end_node_index := 0; edge_type_indices := []; data := ∅ |}.

Definition Generate_Instruction_new : Generate_Instruction :=
  {| nodefile_path := ""; edge_file_path := ""; n_to_generate := 0 |}.

Definition Execute_Instruction_new : Execute_Instruction :=
  {| scriptfile_path := ""; replace_templates := [] |}.

Definition Instruction_new : Instruction :=
  {| type := IRead; s_val := ""; f_val := 0; read := Read_Instruction_new;
     generate := Generate_Instruction_new; execute := Execute_Instruction_new |}.

(** *** [inplace_replaceAll]

    Positions and lengths are natural numbers: a string is shorter than
    [2^64] characters. *)

Fixpoint sdrop (n : nat) (s : string) : string :=
  match n, s with
  | S n', String _ r => sdrop n' r
  | _, _ => s
  end.

Fixpoint stake (n : nat) (s : string) : string :=
  match n, s with
  | S n', String c r => String c (stake n' r)
  | _, _ => EmptyString
  end.

(** The first position from [i] on at which [search] starts in [s], where
    [s] is the text from position [i] on. *)
Fixpoint find_at (search s : string) (i : nat) : option nat :=
  if String.prefix search s then Some i
  else match s with
       | EmptyString => None
       | String _ r => find_at search r (S i)
       end.

(** [target.find(search, pos)]; [None] is [npos]. *)
Definition find (search target : string) (pos : nat) : option nat :=
  if (String.length target <? pos)%nat then None
  else find_at search (sdrop pos target) pos.

(** [target.replace(pos, len, replace)] for a position inside the string. *)
Definition replace_at (target : string) (pos len : nat) (replace : string) : string :=
  stake pos target +:+ replace +:+ sdrop (pos + len) target.

(** The [while] loop; [None]: it is still running after [fuel] turns. *)
Fixpoint replace_loop (fuel : nat) (search_str replace_str target_str : string)
    (last_pos : nat) : option string :=
  match fuel with
  | O => None
  | S fuel' =>
      match find search_str target_str last_pos with
      | Some pos =>
          if (last_pos <? String.length target_str)%nat
          then replace_loop fuel' search_str replace_str
                 (replace_at target_str pos (String.length search_str) replace_str)
                 (pos + String.length replace_str)
          else Some target_str
      | None => Some target_str
      end
  end.

Definition inplace_replaceAll (fuel : nat) (search_str replace_str target_str : string)
    : option string :=
  replace_loop fuel search_str replace_str target_str 0.

(** *** [s1_check_parse_valid] *)

Definition Token_Type_eqb (a b : Token_Type) : bool :=
  match a, b with
  | TTag, TTag | TSubtag, TSubtag | TArgument, TArgument => true
  | _, _ => false
  end.

Definition s1_check_parse_valid (is_arg_count want_arg_count : Z)
    (is_t_type want_t_type : Token_Type) (name : string) : answer unit :=
  if negb (is_arg_count =? want_arg_count)
  then Raise (Incorrect_number_of_arguments name want_arg_count is_arg_count)
  else if negb (Token_Type_eqb is_t_type want_t_type)
  then Raise (Incorrect_type_of_tag name)
  else Ok tt.

(** *** [tokenize_s1] *)

Fixpoint apply_replaces (fuel : nat) (replaces : list (string * string)) (input : string)
    : option string :=
  match replaces with
  | [] => Some input
  | (s_template, s_replace) :: rest =>
      match inplace_replaceAll fuel s_template s_replace input with
      | Some input' => apply_replaces fuel rest input'
      | None => None
      end
  end.

(** The local variables of the loop over the characters. *)
Record lexer := {
  e_mode : Escape_Mode;
  r_mode : Reader_Mode;
  raw_tokens : list string;
  buffer : string
}.

Definition lexer_init : lexer :=
  {| e_mode := Escape_Inactive; r_mode := ReadDefault; raw_tokens := []; buffer := "" |}.

Definition quote : ascii := "034"%char.

Definition is_blank (i : ascii) : bool :=
  Ascii.eqb i " " || Ascii.eqb i nl || Ascii.eqb i cr || Ascii.eqb i "009".

Definition push_back (s : string) (i : ascii) : string := s +:+ String i EmptyString.

(** One turn of the loop over the characters of the input. *)
Definition lex_char (st : lexer) (i : ascii) : lexer :=
  match e_mode st with
  | Escape_Active =>
      if Ascii.eqb i quote
      then {| e_mode := Escape_Inactive; r_mode := r_mode st;
              raw_tokens := raw_tokens st; buffer := buffer st |}
      else {| e_mode := e_mode st; r_mode := r_mode st;
              raw_tokens := raw_tokens st; buffer := push_back (buffer st) i |}
  | Escape_Inactive =>
      match r_mode st with
      | ReadDefault =>
          if Ascii.eqb i quote
          then {| e_mode := Escape_Active; r_mode := ReadToken;
                  raw_tokens := raw_tokens st; buffer := buffer st |}
          else if is_blank i then st
          else {| e_mode := e_mode st; r_mode := ReadToken;
                  raw_tokens := raw_tokens st; buffer := push_back (buffer st) i |}
      | ReadToken =>
          if is_blank i
          then {| e_mode := e_mode st; r_mode := ReadDefault;
                  raw_tokens := raw_tokens st ++ [buffer st]; buffer := "" |}
          else {| e_mode := e_mode st; r_mode := r_mode st;
                  raw_tokens := raw_tokens st; buffer := push_back (buffer st) i |}
      end
  end.

Fixpoint lex (st : lexer) (input : string) : lexer :=
  match input with
  | EmptyString => st
  | String i rest => lex (lex_char st i) rest
  end.

(** [::toupper] in the C locale: the letters [a] to [z]; every other
    character, the bytes above 127 among them, is left as it is. *)
Definition toupper (c : ascii) : ascii :=
  let n := N_of_ascii c in
  if ((97 <=? n) && (n <=? 122))%N then ascii_of_N (n - 32) else c.

Fixpoint to_upper (s : string) : string :=
  match s with
  | EmptyString => EmptyString
  | String c r => String (toupper c) (to_upper r)
  end.

(** The specifier of a raw token. *)
Definition classify (raw : string) : token :=
  if starts_with "-" raw then (TTag, to_upper raw)
  else if starts_with "+" raw then (TSubtag, to_upper raw)
  else (TArgument, raw).

(** What follows the loop: the unmatched quotation mark, the last token and
    the specifiers. *)
Definition finish_lex (st : lexer) : answer (list token) :=
  match e_mode st with
  | Escape_Active => Raise Unmatched_quotation_mark
  | Escape_Inactive =>
      let raw := if is_empty (buffer st) then raw_tokens st
                 else raw_tokens st ++ [buffer st] in
      Ok (classify <$> raw)
  end.

(** [tokenize_s1]; [None]: a replacement is still running after [fuel]
    turns. *)
Definition tokenize_s1 (fuel : nat) (input : string) (replaces : list (string * string))
    : option (answer (list token)) :=
  match apply_replaces fuel replaces input with
  | Some input' => Some (finish_lex (lex lexer_init input'))
  | None => None
  end.

(** *** [parse_s1_file] *)

(** [std::stoul]: white space, an optional sign, decimal digits; what
    follows is ignored.  [None] is the exception thrown when there is no
    digit or the value is no [unsigned long]; a value with a minus sign is
    negated modulo [2^64]. *)
Definition stoul (s : string) : option Z :=
  let s1 := skip_space s in
  let (neg, s2) := read_sign s1 in
  let '(v, cnt, _) := read_digits s2 0 0 in
  match cnt with
  | O => None
  | S _ => if two64 <=? v then None else Some (if neg then wrap64 (- v) else v)
  end.

(** [tokens[i].first + "@" + tokens[i].second] in the messages: the
    specifier is added to the address of the literal ["@"], which holds two
    characters, and the text is read from there.  For [TArgument] it is read
    from behind the literal. *)
Definition token_text (t : token) : answer string :=
  match t.1 with
  | TTag => Ok ("@" +:+ t.2)
  | TSubtag => Ok t.2
  | TArgument => UB
  end.

Definition is_tag (t : token) : bool := Token_Type_eqb t.1 TTag.

Definition is_tag_or_subtag (t : token) : bool :=
  Token_Type_eqb t.1 TTag || Token_Type_eqb t.1 TSubtag.

(** [while (idx < tokens.size() && !stop(tokens[idx])) ++idx;] where [rest]
    holds the tokens from [idx] on. *)
Fixpoint scan (stop : token -> bool) (rest : list token) (idx : Z) : Z :=
  match rest with
  | [] => idx
  | t :: rest' => if stop t then idx else scan stop rest' (idx + 1)
  end.

Definition scan_from (stop : token -> bool) (tokens : list token) (idx : Z) : Z :=
  scan stop (drop (Z.to_nat idx) tokens) idx.

(** [for (arg_idx = first; arg_idx <= last; ++arg_idx)] over file paths. *)
Fixpoint path_arguments (turns : nat) (tokens : list token) (arg_idx : Z)
    (paths : list string) : answer (list string) :=
  match turns with
  | O => Ok paths
  | S turns' =>
      t ← at_index tokens arg_idx;
      match t.1 with
      | TArgument => path_arguments turns' tokens (arg_idx + 1) (paths ++ [t.2])
      | _ => m ← token_text t; Raise (Unexpected_sub_instruction m)
      end
  end.

(** The same loop over column indices: the first argument replaces the
    default list, the later ones extend it. *)
Fixpoint index_arguments (turns : nat) (tokens : list token) (arg_idx : Z)
    (instruction : string) (indices : list Z) (overwritten_default : bool)
    : answer (list Z * bool) :=
  match turns with
  | O => Ok (indices, overwritten_default)
  | S turns' =>
      t ← at_index tokens arg_idx;
      match t.1 with
      | TArgument =>
          match stoul t.2 with
          | Some idx =>
              index_arguments turns' tokens (arg_idx + 1) instruction
                ((if overwritten_default then indices else []) ++ [idx]) true
          | None => Raise (Could_not_convert_argument t.2 instruction)
          end
      | _ => m ← token_text t; Raise (Unexpected_sub_instruction m)
      end
  end.

(** The state of the loop over the sub-instructions of [-READ]. *)
Record read_state := {
  i : Read_Instruction;
  overwritten_default_node_type_index : bool;
  overwritten_default_edge_type_index : bool
}.

Definition read_state_init : read_state :=
  {| i := {| node_files := []; edge_files := []; node_name_index := 0;
             node_type_indices := [1]; start_node_index := 0; end_node_index := 1;
             edge_type_indices := [2]; data := ∅ |};
     overwritten_default_node_type_index := false;
     overwritten_default_edge_type_index := false |}.

Definition with_i (st : read_state) (r : Read_Instruction) : read_state :=
  {| i := r;
     overwritten_default_node_type_index := overwritten_default_node_type_index st;
     overwritten_default_edge_type_index := overwritten_default_edge_type_index st |}.

(** One sub-instruction, from [current_idx_sub_instruction] to
    [idx_end_of_sub_instruction]. *)
Definition sub_instruction (tokens : list token)
    (current_idx_sub_instruction idx_end_of_sub_instruction : Z) (st : read_state)
    : answer read_state :=
  let r := i st in
  let count := idx_end_of_sub_instruction - current_idx_sub_instruction in
  t ← at_index tokens current_idx_sub_instruction;
  if String.eqb t.2 "+NODEFILE" then
    paths ← path_arguments (Z.to_nat count) tokens (current_idx_sub_instruction + 1)
              (node_files r);
    Ok (with_i st
          {| node_files := paths; edge_files := edge_files r;
             node_name_index := node_name_index r;
             node_type_indices := node_type_indices r;
             start_node_index := start_node_index r; end_node_index := end_node_index r;
             edge_type_indices := edge_type_indices r; data := data r |})
  else if String.eqb t.2 "+EDGEFILE" then
    paths ← path_arguments (Z.to_nat count) tokens (current_idx_sub_instruction + 1)
              (edge_files r);
    Ok (with_i st
          {| node_files := node_files r; edge_files := paths;
             node_name_index := node_name_index r;
             node_type_indices := node_type_indices r;
             start_node_index := start_node_index r; end_node_index := end_node_index r;
             edge_type_indices := edge_type_indices r; data := data r |})
  else if String.eqb t.2 "+NODEINDEX" then
    a ← at_index tokens (current_idx_sub_instruction + 1);
    _ ← s1_check_parse_valid count 1 a.1 TArgument "+NODEINDEX";
    match stoul a.2 with
    | None => Raise (Could_not_convert_argument a.2 "NODEINDEX")
    | Some idx =>
        Ok (with_i st
              {| node_files := node_files r; edge_files := edge_files r;
                 node_name_index := idx;
                 node_type_indices := node_type_indices r;
                 start_node_index := start_node_index r;
                 end_node_index := end_node_index r;
                 edge_type_indices := edge_type_indices r; data := data r |})
    end
  else if String.eqb t.2 "+NODETYPEINDEX" then
    res ← index_arguments (Z.to_nat count) tokens (current_idx_sub_instruction + 1)
            "NODETYPEINDEX" (node_type_indices r) (overwritten_default_node_type_index st);
    Ok {| i := {| node_files := node_files r; edge_files := edge_files r;
                  node_name_index := node_name_index r;
                  node_type_indices := res.1;
                  start_node_index := start_node_index r;
                  end_node_index := end_node_index r;
                  edge_type_indices := edge_type_indices r; data := data r |};
          overwritten_default_node_type_index := res.2;
          overwritten_default_edge_type_index := overwritten_default_edge_type_index st |}
  else if String.eqb t.2 "+EDGEINDEX" then
    a ← at_index tokens (current_idx_sub_instruction + 1);
    _ ← s1_check_parse_valid count 2 a.1 TArgument "+EDGEINDEX";
    b ← at_index tokens (current_idx_sub_instruction + 2);
    _ ← s1_check_parse_valid count 2 b.1 TArgument "+EDGEINDEX";
    match stoul a.2 with
    | None => Raise (Could_not_convert_argument a.2 "EDGEINDEX")
    | Some idx_s =>
        match stoul b.2 with
        | None => Raise (Could_not_convert_argument b.2 "EDGEINDEX")
        | Some idx_e =>
            Ok (with_i st
                  {| node_files := node_files r; edge_files := edge_files r;
                     node_name_index := node_name_index r;
                     node_type_indices := node_type_indices r;
                     start_node_index := idx_s; end_node_index := idx_e;
                     edge_type_indices := edge_type_indices r; data := data r |})
        end
    end
  else if String.eqb t.2 "+EDGETYPEINDEX" then
    res ← index_arguments (Z.to_nat count) tokens (current_idx_sub_instruction + 1)
            "EDGETYPEINDEX" (edge_type_indices r) (overwritten_default_edge_type_index st);
    Ok {| i := {| node_files := node_files r; edge_files := edge_files r;
                  node_name_index := node_name_index r;
                  node_type_indices := node_type_indices r;
                  start_node_index := start_node_index r;
                  end_node_index := end_node_index r;
                  edge_type_indices := res.1; data := data r |};
          overwritten_default_node_type_index := overwritten_default_node_type_index st;
          overwritten_default_edge_type_index := res.2 |}
  else if String.eqb t.2 "+ARG" then
    a ← at_index tokens (current_idx_sub_instruction + 1);
    _ ← s1_check_parse_valid count 2 a.1 TArgument "+ARG";
    b ← at_index tokens (current_idx_sub_instruction + 2);
    _ ← s1_check_parse_valid count 2 b.1 TArgument "+ARG";
    Ok (with_i st
          {| node_files := node_files r; edge_files := edge_files r;
             node_name_index := node_name_index r;
             node_type_indices := node_type_indices r;
             start_node_index := start_node_index r; end_node_index := end_node_index r;
             edge_type_indices := edge_type_indices r;
             data := <[to_upper a.2 := b.2]> (data r) |})
  else
    m ← token_text t; Raise (Unexpected_token_type m).

(** The loop over the sub-instructions; [None]: it is still running after
    [fuel] turns. *)
Fixpoint sub_instructions (fuel : nat) (tokens : list token)
    (current_idx_sub_instruction idx_end_of_instruction : Z) (st : read_state)
    : option (answer read_state) :=
  if idx_end_of_instruction <? current_idx_sub_instruction then Some (Ok st)
  else
    match fuel with
    | O => None
    | S fuel' =>
        let idx_end_of_sub_instruction :=
          scan_from is_tag_or_subtag tokens (current_idx_sub_instruction + 1) - 1 in
        match sub_instruction tokens current_idx_sub_instruction
                idx_end_of_sub_instruction st with
        | Ok st' =>
            sub_instructions fuel' tokens (idx_end_of_sub_instruction + 1)
              idx_end_of_instruction st'
        | Raise e => Some (Raise e)
        | UB => Some UB
        end
    end.

(** The pairs of [-EXECUTE], [for (arg_idx = first; arg_idx <= last; arg_idx += 2)]. *)
Fixpoint template_arguments (turns : nat) (tokens : list token) (arg_idx : Z)
    (pairs : list (string * string)) : answer (list (string * string)) :=
  match turns with
  | O => Ok pairs
  | S turns' =>
      a ← at_index tokens arg_idx;
      if Token_Type_eqb a.1 TArgument then
        b ← at_index tokens (arg_idx + 1);
        if Token_Type_eqb b.1 TArgument
        then template_arguments turns' tokens (arg_idx + 2) (pairs ++ [(a.2, b.2)])
        else m ← token_text a; Raise (Unexpected_sub_instruction m)
      else m ← token_text a; Raise (Unexpected_sub_instruction m)
  end.

Definition with_type (t : Instruction_Type) : Instruction :=
  {| type := t; s_val := ""; f_val := 0; read := Read_Instruction_new;
     generate := Generate_Instruction_new; execute := Execute_Instruction_new |}.

Definition with_s_val (t : Instruction_Type) (s : string) : Instruction :=
  {| type := t; s_val := s; f_val := 0; read := Read_Instruction_new;
     generate := Generate_Instruction_new; execute := Execute_Instruction_new |}.

(** The instruction of the tag at [current_idx], whose arguments end at
    [idx_end_of_instruction]; [None]: the loop over the sub-instructions is
    still running after [fuel] turns. *)
Definition instruction_at (fuel : nat) (tokens : list token)
    (current_idx idx_end_of_instruction : Z) (tag : string)
    : option (answer Instruction) :=
  let count := idx_end_of_instruction - current_idx in
  if String.eqb tag "-READ" then
    match sub_instructions fuel tokens (current_idx + 1) idx_end_of_instruction
            read_state_init with
    | Some (Ok st) =>
        Some (Ok {| type := IRead; s_val := ""; f_val := 0; read := i st;
                    generate := Generate_Instruction_new;
                    execute := Execute_Instruction_new |})
    | Some (Raise e) => Some (Raise e)
    | Some UB => Some UB
    | None => None
    end
  else if String.eqb tag "-EXECUTE" then
    Some (if (count <? 1) || negb (count mod 2 =? 1)
          then Raise Execute_expects_odd_number_of_arguments
          else
            a ← at_index tokens (current_idx + 1);
            if negb (Token_Type_eqb a.1 TArgument)
            then Raise Execute_must_be_followed_by_argument
            else
              pairs ← template_arguments (Z.to_nat (count / 2)) tokens (current_idx + 2) [];
              Ok {| type := IExecute; s_val := ""; f_val := 0;
                    read := Read_Instruction_new; generate := Generate_Instruction_new;
                    execute := {| scriptfile_path := a.2; replace_templates := pairs |} |})
  else if String.eqb tag "-LOAD" then
    Some (a ← at_index tokens idx_end_of_instruction;
          _ ← s1_check_parse_valid count 1 a.1 TArgument "LOAD";
          Ok (with_s_val ILoad a.2))
  else if String.eqb tag "-SAVE" then
    Some (a ← at_index tokens idx_end_of_instruction;
          _ ← s1_check_parse_valid count 1 a.1 TArgument "SAVE";
          Ok (with_s_val ISave a.2))
  else if String.eqb tag "-SCALE" then
    Some (a ← at_index tokens (current_idx + 1);
          _ ← s1_check_parse_valid count 1 a.1 TArgument "SCALE";
          match stof a.2 with
          | None => Raise (Could_not_convert_argument a.2 "SCALE")
          | Some scaling_factor =>
              if Qle_bool scaling_factor 0
              then Raise (Scaling_factor_must_be_greater_than_0 a.2)
              else Ok {| type := IScale; s_val := ""; f_val := scaling_factor;
                         read := Read_Instruction_new;
                         generate := Generate_Instruction_new;
                         execute := Execute_Instruction_new |}
          end)
  else if String.eqb tag "-SEED" then
    Some (a ← at_index tokens idx_end_of_instruction;
          _ ← s1_check_parse_valid count 1 a.1 TArgument "LOAD";
          Ok (with_s_val ISeed a.2))
  else if String.eqb tag "-GENERATE" then
    Some (a ← at_index tokens (current_idx + 1);
          _ ← s1_check_parse_valid count 3 a.1 TArgument "GENERATE";
          b ← at_index tokens (current_idx + 2);
          _ ← s1_check_parse_valid 3 3 b.1 TArgument "GENERATE";
          c ← at_index tokens (current_idx + 3);
          _ ← s1_check_parse_valid 3 3 c.1 TArgument "GENERATE";
          match stoul c.2 with
          | None => Raise (Could_not_convert_argument c.2 "GENERATE")
          | Some n =>
              Ok {| type := IGenerate; s_val := ""; f_val := 0;
                    read := Read_Instruction_new;
                    generate := {| nodefile_path := a.2; edge_file_path := b.2;
                                   n_to_generate := n |};
                    execute := Execute_Instruction_new |}
          end)
  else if String.eqb tag "-HELP" then Some (Ok (with_type IHelp))
  else Some (Raise (Unknown_tag_type tag)).

(** The loop over the tags; [None]: it is still running after [fuel]
    turns. *)
Fixpoint parse_loop (fuel : nat) (tokens : list token) (current_idx : Z)
    (instructions : list Instruction) : option (answer (list Instruction)) :=
  if Z.of_nat (length tokens) <=? current_idx then Some (Ok instructions)
  else
    match fuel with
    | O => None
    | S fuel' =>
        match at_index tokens current_idx with
        | Ok t =>
            if is_tag t then
              let idx_end_of_instruction := scan_from is_tag tokens (current_idx + 1) - 1 in
              match instruction_at fuel' tokens current_idx idx_end_of_instruction t.2 with
              | Some (Ok instr) =>
                  parse_loop fuel' tokens (idx_end_of_instruction + 1)
                    (instructions ++ [instr])
              | Some (Raise e) => Some (Raise e)
              | Some UB => Some UB
              | None => None
              end
            else
              Some (m ← token_text t; Raise (Unexpected_token_type m))
        | Raise e => Some (Raise e)
        | UB => Some UB
        end
    end.

(** [parse_s1_file]: every turn of a loop moves past a token, so as many
    turns as there are tokens are enough. *)
Definition parse_s1_file (tokens : list token) : option (answer (list Instruction)) :=
  parse_loop (length tokens) tokens 0 [].

End Script.

(** ** main.cpp: the command line and the loop over the instructions *)

Module Program.

Import Num Text M1 Fitter Sampler Runtime TSV Script.

(** [arg[0]]: the terminating zero for an empty argument. *)
Definition first_char (arg : string) : ascii :=
  match arg with
  | String c _ => c
  | EmptyString => zero
  end.

(** The loop over [args_raw] from the second argument on. *)
Fixpoint append_arguments (starting_script : string) (args : list string) : string :=
  match args with
  | [] => starting_script
  | arg :: rest =>
      append_arguments
        (if Ascii.eqb (first_char arg) "-" || Ascii.eqb (first_char arg) "+"
         then starting_script +:+ String " " arg
         else starting_script +:+ (String " " (String quote arg) +:+ String quote EmptyString))
        rest
  end.

(** [starting_script]; [None] without arguments, where [main] returns [-1]. *)
Definition starting_script (args_raw : list string) : option string :=
  match args_raw with
  | [] => None
  | first :: rest => Some (append_arguments first rest)
  end.

(** What a run leaves behind: the model files and the graphs it has written. *)
Inductive output :=
| Model_file (path text : string)
| Graph_files (node_file_name edge_file_name : string)
    (node_file : list (Z * string)) (edge_file : list Edge).

(** What a run meets outside the program, at the instruction with a given
    counter: the content of a file opened for reading ([None]: it cannot be
    opened), whether a directory exists, whether a file can be opened for
    writing, and the environment of the sampler at its [i]-th call. *)
Record System := {
  file : Z -> string -> option string;
  directory_exists : Z -> string -> bool;
  can_create : Z -> string -> bool;
  sampler : Z -> Z -> Environment
}.

(** The checks of [write_m1_file] before the first line is written. *)
Definition save (sys : System) (counter : Z) (file_name : string) (data : m1_data)
    : answer string :=
  if negb (is_empty (parent_path file_name))
       && negb (directory_exists sys counter (parent_path file_name))
  then Raise (Directory_does_not_exist (parent_path file_name))
  else if negb (can_create sys counter file_name)
  then Raise (Directory_does_not_exist file_name)
  else lift (write_m1_file data).

(** [if (!active_model.meta.values.contains("SCALE")) active_model.meta.values["SCALE"] = "1.0";] *)
Definition with_default_scale (data : m1_data) : m1_data :=
  match values (meta data) !! "SCALE" with
  | Some _ => data
  | None =>
      {| meta := {| name := name (meta data);
                    values := <["SCALE" := "1.0"]> (values (meta data)) |};
         nodes := nodes data; edges := edges data |}
  end.

Section with_engine.

Variable E : Engine.
Variable Sh : Shuffler.

(** [rng_seeds.seed(rng)] for the [std::seed_seq] of the characters of a
    string. *)
Variable seed_seq : string -> gen E.

(** The local variables of [main]. *)
Record main_state := {
  instructions : list Instruction;
  instruction_counter : Z;
  script_counter : Z;
  generation_counter : Z;
  active_model : m1_data;
  has_active_model : bool;
  rng_seeds : gen E;
  written : list output
}.

Definition main_init (instructions : list Instruction) (rng_seeds : gen E) : main_state :=
  {| instructions := instructions; instruction_counter := 0; script_counter := 0;
     generation_counter := 0; active_model := empty_m1; has_active_model := false;
     rng_seeds := rng_seeds; written := [] |}.

(** The calls of [generate_graph] of one Generate instruction, from the
    [i]-th on. *)
Fixpoint run_generate_calls (fuel : nat) (sys : System) (counter i : Z)
    (calls : list (string * string * Z)) (data : m1_data) (generation_counter : Z)
    (written : list output) : option (answer (Z * list output)) :=
  match calls with
  | [] => Some (Ok (generation_counter, written))
  | (n_file, e_file, seed) :: rest =>
      match generate_graph E fuel (sampler sys counter i) n_file e_file data seed with
      | Some (Returned (node_file, edge_file)) =>
          run_generate_calls fuel sys counter (i + 1) rest data (incr generation_counter)
            (written ++ [Graph_files n_file e_file node_file edge_file])
      | Some (Thrown e) => Some (Raise (Codec e))
      | Some Undefined => Some UB
      | None => None
      end
  end.

(** One case of the [switch]: the variables before [++instruction_counter];
    [None]: a loop of the instruction is still running after [fuel] turns. *)
Definition execute_instruction (fuel : nat) (sys : System) (m : main_state)
    (current_instruction : Instruction) : option (answer main_state) :=
  let counter := instruction_counter m in
  match type current_instruction with
  | IRead =>
      let r := read current_instruction in
      let tsv_reader :=
        {| nodefiles := node_files r; edgefiles := edge_files r;
           idx_node_id := node_name_index r; idx_node_type := node_type_indices r;
           idx_start_node_id := start_node_index r; idx_end_node_id := end_node_index r;
           idx_edge_type := edge_type_indices r |} in
      let (seed, rng) := engine_next E (rng_seeds m) in
      Some (model ← readTo Sh tsv_reader (file sys counter) GenericGraphReader.new
                      (data r) seed;
            Ok {| instructions := instructions m; instruction_counter := counter;
                  script_counter := script_counter m;
                  generation_counter := generation_counter m;
                  active_model := model; has_active_model := true;
                  rng_seeds := rng; written := written m |})
  | IExecute =>
      let e := execute current_instruction in
      match file sys counter (scriptfile_path e) with
      | None => Some (Raise (Could_not_open_file_for_reading (scriptfile_path e)))
      | Some text =>
          match tokenize_s1 fuel text (replace_templates e) with
          | Some (Ok new_tokens) =>
              match parse_s1_file new_tokens with
              | Some (Ok new_instructions) =>
                  Some (Ok {| instructions :=
                                take (Z.to_nat (counter + 1)) (instructions m)
                                  ++ new_instructions
                                  ++ drop (Z.to_nat (counter + 1)) (instructions m);
                              instruction_counter := counter;
                              script_counter := incr (script_counter m);
                              generation_counter := generation_counter m;
                              active_model := active_model m;
                              has_active_model := has_active_model m;
                              rng_seeds := rng_seeds m; written := written m |})
              | Some (Raise e) => Some (Raise e)
              | Some UB => Some UB
              | None => None
              end
          | Some (Raise e) => Some (Raise e)
          | Some UB => Some UB
          | None => None
          end
      end
  | IGenerate =>
      if negb (has_active_model m) then Some (Raise Model_needed_for_generation)
      else
        let model := with_default_scale (active_model m) in
        let (calls, rng) := generate_calls E (generate current_instruction) (rng_seeds m) in
        match run_generate_calls fuel sys counter 0 calls model (generation_counter m)
                (written m) with
        | Some (Ok (generated, files)) =>
            Some (Ok {| instructions := instructions m; instruction_counter := counter;
                        script_counter := script_counter m;
                        generation_counter := generated;
                        active_model := model; has_active_model := has_active_model m;
                        rng_seeds := rng; written := files |})
        | Some (Raise e) => Some (Raise e)
        | Some UB => Some UB
        | None => None
        end
  | IScale =>
      if negb (has_active_model m) then Some (Raise Model_needed_for_scaling)
      else
        Some (model ← lift (scale_m1_data (active_model m) (f_val current_instruction));
              Ok {| instructions := instructions m; instruction_counter := counter;
                    script_counter := script_counter m;
                    generation_counter := generation_counter m;
                    active_model := model; has_active_model := has_active_model m;
                    rng_seeds := rng_seeds m; written := written m |})
  | ISave =>
      if negb (has_active_model m) then Some (Raise Model_needed_for_saving)
      else
        Some (text ← save sys counter (s_val current_instruction) (active_model m);
              Ok {| instructions := instructions m; instruction_counter := counter;
                    script_counter := script_counter m;
                    generation_counter := generation_counter m;
                    active_model := active_model m;
                    has_active_model := has_active_model m;
                    rng_seeds := rng_seeds m;
                    written := written m
                                 ++ [Model_file (s_val current_instruction) text] |})
  | ILoad =>
      Some (model ← lift (read_m1_file (file sys counter (s_val current_instruction)));
            Ok {| instructions := instructions m; instruction_counter := counter;
                  script_counter := script_counter m;
                  generation_counter := generation_counter m;
                  active_model := model; has_active_model := has_active_model m;
                  rng_seeds := rng_seeds m; written := written m |})
  | ISeed =>
      Some (Ok {| instructions := instructions m; instruction_counter := counter;
                  script_counter := script_counter m;
                  generation_counter := generation_counter m;
                  active_model := active_model m;
                  has_active_model := has_active_model m;
                  rng_seeds := seed_seq (s_val current_instruction);
                  written := written m |})
  | IHelp => Some (Ok m)
  | IInfo => Some (Raise Unknown_instruction_type)
  end.

(** [++instruction_counter;]: the counter stays below the size of the
    vector of instructions. *)
Definition next_instruction (m : main_state) : main_state :=
  {| instructions := instructions m; instruction_counter := instruction_counter m + 1;
     script_counter := script_counter m; generation_counter := generation_counter m;
     active_model := active_model m; has_active_model := has_active_model m;
     rng_seeds := rng_seeds m; written := written m |}.

(** The [while] loop over the instructions; [None]: it is still running
    after [fuel] turns. *)
Fixpoint run (fuel : nat) (sys : System) (m : main_state) : option (answer main_state) :=
  if size_of (instructions m) <=? instruction_counter m then Some (Ok m)
  else
    match fuel with
    | O => None
    | S fuel' =>
        match at_index (instructions m) (instruction_counter m) with
        | Ok current_instruction =>
            match execute_instruction fuel' sys m current_instruction with
            | Some (Ok m') => run fuel' sys (next_instruction m')
            | Some (Raise e) => Some (Raise e)
            | Some UB => Some UB
            | None => None
            end
        | Raise e => Some (Raise e)
        | UB => Some UB
        end
    end.

(** The result of [main]: the early return without arguments, or the end of
    the loop. *)
Inductive exit :=
| No_instructions_passed
| Finished (m : main_state).

(** [main], with the generator [rng_seeds] as seeded from
    [std::random_device]. *)
Definition main (fuel : nat) (sys : System) (rng_seeds : gen E) (args_raw : list string)
    : option (answer exit) :=
  match starting_script args_raw with
  | None => Some (Ok No_instructions_passed)
  | Some script =>
      match tokenize_s1 fuel script [] with
      | Some (Ok tokens) =>
          match parse_s1_file tokens with
          | Some (Ok instructions) =>
              match run fuel sys (main_init instructions rng_seeds) with
              | Some (Ok m) => Some (Ok (Finished m))
              | Some (Raise e) => Some (Raise e)
              | Some UB => Some UB
              | None => None
              end
          | Some (Raise e) => Some (Raise e)
          | Some UB => Some UB
          | None => None
          end
      | Some (Raise e) => Some (Raise e)
      | Some UB => Some UB
      | None => None
      end
  end.

End with_engine.

Arguments instructions {E} _.
Arguments instruction_counter {E} _.
Arguments script_counter {E} _.
Arguments generation_counter {E} _.
Arguments active_model {E} _.
Arguments has_active_model {E} _.
Arguments rng_seeds {E} _.
Arguments written {E} _.
Arguments next_instruction {E} _.
Arguments Finished {E} _.
Arguments No_instructions_passed {E}.

End Program.

(** ** Vocabulary of the statements and the models of the examples *)

Module Statements.

Import Num Text Fitter M1 Sampler.





(** A range is inside a vector of [size] blocks when it is empty or ends
    before [size]. *)
Definition range_in_bounds (size : Z) (r : Z * Z) : bool :=
  (r.2 <? r.1) || (r.2 <? size).

(** A degenerate block, [Xs = 3] and [Xe = 2], and a model with one edge type
    whose only block it is. *)
Definition degenerate_block : Edge_Block :=
  {| startX := 2; endX := 5 # 2; startY := 0; endY := 3; expression_probability := 1 # 2 |}.

Definition degenerate_model : m1_data :=
  {| meta := {| name := "g"; values := ∅ |};
     nodes := [ {| startID := 0; endID := 3; node_type := "A" |} ];
     edges := [ {| edge_type := "E"; blocks := [degenerate_block] |} ] |}.

Definition lines_text (ls : list string) : string :=
  foldr (fun l rest => l +:+ String nl rest) "" ls.

(** *** Models that survive the text format *)

(** A line is kept as it is when it does not end with a carriage return. *)
Definition no_cr_end (s : string) : bool :=
  match last_char s with
  | Some c => negb (Ascii.eqb c cr)
  | None => true
  end.
























(** Models the text format does not give back: a probability below the
    sixth decimal, a node record with the empty type, a model without name. *)
Definition model_with (name_ : string) (ns : list Node_Record) (p : Q) : m1_data :=
  {| meta := {| name := name_; values := ∅ |};
     nodes := ns;
     edges := [ {| edge_type := "E";
                   blocks := [ {| startX := 0; endX := 3; startY := 0; endY := 3;
                                  expression_probability := p |} ] |} ] |}.

Definition node_A : Node_Record := {| startID := 0; endID := 3; node_type := "A" |}.


(** A file with a name, a node row and a block row, and in every section a
    line that cannot be parsed. *)
Definition lenient_file : string :=
  lines_text [ "# META"; "NAME=g"; "junk"; "# NODES"; "0,3,A"; "x,y,z";
               "# EDGES=E"; "0,3,0,3,0.5"; "1,2" ].


(** *** Runs of the sampler *)

(** One edge type with 101 blocks of two by two cells and probability one half. *)
Definition many_blocks (n : nat) : list Edge_Block :=
  (fun i => {| startX := inject_Z (2 * Z.of_nat i); endX := inject_Z (2 * Z.of_nat i + 2);
               startY := 0; endY := 2; expression_probability := 1 # 2 |}) <$> seq 0 n.

Definition wide_model : m1_data :=
  {| meta := {| name := "g"; values := ∅ |};
     nodes := [ {| startID := 0; endID := 202; node_type := "A" |} ];
     edges := [ {| edge_type := "E"; blocks := many_blocks 101 |} ] |}.

(** A machine with [hw] hardware threads on which every file can be opened
    and the workers write in the order [scheds]. *)
Definition machine (hw : Z) (scheds : list (list nat)) : Environment :=
  {| can_open := fun _ => true; hardware_concurrency := hw; schedules := scheds |}.

(** The number of rows in the edge file of a completed run. *)
Definition edge_rows (run : option (outcome (list (Z * string) * list Edge))) : option nat :=
  match run with
  | Some (Returned (_, es)) => Some (length es)
  | _ => None
  end.

(** Two runs end the same way, with the same node file and the same edge rows
    in some order. *)
Definition same_graph (a b : option (outcome (list (Z * string) * list Edge))) : Prop :=
  match a, b with
  | Some (Returned (n1, e1)), Some (Returned (n2, e2)) => n1 = n2 /\ e1 ≡ₚ e2
  | Some (Thrown x), Some (Thrown y) => x = y
  | Some Undefined, Some Undefined => True
  | None, None => True
  | _, _ => False
  end.

(** *** Observations for the fitter *)

(** Three nodes of two types, read in two orders. *)
Definition rows_AB : list observation := [Fitter.Node "1" "A"; Fitter.Node "2" "B"; Fitter.Node "3" "B"].
Definition rows_BA : list observation := [Fitter.Node "2" "B"; Fitter.Node "3" "B"; Fitter.Node "1" "A"].

(** One edge between two nodes that no node row names, alone and after a
    node row. *)
Definition rows_edge_only : list observation := [Fitter.Edge "x" "y" "E"].
Definition rows_unobserved : list observation := [Fitter.Node "a" "A"; Fitter.Edge "x" "y" "E"].

Definition interval (s e : Z) (t : string) : Node_Record :=
  {| startID := of_int s; endID := of_int e; M1.node_type := t |}.

Definition block (sx ex sy ey : Z) (p : Q) : Edge_Block :=
  {| startX := of_int sx; endX := of_int ex; startY := of_int sy; endY := of_int ey;
     expression_probability := p |}.

(** *** What [process] compiles, as comprehensions over the containers *)

(** Where each range of a degree list starts, from [current_id] on. *)
Fixpoint range_starts (current_id : Z) (l : list (Z * Z)) : list Z :=
  match l with
  | [] => []
  | (_, amount) :: rest => current_id :: range_starts (add64 current_id amount) rest
  end.

(** The block of one out-degree entry and one in-degree entry, each with the
    start of its range, when its probability is positive. *)
Definition pair_block (edges_between_types sum_of_out sum_of_in : Z)
    (x y : Z * Z * Z) : option Edge_Block :=
  let '(deg_x, amount_x, id_x) := x in
  let '(deg_y, amount_y, id_y) := y in
  let p := ddcsbm edges_between_types deg_x sum_of_out deg_y sum_of_in in
  if Qltb 0 p
  then Some {| startX := of_int id_x; endX := of_int (add64 id_x amount_x);
               startY := of_int id_y; endY := of_int (add64 id_y amount_y);
               expression_probability := p |}
  else None.

(** The blocks of one out-degree entry: one per in-degree entry, in order. *)
Definition row_blocks (edges_between_types sum_of_out sum_of_in : Z)
    (ins : list (Z * Z)) (outer_id_y : Z) (x : Z * Z * Z) : list Edge_Block :=
  omap (pair_block edges_between_types sum_of_out sum_of_in x)
       (zip ins (range_starts outer_id_y ins)).

(** The blocks of a pair of node types: one row per out-degree entry. *)
Definition pair_blocks (edges_between_types sum_of_out sum_of_in : Z)
    (outs ins : list (Z * Z)) (outer_id_x outer_id_y : Z) : list Edge_Block :=
  zip outs (range_starts outer_id_x outs)
    ≫= row_blocks edges_between_types sum_of_out sum_of_in ins outer_id_y.

(** Where the region of each node type starts. *)
Fixpoint region_starts (current_id : Z) (work : list Node_Type_Container) : list Z :=
  match work with
  | [] => []
  | c :: rest => current_id :: region_starts (add64 current_id (node_count c)) rest
  end.

(** The node type has a node with an outgoing, resp. incoming, edge of the
    edge type. *)
Definition has_out (e_type : string) (c : Node_Type_Container) : bool :=
  has_edge_type c e_type
    && negb (number_of_nodes_with_out_degree (etc_of c e_type) =? 0).

Definition has_in (e_type : string) (c : Node_Type_Container) : bool :=
  has_edge_type c e_type
    && negb (number_of_nodes_with_in_degree (etc_of c e_type) =? 0).

(** The blocks of the node types [x] and [y], each with the start of its
    region. *)
Definition type_pair_blocks (matrix : gmap (string * string) Z) (e_type : string)
    (x y : Node_Type_Container * Z) : list Edge_Block :=
  if has_out e_type x.1 && has_in e_type y.1
  then pair_blocks (default 0 (matrix !! (Fitter.node_type x.1, Fitter.node_type y.1)))
         (sum_of_out_degrees (etc_of x.1 e_type)) (sum_of_in_degrees (etc_of y.1 e_type))
         (out_degrees (etc_of x.1 e_type)) (in_degrees (etc_of y.1 e_type)) x.2 y.2
  else [].

(** The blocks of one edge type for the node type [x]: one batch per node
    type [y], in the order of [work]. *)
Definition source_blocks (matrix : gmap (string * string) Z) (e_type : string)
    (ys : list (Node_Type_Container * Z)) (x : Node_Type_Container * Z)
    : list Edge_Block :=
  ys ≫= type_pair_blocks matrix e_type x.

(** The blocks of one edge type, before they are sorted. *)
Definition edge_type_blocks (matrix : gmap (string * string) Z) (e_type : string)
    (work : list Node_Type_Container) : list Edge_Block :=
  zip work (region_starts 0 work)
    ≫= source_blocks matrix e_type (zip work (region_starts 0 work)).

(** The node record of a node type and the start of its region. *)
Definition region_record (x : Node_Type_Container * Z) : Node_Record :=
  {| startID := of_int x.2; endID := of_int (add64 x.2 (node_count x.1));
     M1.node_type := Fitter.node_type x.1 |}.

(** The blocks and the record of an edge type for a fitted state. *)
Definition compiled_blocks (this : GenericGraphReader.t) (work : list Node_Type_Container)
    (e_type : string) : list Edge_Block :=
  edge_type_blocks (um_at ∅ e_type (GenericGraphReader.sbm_matrix this)) e_type work.

Definition compiled_record (this : GenericGraphReader.t) (work : list Node_Type_Container)
    (e_type : string) : Edge_Record :=
  {| edge_type := e_type; blocks := sort_by Edge_Block_lt (compiled_blocks this work e_type) |}.

(** The blocks that count as model failures. *)
Definition exceeds_one (b : Edge_Block) : bool := Qltb 1 (expression_probability b).

Definition count_failures (bs : list Edge_Block) : nat :=
  length (List.filter exceeds_one bs).

(** *** The rows of the sampler *)










(** *** Decimal numerals *)

(** The decimal digit [k], put before the digits [d]. *)
Definition digit_uint (k : Z) (d : Decimal.uint) : Decimal.uint :=
  match k with
  | 0 => Decimal.D0 d | 1 => Decimal.D1 d | 2 => Decimal.D2 d | 3 => Decimal.D3 d
  | 4 => Decimal.D4 d | 5 => Decimal.D5 d | 6 => Decimal.D6 d | 7 => Decimal.D7 d
  | 8 => Decimal.D8 d | _ => Decimal.D9 d
  end.

(** The digits [unsafe_u64Int_to_str] produces, as a decimal numeral: most
    significant first in [u64_uint], least significant first in [u64_lu]. *)
Fixpoint u64_uint (fuel : nat) (value : Z) (acc : Decimal.uint) : Decimal.uint :=
  match fuel with
  | O => acc
  | S fuel' =>
      let acc' := digit_uint (value mod 10) acc in
      if value / 10 =? 0 then acc' else u64_uint fuel' (value / 10) acc'
  end.

Fixpoint u64_lu (fuel : nat) (value : Z) : Decimal.uint :=
  match fuel with
  | O => Decimal.Nil
  | S fuel' =>
      digit_uint (value mod 10)
        (if value / 10 =? 0 then Decimal.Nil else u64_lu fuel' (value / 10))
  end.

(** *** Regions and counts of the fitter *)

(** The number of nodes a degree list stands for. *)
Definition total_amount (l : list (Z * Z)) : Z := foldr (fun da s => da.2 + s) 0 l.

(** The block lies in the rectangle of the node records [rx] and [ry]. *)
Definition block_within (rx ry : Node_Record) (b : Edge_Block) : Prop :=
  (startID rx <= startX b)%Q /\ (startX b <= endX b)%Q /\ (endX b <= endID rx)%Q
  /\ (startID ry <= startY b)%Q /\ (startY b <= endY b)%Q /\ (endY b <= endID ry)%Q.

(** Two nodes of one type and the two edges between them. *)
Definition rows_cycle : list observation :=
  [Fitter.Node "1" "A"; Fitter.Node "2" "A"; Fitter.Edge "1" "2" "E"; Fitter.Edge "2" "1" "E"].

(** The container [process] sets up for them. *)
Definition cycle_container : Node_Type_Container :=
  {| node_count := 2; Fitter.node_type := "A";
     edge_data :=
       [("E", {| sum_of_in_degrees := 2; sum_of_out_degrees := 2;
                 number_of_nodes_with_in_degree := 2;
                 number_of_nodes_with_out_degree := 2;
                 in_degrees := [(1, 2)]; out_degrees := [(1, 2)] |})] |}.

(** The number of node rows among the observations. *)
Definition is_node (o : observation) : bool :=
  match o with Fitter.Node _ _ => true | Fitter.Edge _ _ _ => false end.

Definition count_nodes (rows : list observation) : Z :=
  Z.of_nat (length (List.filter is_node rows)).

(** The sum of the counts of a map from types to counts, and of the node
    counts of a list of containers. *)
Definition total_count (m : list (string * Z)) : Z := foldr (fun kv s => kv.2 + s) 0 m.

Definition total_nodes (work : list Node_Type_Container) : Z :=
  foldr (fun c s => node_count c + s) 0 work.

Definition total_nodes_of (nt : nt_containers_t) : Z := total_nodes nt.*2.

(** The node ids of a node record with whole-numbered ends, and its rows in
    the node file. *)
Definition ids_of (n : Node_Record) : list Z :=
  seqZ (Qfloor (startID n) + 1) (Qfloor (endID n) - Qfloor (startID n)).

Definition rows_of_record (n : Node_Record) : list (Z * string) :=
  (fun i => (i, M1.node_type n)) <$> ids_of n.

(** *** Further vocabulary for the M1 codec *)




(** What [write_m1_file] checks: no [=] and no newline in a meta key, no
    newline in a meta value, in a node type or in an edge type. *)
Definition entry_writable (kv : string * string) : bool :=
  negb (contains "=" kv.1) && negb (contains nl kv.1) && negb (contains nl kv.2).

Definition writable (M : m1_data) : bool :=
  forallb entry_writable (map_items (values (meta M)))
    && forallb (fun n => negb (contains nl (M1.node_type n))) (nodes M)
    && forallb (fun r => negb (contains nl (edge_type r))) (edges M).

Definition returns {A} (o : outcome A) : bool :=
  match o with Returned _ => true | _ => false end.

Definition throws {A} (o : outcome A) : bool :=
  match o with Thrown _ => true | _ => false end.

(** The text with Windows line ends: a carriage return before every newline. *)
Fixpoint with_crlf (s : string) : string :=
  match s with
  | EmptyString => EmptyString
  | String c r =>
      if Ascii.eqb c nl then String cr (String nl (with_crlf r)) else String c (with_crlf r)
  end.

(** *** Rows of the TSV reader *)

Import TSV.

(** The fields of a row, separated by the delimiter. *)
Fixpoint join (delimiter : ascii) (fields : list string) : string :=
  match fields with
  | [] => EmptyString
  | [f] => f
  | f :: rest => f +:+ String delimiter (join delimiter rest)
  end.

(** The rows of a file that have [n] columns. *)
Definition has_columns (n : Z) (raw : string) : bool :=
  size_of (split_on_char (strip_cr raw) tab) =? n.

(** A reader with the default column indices. *)
Definition default_reader (node_files edge_files : list string) : TSVReader :=
  {| nodefiles := node_files; edgefiles := edge_files; idx_node_id := 0;
     idx_node_type := [1]; idx_start_node_id := 0; idx_end_node_id := 1;
     idx_edge_type := [2] |}.

(** A node file with a header of two columns and four rows: one ends with a
    tab, one has a single column. *)
Definition small_node_file : string :=
  lines_text [ join tab ["id"; "type"]; join tab ["1"; "A"]; join tab ["2"; "B"; ""];
               "bad"; join tab ["3"; "A"] ].

(** *** Scripts *)

Import Script Program.

(** The text with every occurrence of [search] replaced, from left to right;
    an occurrence starts behind the one before it, and the text put in is not
    searched.  [skip] characters belong to the occurrence just replaced. *)
Fixpoint replaced (search replace s : string) (skip : nat) : string :=
  match s with
  | EmptyString => EmptyString
  | String c r =>
      match skip with
      | S k => replaced search replace r k
      | O =>
          if String.prefix search s
          then replace +:+ replaced search replace r (String.length search - 1)
          else String c (replaced search replace r 0)
      end
  end.

Fixpoint all_chars (p : ascii -> bool) (s : string) : bool :=
  match s with
  | EmptyString => true
  | String c r => p c && all_chars p r
  end.

Definition no_blank (s : string) : bool := all_chars (fun c => negb (is_blank c)) s.

(** A first argument of the command line that arrives as one token: not
    empty, no quotation mark in front, no white space. *)
Definition word (arg : string) : bool :=
  negb (is_empty arg) && negb (Ascii.eqb (first_char arg) quote) && no_blank arg.

(** A later argument that arrives as one token: one that starts with [-] or
    [+] holds no white space, another one holds no quotation mark. *)
Definition passes (arg : string) : bool :=
  if Ascii.eqb (first_char arg) "-" || Ascii.eqb (first_char arg) "+"
  then no_blank arg
  else negb (contains quote arg).

(** The arguments without an empty last one. *)
Fixpoint without_empty_last (args : list string) : list string :=
  match args with
  | [] => []
  | [a] => if is_empty a then [] else [a]
  | a :: rest => a :: without_empty_last rest
  end.

(** What [main] appends to the script for one argument. *)
Definition piece (arg : string) : string :=
  if Ascii.eqb (first_char arg) "-" || Ascii.eqb (first_char arg) "+"
  then String " " arg
  else String " " (String quote arg) +:+ String quote EmptyString.






(** The names the loop over the sub-instructions of [-READ] knows. *)
Definition sub_instruction_names : list string :=
  ["+NODEFILE"; "+EDGEFILE"; "+NODEINDEX"; "+NODETYPEINDEX"; "+EDGEINDEX";
   "+EDGETYPEINDEX"; "+ARG"].

(** *** Runs of [main] *)

(** The instructions that need an active model. *)
Definition needs_model (t : Instruction_Type) : bool :=
  match t with
  | IGenerate | IScale | ISave => true
  | _ => false
  end.

(** A Read instruction stands before position [k]. *)
Definition read_before (l : list Instruction) (k : nat) : Prop :=
  exists (j : nat) (r : Instruction), (j < k)%nat /\ l !! j = Some r /\ type r = IRead.

(** Before each of the first [n] instructions that needs a model stands a
    Read instruction. *)
Definition reads_first (l : list Instruction) (n : nat) : Prop :=
  forall (k : nat) (instr : Instruction),
    (k < n)%nat -> l !! k = Some instr -> needs_model (type instr) = true ->
    read_before l k.


Definition run_invariant {E : Engine} (m : main_state E) : Prop :=
  0 <= instruction_counter m <= size_of (instructions m)
  /\ (has_active_model m = true ->
      read_before (instructions m) (Z.to_nat (instruction_counter m)))
  /\ reads_first (instructions m) (Z.to_nat (instruction_counter m)).

(** A system without files to read, in which every file can be written. *)
Definition bare_system : System :=
  {| file := fun _ _ => None; directory_exists := fun _ _ => true;
     can_create := fun _ _ => true; sampler := fun _ _ => machine 4 [] |}.

(** A Read without files followed by a Scale, and a Load followed by a
    Generate. *)
Definition read_then_scale : list Instruction :=
  [ {| type := IRead; s_val := ""; f_val := 0; read := i read_state_init;
       generate := Generate_Instruction_new; execute := Execute_Instruction_new |};
    {| type := IScale; s_val := ""; f_val := 2; read := Read_Instruction_new;
       generate := Generate_Instruction_new; execute := Execute_Instruction_new |} ].


(** The instruction to execute the script at [path] without replacements. *)
Definition execute_script (path : string) : Instruction :=
  {| type := IExecute; s_val := ""; f_val := 0; read := Read_Instruction_new;
     generate := Generate_Instruction_new;
     execute := {| scriptfile_path := path; replace_templates := [] |} |}.

(** The script at [path] starts with the instruction to execute itself,
    whenever it is read. *)
Definition starts_with_itself (sys : System) (path : string) : Prop :=
  forall counter : Z, exists (text : string) (tokens : list token) (others : list Instruction),
    file sys counter path = Some text
    /\ tokenize_s1 0 text [] = Some (Ok tokens)
    /\ parse_s1_file tokens = Some (Ok (execute_script path :: others)).

(** A system in which the file [loop.s1] holds a call of itself. *)
Definition looping_system : System :=
  {| file := fun _ p => if String.eqb p "loop.s1" then Some "-execute loop.s1" else None;
     directory_exists := fun _ _ => true; can_create := fun _ _ => true;
     sampler := fun _ _ => machine 4 [] |}.

End Statements.

(** * Properties *)

(** ** The scale transform *)

Section scale.
Import Num Text M1 Statements.








End scale.

(** ** Deserialization, section by section *)

Section read_sections.
Import Num Text M1 M1Format.





End read_sections.

Section read_closed_form.
Import Num Text M1 M1Format.





















End read_closed_form.

Section read_theorem.
Import Num Text M1 M1Format Statements.






End read_theorem.

(** ** Text lemmas for the round trip *)

Section text_lemmas.
Import Num Text M1 M1Format Statements.

Lemma append_cons (x : ascii) (a b : string) : String x a +:+ b = String x (a +:+ b).
Proof. reflexivity. Qed.

Lemma append_nil_l (b : string) : "" +:+ b = b.
Proof. reflexivity. Qed.

Lemma append_assoc (a b c : string) : (a +:+ b) +:+ c = a +:+ (b +:+ c).
Proof.
  induction a as [|x a IH]; [reflexivity|]. by rewrite !append_cons, IH.
Qed.

Lemma append_nil_r (a : string) : a +:+ "" = a.
Proof. induction a as [|x a IH]; [reflexivity|]. by rewrite append_cons, IH. Qed.

Lemma contains_append (c : ascii) (a b : string) :
  contains c (a +:+ b) = contains c a || contains c b.
Proof.
  induction a as [|x a IH]; [reflexivity|]. rewrite append_cons. simpl.
  destruct (Ascii.eqb c x); [reflexivity|exact IH].
Qed.

Lemma is_empty_append (a b : string) :
  is_empty (a +:+ b) = is_empty a && is_empty b.
Proof. destruct a; reflexivity. Qed.

Lemma last_char_append (a b : string) :
  is_empty b = false -> last_char (a +:+ b) = last_char b.
Proof.
  intros Hb. induction a as [|x a IH]; [reflexivity|].
  rewrite append_cons. simpl. rewrite IH.
  destruct (a +:+ b) eqn:E; [|reflexivity].
  destruct a; [rewrite append_nil_l in E; subst; discriminate|discriminate].
Qed.

Lemma strip_cr_id (s : string) : no_cr_end s = true -> strip_cr s = s.
Proof.
  unfold no_cr_end, strip_cr. destruct (last_char s); [|reflexivity].
  destruct (Ascii.eqb a cr); [discriminate|reflexivity].
Qed.






(** *** The characters of a printed number *)











End text_lemmas.

(** ** Serialization followed by deserialization *)

Section round_trip.
Import Num Text M1 M1Format Statements.













(** *** What the writer writes *)









(** *** What the reader sees of it *)


























End round_trip.

(** ** The M1 codec: scaling back, write errors, line ends *)

Section scale_back.
Import Num Text M1 Statements.




End scale_back.

Section write_errors.
Import Num Text M1 Statements.

Lemma write_meta_values_returns (kvs : list (string * string)) :
  returns (write_meta_values kvs) = forallb entry_writable kvs
  /\ throws (write_meta_values kvs) = negb (forallb entry_writable kvs).
Proof.
  induction kvs as [|[k v] kvs [IH1 IH2]]; [split; reflexivity|].
  cbn [write_meta_values forallb]. unfold entry_writable at 1 3. cbn [fst snd].
  destruct (contains "=" k); [split; reflexivity|].
  destruct (contains nl k); [split; reflexivity|].
  destruct (contains nl v); [split; reflexivity|]. cbn [negb andb orb].
  destruct (write_meta_values kvs); cbn in *; rewrite <- ?IH1, <- ?IH2; split; congruence.
Qed.

Lemma write_nodes_returns (ns : list Node_Record) :
  returns (write_nodes ns) = forallb (fun n => negb (contains nl (node_type n))) ns
  /\ throws (write_nodes ns) = negb (forallb (fun n => negb (contains nl (node_type n))) ns).
Proof.
  induction ns as [|n ns [IH1 IH2]]; [split; reflexivity|].
  cbn [write_nodes forallb].
  destruct (contains nl (node_type n)); [split; reflexivity|]. cbn [negb andb].
  destruct (write_nodes ns); cbn in *; rewrite <- ?IH1, <- ?IH2; split; congruence.
Qed.

Lemma write_edges_returns (es : list Edge_Record) :
  returns (write_edges es) = forallb (fun r => negb (contains nl (edge_type r))) es
  /\ throws (write_edges es) = negb (forallb (fun r => negb (contains nl (edge_type r))) es).
Proof.
  induction es as [|e es [IH1 IH2]]; [split; reflexivity|].
  cbn [write_edges forallb].
  destruct (contains nl (edge_type e)); [split; reflexivity|]. cbn [negb andb].
  destruct (write_edges es); cbn in *; rewrite <- ?IH1, <- ?IH2; split; congruence.
Qed.

(** [write_m1_file] throws exactly when a meta key holds [=] or a newline, or
    a meta value, a node type or an edge type holds a newline; otherwise it
    returns the text.  The name of the model is not checked. *)
Theorem write_m1_file_throws (M : m1_data) :
  returns (write_m1_file M) = writable M /\ throws (write_m1_file M) = negb (writable M).
Proof.
  unfold write_m1_file, writable.
  destruct (write_meta_values_returns (map_items (values (meta M)))) as [A1 A2].
  destruct (write_nodes_returns (nodes M)) as [B1 B2].
  destruct (write_edges_returns (edges M)) as [C1 C2].
  destruct (write_meta_values _) as [mt|x|]; cbn in A1, A2; rewrite <- A1; cbn;
    [|split; reflexivity|rewrite <- A1 in A2; discriminate].
  destruct (write_nodes _) as [nt|x|]; cbn in B1, B2; rewrite <- B1; cbn;
    [|split; reflexivity|rewrite <- B1 in B2; discriminate].
  destruct (write_edges _) as [et|x|]; cbn in C1, C2; rewrite <- C1; cbn;
    [split; reflexivity|split; reflexivity|rewrite <- C1 in C2; discriminate].
Qed.

End write_errors.

Section crlf.
Import Num Text M1 Statements.

Lemma drop_last_cons (x : ascii) (s : string) :
  is_empty s = false -> drop_last (String x s) = String x (drop_last s).
Proof. destruct s; [discriminate|reflexivity]. Qed.

Lemma drop_last_snoc (l : string) (c : ascii) : drop_last (l +:+ String c "") = l.
Proof.
  induction l as [|x l IH]; [reflexivity|]. rewrite append_cons, drop_last_cons, IH.
  - reflexivity.
  - rewrite is_empty_append. cbn [is_empty]. apply andb_false_r.
Qed.

Lemma strip_cr_snoc (l : string) : strip_cr (l +:+ String cr "") = l.
Proof.
  unfold strip_cr. rewrite last_char_append by reflexivity. cbn [last_char].
  rewrite Ascii.eqb_refl. apply drop_last_snoc.
Qed.

Lemma strip_cr_without (l : string) : contains cr l = false -> strip_cr l = l.
Proof.
  intros H. apply strip_cr_id. unfold no_cr_end.
  induction l as [|x l IH]; [reflexivity|]. cbn [contains] in H.
  destruct (Ascii.eqb cr x) eqn:E; [discriminate|]. cbn [last_char].
  destruct l as [|y l]; [by rewrite Ascii.eqb_sym, E|]. apply IH, H.
Qed.

Lemma read_line_crlf (st : reader) (l : string) :
  contains cr l = false -> read_line st (l +:+ String cr "") = read_line st l.
Proof.
  intros H. unfold read_line. rewrite strip_cr_snoc, (strip_cr_without l H). reflexivity.
Qed.

Lemma read_lines_crlf (s cur : string) (st : reader) :
  contains cr s = false -> contains cr cur = false ->
  read_lines st (getlines_from cur (with_crlf s)) = read_lines st (getlines_from cur s).
Proof.
  revert cur st. induction s as [|c s IH]; intros cur st Hs Hcur; [reflexivity|].
  cbn [contains] in Hs. destruct (Ascii.eqb cr c) eqn:Ec; [discriminate|].
  cbn [with_crlf]. destruct (Ascii.eqb c nl) eqn:En.
  - cbn [getlines_from]. change (Ascii.eqb cr nl) with false. cbn iota.
    rewrite Ascii.eqb_refl, En. cbn [read_lines].
    rewrite (read_line_crlf st cur Hcur).
    destruct (read_line st cur) as [st'|x|]; cbn; [|reflexivity..].
    apply IH; [exact Hs|reflexivity].
  - cbn [getlines_from]. rewrite En. apply IH; [exact Hs|].
    rewrite contains_append, Hcur. cbn [contains orb]. rewrite Ec. reflexivity.
Qed.

(** Windows line ends are tolerated: a file without carriage returns is read
    as the same model, or fails with the same error, when every newline is
    preceded by a carriage return. *)
Theorem read_m1_file_crlf (text : string) :
  contains cr text = false ->
  read_m1_file (Some (with_crlf text)) = read_m1_file (Some text).
Proof.
  intros H. unfold read_m1_file, getlines.
  rewrite (read_lines_crlf text "" reader_init H eq_refl). reflexivity.
Qed.

Lemma read_m1_file_crlf_witness :
  read_m1_file (Some (with_crlf lenient_file)) = Returned (model_with "g" [node_A] (1 # 2)).
Proof.
  rewrite (read_m1_file_crlf lenient_file); vm_compute; reflexivity.
Defined.

End crlf.

(** ** Compilation of the fitted state *)

Section fitter_examples.
Import Num Text M1 Fitter Statements.

(** A list of one entry is left as it is by every shuffle. *)
Lemma shuffle_singleton (Sh : Shuffler) (g : sgen Sh) (x : Z * Z) :
  shuffle Sh g [x] = ([x], (shuffle Sh g [x]).2).
Proof.
  pose proof (shuffle_Permutation Sh g [x]) as H.
  destruct (shuffle Sh g [x]) as [l g']. cbn [fst snd] in *.
  apply Permutation_singleton_r in H. by subst.
Qed.

(** C5, on the code.  The same three node rows read in two orders leave the
    same counts in [node_types], in two iteration orders; [process] assigns
    the intervals in that order, so type [A] gets [(0, 1]] in one run and
    [(2, 3]] in the other, whatever the seed.  The sort at the end of
    [process] orders the records and does not undo the assignment. *)
Theorem process_follows_iteration_order (Sh : Shuffler)
    (meta_data : gmap string string) (seed : Z) :
  rows_AB ≡ₚ rows_BA
  /\ GenericGraphReader.node_types (fit rows_AB) = [("A", 1); ("B", 2)]
  /\ GenericGraphReader.node_types (fit rows_BA) = [("B", 2); ("A", 1)]
  /\ nodes (model (process Sh (fit rows_AB) meta_data seed))
     = [interval 0 1 "A"; interval 1 3 "B"]
  /\ nodes (model (process Sh (fit rows_BA) meta_data seed))
     = [interval 0 2 "B"; interval 2 3 "A"].
Proof.
  split; [apply (Permutation_cons_append [Node "2" "B"; Node "3" "B"])|].
  repeat split; reflexivity.
Qed.

(** What [process] does with the containers of a fitted state whose degree
    lists have one entry each. *)
Ltac run_process :=
  unfold process, work_container_of;
  match goal with |- context [read_distribution ?a ?b ?c] =>
    let nt := fresh "nt" in
    set (nt := read_distribution a b c); vm_compute in nt; subst nt
  end;
  cbn [pad_containers pad_edge_data pad_and_shuffle node_count edge_data
       number_of_nodes_with_in_degree number_of_nodes_with_out_degree
       in_degrees out_degrees];
  unfold pad_and_shuffle;
  cbn [node_count edge_data number_of_nodes_with_in_degree
       number_of_nodes_with_out_degree in_degrees out_degrees
       sum_of_in_degrees sum_of_out_degrees];
  try change (0 <? 1) with true; try change (1 <? 0) with false; cbn iota;
  try change (sort_by pair_lt ([] ++ [(0, sub64 1 0)])) with [(0, 1)];
  try change (sort_by pair_lt [(1, 1)]) with [(1, 1)];
  repeat (rewrite shuffle_singleton; cbn [fst snd]).

(** C2, on the code.  An edge whose endpoints were never read as nodes gives
    the empty type one node of out-degree and one of in-degree, and no node
    count.  Read alone, it gives a model whose only node record is the empty
    interval [(0, 0]] and whose only block is [(0, 1] x (0, 1]]: a block of
    width and height one in a region of no node.  Read after a node row of
    type [A], the empty type is assigned [(1, 1]] and the block is
    [(1, 2] x (1, 2]], beyond the last node. *)
Theorem process_unobserved_endpoints (Sh : Shuffler)
    (meta_data : gmap string string) (seed : Z) :
  (nodes (model (process Sh (fit rows_edge_only) meta_data seed))
   = [interval 0 0 ""]
   /\ edges (model (process Sh (fit rows_edge_only) meta_data seed))
      = [ {| edge_type := "E"; blocks := [block 0 1 0 1 1] |} ])
  /\ (nodes (model (process Sh (fit rows_unobserved) meta_data seed))
      = [interval 0 1 "A"; interval 1 1 ""]
      /\ edges (model (process Sh (fit rows_unobserved) meta_data seed))
         = [ {| edge_type := "E"; blocks := [block 1 2 1 2 1] |} ]).
Proof. split; run_process; split; reflexivity. Qed.

End fitter_examples.

(** ** Compilation of the fitted state: the loops of [process] *)

Section compile.
Import Num Text M1 Fitter Statements.

Lemma iter_incr_add (a b : nat) (z : Z) :
  Nat.iter b incr (Nat.iter a incr z) = Nat.iter (a + b) incr z.
Proof. rewrite Nat.add_comm. symmetry. apply Nat.iter_add. Qed.

Lemma row_blocks_cons (e so si deg_y amount_y : Z) (ins : list (Z * Z)) (id_y : Z)
    (x : Z * Z * Z) :
  row_blocks e so si ((deg_y, amount_y) :: ins) id_y x
  = match pair_block e so si x (deg_y, amount_y, id_y) with
    | Some b => [b]
    | None => []
    end ++ row_blocks e so si ins (add64 id_y amount_y) x.
Proof.
  unfold row_blocks. cbn [range_starts zip zip_with].
  change (omap ?f (?a :: ?l)) with (match f a with Some b => b :: omap f l | None => omap f l end).
  destruct (pair_block e so si x (deg_y, amount_y, id_y)); reflexivity.
Qed.

Lemma positive_below_one (p : Q) : Qltb 0 p = false -> Qltb 1 p = false.
Proof.
  unfold Qltb. intros E0. apply negb_false_iff, Qle_bool_iff in E0.
  apply negb_false_iff, Qle_bool_iff. eapply Qle_trans; [exact E0|discriminate].
Qed.

Lemma loop_deg_y_blocks (e so si deg_x amount_x id_x : Z) (ins : list (Z * Z))
    (id_y : Z) (acc : tally) :
  let bs := row_blocks e so si ins id_y (deg_x, amount_x, id_x) in
  let r := loop_deg_y e so si deg_x amount_x id_x ins id_y acc in
  tally_blocks r = tally_blocks acc ++ bs
  /\ total_blocks r = Nat.iter (length bs) incr (total_blocks acc)
  /\ failed_ddcsbm_probabilities r
     = Nat.iter (count_failures bs) incr (failed_ddcsbm_probabilities acc).
Proof.
  cbn zeta. revert id_y acc. induction ins as [|[deg_y amount_y] ins IH]; intros id_y acc.
  { cbn. rewrite app_nil_r. auto. }
  cbn [loop_deg_y]. rewrite row_blocks_cons.
  match goal with |- context [loop_deg_y _ _ _ _ _ _ ins ?y ?a] =>
    destruct (IH y a) as (I1 & I2 & I3) end.
  rewrite I1, I2, I3. clear I1 I2 I3 IH.
  unfold pair_block.
  destruct (Qltb 0 (ddcsbm e deg_x so deg_y si)) eqn:E0;
    cbn [tally_blocks total_blocks failed_ddcsbm_probabilities app].
  - rewrite <- app_assoc. split; [reflexivity|]. split.
    + cbn [length]. rewrite Nat.iter_succ_r. reflexivity.
    + unfold count_failures. cbn [List.filter]. unfold exceeds_one at 2.
      cbn [expression_probability].
      destruct (Qltb 1 _); [cbn [length]; rewrite Nat.iter_succ_r|]; reflexivity.
  - rewrite (positive_below_one _ E0). auto.
Qed.

Lemma pair_blocks_cons (e so si deg_x amount_x : Z) (outs ins : list (Z * Z))
    (id_x id_y : Z) :
  pair_blocks e so si ((deg_x, amount_x) :: outs) ins id_x id_y
  = row_blocks e so si ins id_y (deg_x, amount_x, id_x)
      ++ pair_blocks e so si outs ins (add64 id_x amount_x) id_y.
Proof. reflexivity. Qed.

Lemma count_failures_app (a b : list Edge_Block) :
  count_failures (a ++ b) = (count_failures a + count_failures b)%nat.
Proof. unfold count_failures. rewrite List.filter_app, length_app. reflexivity. Qed.

Lemma loop_deg_x_blocks (e so si : Z) (outs ins : list (Z * Z)) (id_x id_y : Z)
    (acc : tally) :
  let bs := pair_blocks e so si outs ins id_x id_y in
  let r := loop_deg_x e so si outs ins id_x id_y acc in
  tally_blocks r = tally_blocks acc ++ bs
  /\ total_blocks r = Nat.iter (length bs) incr (total_blocks acc)
  /\ failed_ddcsbm_probabilities r
     = Nat.iter (count_failures bs) incr (failed_ddcsbm_probabilities acc).
Proof.
  cbn zeta. revert id_x acc. induction outs as [|[deg_x amount_x] outs IH]; intros id_x acc.
  { cbn. rewrite app_nil_r. auto. }
  cbn [loop_deg_x]. rewrite pair_blocks_cons.
  match goal with |- context [loop_deg_x _ _ _ outs _ ?x _ ?a] =>
    destruct (IH x a) as (I1 & I2 & I3) end.
  rewrite I1, I2, I3. clear I1 I2 I3 IH.
  destruct (loop_deg_y_blocks e so si deg_x amount_x id_x ins id_y acc) as (J1 & J2 & J3).
  cbn zeta in J1, J2, J3. rewrite J1, J2, J3.
  rewrite <- app_assoc, length_app, count_failures_app, !iter_incr_add. auto.
Qed.

Lemma skip_condition (has : bool) (n : Z) :
  negb has || (n =? 0) = negb (has && negb (n =? 0)).
Proof. destruct has, (n =? 0); reflexivity. Qed.

Lemma loop_container_y_blocks (matrix : gmap (string * string) Z) (e_type : string)
    (container_x : Node_Type_Container) (outer_id_x : Z)
    (work : list Node_Type_Container) (outer_id_y : Z) (acc : tally) :
  has_out e_type container_x = true ->
  let bs := zip work (region_starts outer_id_y work)
              ≫= type_pair_blocks matrix e_type (container_x, outer_id_x) in
  let r := loop_container_y matrix e_type container_x outer_id_x work outer_id_y acc in
  tally_blocks r = tally_blocks acc ++ bs
  /\ total_blocks r = Nat.iter (length bs) incr (total_blocks acc)
  /\ failed_ddcsbm_probabilities r
     = Nat.iter (count_failures bs) incr (failed_ddcsbm_probabilities acc).
Proof.
  intros Hx. cbn zeta. revert outer_id_y acc.
  induction work as [|container_y work IH]; intros outer_id_y acc.
  { cbn. rewrite app_nil_r. auto. }
  cbn [loop_container_y region_starts zip zip_with]. rewrite bind_cons.
  match goal with |- context [loop_container_y _ _ _ _ work ?y ?a] =>
    destruct (IH y a) as (I1 & I2 & I3) end.
  rewrite I1, I2, I3. clear I1 I2 I3 IH.
  assert (type_pair_blocks matrix e_type (container_x, outer_id_x) (container_y, outer_id_y)
          = if has_in e_type container_y
            then pair_blocks
                   (default 0
                      (matrix !! (Fitter.node_type container_x, Fitter.node_type container_y)))
                   (sum_of_out_degrees (etc_of container_x e_type))
                   (sum_of_in_degrees (etc_of container_y e_type))
                   (out_degrees (etc_of container_x e_type))
                   (in_degrees (etc_of container_y e_type)) outer_id_x outer_id_y
            else []) as ->.
  { unfold type_pair_blocks. cbn [fst snd]. rewrite Hx. reflexivity. }
  rewrite skip_condition. fold (has_in e_type container_y).
  destruct (has_in e_type container_y); cbn [negb].
  - match goal with |- context [loop_deg_x ?e ?so ?si ?outs ?ins ?x ?y acc] =>
      destruct (loop_deg_x_blocks e so si outs ins x y acc) as (J1 & J2 & J3) end.
    cbn zeta in J1, J2, J3. rewrite J1, J2, J3.
    rewrite <- app_assoc, length_app, count_failures_app, !iter_incr_add. auto.
  - auto.
Qed.

Lemma loop_container_x_blocks (matrix : gmap (string * string) Z) (e_type : string)
    (all work : list Node_Type_Container) (outer_id_x : Z) (acc : tally) :
  let bs := zip work (region_starts outer_id_x work)
              ≫= source_blocks matrix e_type (zip all (region_starts 0 all)) in
  let r := loop_container_x matrix e_type all work outer_id_x acc in
  tally_blocks r = tally_blocks acc ++ bs
  /\ total_blocks r = Nat.iter (length bs) incr (total_blocks acc)
  /\ failed_ddcsbm_probabilities r
     = Nat.iter (count_failures bs) incr (failed_ddcsbm_probabilities acc).
Proof.
  cbn zeta. revert outer_id_x acc.
  induction work as [|container_x work IH]; intros outer_id_x acc.
  { cbn. rewrite app_nil_r. auto. }
  cbn [loop_container_x region_starts zip zip_with]. rewrite bind_cons.
  match goal with |- context [loop_container_x _ _ _ work ?x ?a] =>
    destruct (IH x a) as (I1 & I2 & I3) end.
  rewrite I1, I2, I3. clear I1 I2 I3 IH.
  rewrite skip_condition. fold (has_out e_type container_x).
  destruct (has_out e_type container_x) eqn:Hx; cbn [negb].
  - destruct (loop_container_y_blocks matrix e_type container_x outer_id_x all 0 acc Hx)
      as (J1 & J2 & J3).
    cbn zeta in J1, J2, J3. rewrite J1, J2, J3.
    change (zip all (region_starts 0 all)
              ≫= type_pair_blocks matrix e_type (container_x, outer_id_x))
      with (source_blocks matrix e_type (zip all (region_starts 0 all))
              (container_x, outer_id_x)).
    rewrite <- app_assoc, length_app, count_failures_app, !iter_incr_add. auto.
  - assert (source_blocks matrix e_type (zip all (region_starts 0 all))
              (container_x, outer_id_x) = []) as ->.
    { unfold source_blocks. induction (zip all (region_starts 0 all)) as [|y ys IHy];
        [reflexivity|].
      rewrite bind_cons, IHy. unfold type_pair_blocks. cbn [fst]. rewrite Hx. reflexivity. }
    auto.
Qed.

Lemma parse_nodes_regions (work : list Node_Type_Container) (current_id : Z) :
  parse_nodes current_id work = region_record <$> zip work (region_starts current_id work).
Proof.
  revert current_id. induction work as [|c work IH]; intros current_id; [reflexivity|].
  cbn [parse_nodes region_starts zip zip_with]. rewrite fmap_cons, IH. reflexivity.
Qed.

Lemma parse_edge_types_records (this : GenericGraphReader.t)
    (work : list Node_Type_Container) (colors : list string) (failed total : Z) :
  let all := colors ≫= compiled_blocks this work in
  parse_edge_types this work colors failed total
  = (compiled_record this work <$> colors,
     Nat.iter (count_failures all) incr failed,
     Nat.iter (length all) incr total).
Proof.
  cbn zeta. revert failed total. induction colors as [|e_type colors IH]; intros failed total.
  { reflexivity. }
  cbn [parse_edge_types]. rewrite IH, bind_cons, fmap_cons.
  match goal with |- context [loop_container_x ?m ?e ?a ?w ?x ?acc] =>
    destruct (loop_container_x_blocks m e a w x acc) as (J1 & J2 & J3) end.
  cbn zeta in J1, J2, J3. rewrite J1, J2, J3.
  cbn [tally_blocks total_blocks failed_ddcsbm_probabilities app].
  rewrite length_app, count_failures_app, !iter_incr_add. reflexivity.
Qed.


End compile.

(** ** Compilation of the fitted state: blocks and regions *)

Section regions.
Import Num Text M1 Fitter Statements.

Lemma of_int_le (a b : Z) : a <= b -> (of_int a <= of_int b)%Q.
Proof. intros H. unfold of_int. by rewrite <- Zle_Qle. Qed.

Lemma total_amount_nonneg (l : list (Z * Z)) :
  Forall (fun da => 0 <= da.2) l -> 0 <= total_amount l.
Proof.
  induction 1 as [|x l Hx Hl IHl]; cbn; [lia|]. fold (total_amount l). lia.
Qed.

Lemma range_starts_bounds (l : list (Z * Z)) (o : Z) (da : Z * Z) (s : Z) :
  Forall (fun da => 0 <= da.2) l -> 0 <= o -> o + total_amount l < two64 ->
  (da, s) ∈ zip l (range_starts o l) ->
  o <= s /\ 0 <= da.2 /\ s + da.2 <= o + total_amount l.
Proof.
  revert o. induction l as [|[d a] l IH]; intros o Hl Ho Hb Hin.
  { by apply elem_of_nil in Hin. }
  apply Forall_cons in Hl as [Ha Hl]. cbn [snd] in Ha.
  cbn [range_starts zip zip_with total_amount foldr snd] in Hin, Hb.
  fold (total_amount l) in Hb.
  pose proof (total_amount_nonneg l Hl) as Ht.
  cbn [total_amount foldr snd]. fold (total_amount l).
  apply elem_of_cons in Hin as [Heq|Hin].
  - injection Heq as -> ->. cbn [snd]. lia.
  - assert (add64 o a = o + a) as Hadd.
    { unfold add64, wrap64. apply Z.mod_small. lia. }
    rewrite Hadd in Hin. destruct (IH (o + a) Hl ltac:(lia) ltac:(lia) Hin) as (I1 & I2 & I3).
    lia.
Qed.

Lemma pair_blocks_inside (e so si : Z) (outs ins : list (Z * Z)) (ox oy : Z) (b : Edge_Block) :
  Forall (fun da => 0 <= da.2) outs -> Forall (fun da => 0 <= da.2) ins ->
  0 <= ox -> ox + total_amount outs < two64 ->
  0 <= oy -> oy + total_amount ins < two64 ->
  b ∈ pair_blocks e so si outs ins ox oy ->
  (of_int ox <= startX b)%Q /\ (startX b <= endX b)%Q
  /\ (endX b <= of_int (ox + total_amount outs))%Q
  /\ (of_int oy <= startY b)%Q /\ (startY b <= endY b)%Q
  /\ (endY b <= of_int (oy + total_amount ins))%Q
  /\ (0 < expression_probability b)%Q.
Proof.
  intros Ho Hi Hox Hbx Hoy Hby Hin. unfold pair_blocks in Hin.
  apply list_elem_of_bind in Hin as ([[dx ax] sx] & Hrow & Hx).
  unfold row_blocks in Hrow. apply list_elem_of_omap in Hrow as ([[dy ay] sy] & Hy & Hb).
  destruct (range_starts_bounds outs ox (dx, ax) sx Ho Hox Hbx Hx) as (X1 & X2 & X3).
  destruct (range_starts_bounds ins oy (dy, ay) sy Hi Hoy Hby Hy) as (Y1 & Y2 & Y3).
  cbn [snd] in *. unfold pair_block in Hb.
  destruct (Qltb 0 (ddcsbm e dx so dy si)) eqn:Ep; [|discriminate].
  injection Hb as <-. cbn [startX endX startY endY expression_probability].
  assert (add64 sx ax = sx + ax) as -> by (unfold add64, wrap64; apply Z.mod_small; lia).
  assert (add64 sy ay = sy + ay) as -> by (unfold add64, wrap64; apply Z.mod_small; lia).
  repeat split; try (apply of_int_le; lia).
  unfold Qltb in Ep. apply negb_true_iff in Ep. apply Qnot_le_lt. intros H.
  apply Qle_bool_iff in H. congruence.
Qed.

(** When the degree lists of the node types [x] and [y] for an edge type
    stand for exactly the nodes of their types, every block compiled for the
    pair lies in the rectangle of the two regions. *)
Theorem type_pair_blocks_inside (matrix : gmap (string * string) Z) (e_type : string)
    (x y : Node_Type_Container * Z) (b : Edge_Block) :
  Forall (fun da => 0 <= da.2) (out_degrees (etc_of x.1 e_type)) ->
  Forall (fun da => 0 <= da.2) (in_degrees (etc_of y.1 e_type)) ->
  total_amount (out_degrees (etc_of x.1 e_type)) = node_count x.1 ->
  total_amount (in_degrees (etc_of y.1 e_type)) = node_count y.1 ->
  0 <= x.2 -> x.2 + node_count x.1 < two64 ->
  0 <= y.2 -> y.2 + node_count y.1 < two64 ->
  b ∈ type_pair_blocks matrix e_type x y ->
  block_within (region_record x) (region_record y) b
  /\ (0 < expression_probability b)%Q.
Proof.
  intros Ho Hi Hto Hti Hx Hbx Hy Hby Hin. unfold type_pair_blocks in Hin.
  destruct (has_out e_type x.1 && has_in e_type y.1); [|by apply elem_of_nil in Hin].
  destruct (pair_blocks_inside _ _ _ _ _ _ _ b Ho Hi Hx ltac:(rewrite Hto; exact Hbx)
              Hy ltac:(rewrite Hti; exact Hby) Hin)
    as (B1 & B2 & B3 & B4 & B5 & B6 & B7).
  unfold block_within, region_record. cbn [startID endID].
  pose proof (total_amount_nonneg _ Ho) as Hno. pose proof (total_amount_nonneg _ Hi) as Hni.
  assert (add64 x.2 (node_count x.1) = x.2 + node_count x.1) as ->.
  { unfold add64, wrap64. apply Z.mod_small. lia. }
  assert (add64 y.2 (node_count y.1) = y.2 + node_count y.1) as ->.
  { unfold add64, wrap64. apply Z.mod_small. lia. }
  rewrite <- Hto, <- Hti. tauto.
Qed.

Lemma type_pair_blocks_inside_witness :
  work_container_of minstd_shuffler (fit rows_cycle) 7 = [cycle_container]
  /\ block_within (region_record (cycle_container, 0)) (region_record (cycle_container, 0))
       (block 0 2 0 2 (2 # 4))
  /\ (0 < expression_probability (block 0 2 0 2 (2 # 4)))%Q.
Proof.
  split; [vm_compute; reflexivity|].
  apply (type_pair_blocks_inside
           (um_at ∅ "E" (GenericGraphReader.sbm_matrix (fit rows_cycle))) "E"
           (cycle_container, 0) (cycle_container, 0) (block 0 2 0 2 (2 # 4))).
  - repeat constructor; discriminate.
  - repeat constructor; discriminate.
  - reflexivity.
  - reflexivity.
  - cbn. lia.
  - reflexivity.
  - cbn. lia.
  - reflexivity.
  - vm_compute. apply list_elem_of_here.
Defined.

End regions.

(** ** The sampler: block ranges and degenerate blocks *)

Section sampler_bounds.
Import Num Text M1 Sampler Statements.

(** A worker whose range is not empty and reaches [data.size()] reads
    [data[idx]] out of bounds: whatever the generator, it does not return. *)
Lemma worker_out_of_bounds (E : Engine) (fuel : nat) (data : list Record_t)
    (a b seed : Z) (t : string) :
  a <= b -> Z.of_nat (length data) <= b ->
  multithread_generate_graph E fuel data a b seed t = None
  \/ (exists e, multithread_generate_graph E fuel data a b seed t = Some (Thrown e))
  \/ multithread_generate_graph E fuel data a b seed t = Some Undefined.
Proof.
  intros Hab Hb. unfold multithread_generate_graph.
  destruct (b <? a) eqn:E1; [apply Z.ltb_lt in E1; lia|].
  destruct (worker_blocks _ _ _ _ _) as [[w|e|]|]; eauto.
  destruct (Z.of_nat (length data) <=? b) eqn:E2; [auto|].
  apply Z.leb_gt in E2. lia.
Qed.

(** C6, on the code.  With [hardware_concurrency() = 3] the sampler uses two
    workers; for a vector of 100 blocks the second worker gets the range
    [50 .. 100], whose last index is [data.size()], and the guard
    [idx_end > block.size()] does not catch it. *)
Theorem thread_ranges_reach_size :
  n_threads_of 3 = 2
  /\ thread_ranges 100 2 = [(0, 49); (50, 100)]
  /\ forallb (range_in_bounds 100) (thread_ranges 100 2) = false.
Proof. repeat split. Qed.

(** C8, on the code.  The degenerate block is dropped by
    [read_edge_block_data], the block vector of its edge type is empty, and
    [generate_graph] calls the worker with the range [0 .. size() - 1], which
    is [0 .. 2^64 - 1]: the worker reads [data[0]] of an empty vector. *)
Theorem generate_graph_degenerate_only (E : Engine) (fuel : nat) (hw : Z)
    (scheds : list (list nat)) (seed : Z) :
  read_edge_block_data
    {| edge_type := "E";
       blocks := [ {| startX := 2; endX := 5 # 2; startY := 0; endY := 3;
                      expression_probability := 1 # 2 |} ] |} = Returned []
  /\ calls_for E hw 0 (engine_seed E seed)
     = ([(0, 2 ^ 64 - 1, (engine_next E (engine_seed E seed)).1)],
        (engine_next E (engine_seed E seed)).2)
  /\ generate_graph E fuel
       {| can_open := fun _ => true; hardware_concurrency := hw; schedules := scheds |}
       "nodes.tsv" "edges.tsv" degenerate_model seed = Some Undefined.
Proof.
  split; [reflexivity|]. split.
  - unfold calls_for. simpl. destruct (engine_next E (engine_seed E seed)); reflexivity.
  - unfold generate_graph. simpl.
    unfold calls_for. simpl.
    destruct (engine_next E (engine_seed E seed)) as [s g]. simpl.
    reflexivity.
Qed.

Lemma convert_blocks_skip (l1 l2 : list Edge_Block) (b : Edge_Block) :
  convert_block b = Returned None ->
  convert_blocks (l1 ++ b :: l2) = convert_blocks (l1 ++ l2).
Proof.
  intros Hb. induction l1 as [|a l1 IH]; cbn [app convert_blocks].
  - rewrite Hb. cbn. destruct (convert_blocks l2); reflexivity.
  - rewrite IH. reflexivity.
Qed.

Lemma convert_records_skip (es1 es2 : list Edge_Record) (t : string)
    (l1 l2 : list Edge_Block) (b : Edge_Block) :
  convert_block b = Returned None ->
  convert_records (es1 ++ {| edge_type := t; blocks := l1 ++ b :: l2 |} :: es2)
  = convert_records (es1 ++ {| edge_type := t; blocks := l1 ++ l2 |} :: es2).
Proof.
  intros Hb. induction es1 as [|e es1 IH]; cbn [app convert_records].
  - unfold read_edge_block_data. cbn [edge_type blocks].
    rewrite (convert_blocks_skip l1 l2 b Hb). reflexivity.
  - rewrite IH. reflexivity.
Qed.

Lemma convert_block_degenerate (b : Edge_Block) (Xs Xe Ys Ye : Z) :
  convert_start_of_block (startX b) = Returned Xs ->
  convert_end_of_block (endX b) = Returned Xe ->
  convert_start_of_block (startY b) = Returned Ys ->
  convert_end_of_block (endY b) = Returned Ye ->
  Xe < Xs \/ Ye < Ys ->
  convert_block b = Returned None.
Proof.
  intros H1 H2 H3 H4 Hd. unfold convert_block. rewrite H1, H2, H3, H4. cbn.
  destruct (Xe <? Xs) eqn:E1; [reflexivity|].
  destruct (Ye <? Ys) eqn:E2; [reflexivity|].
  apply Z.ltb_ge in E1, E2. lia.
Qed.

(** A degenerate block among the blocks of an edge type is skipped: the
    converted block vector, and with it the whole run of the sampler, is the
    one of the model without that block. *)
Theorem generate_graph_skips_degenerate (E : Engine) (fuel : nat) (env : Environment)
    (node_file_name edge_file_name : string) (m : Meta_Record) (ns : list Node_Record)
    (es1 es2 : list Edge_Record) (t : string) (l1 l2 : list Edge_Block) (b : Edge_Block)
    (seed Xs Xe Ys Ye : Z) :
  convert_start_of_block (startX b) = Returned Xs ->
  convert_end_of_block (endX b) = Returned Xe ->
  convert_start_of_block (startY b) = Returned Ys ->
  convert_end_of_block (endY b) = Returned Ye ->
  Xe < Xs \/ Ye < Ys ->
  read_edge_block_data {| edge_type := t; blocks := l1 ++ b :: l2 |}
  = read_edge_block_data {| edge_type := t; blocks := l1 ++ l2 |}
  /\ generate_graph E fuel env node_file_name edge_file_name
       {| meta := m; nodes := ns;
          edges := es1 ++ {| edge_type := t; blocks := l1 ++ b :: l2 |} :: es2 |} seed
     = generate_graph E fuel env node_file_name edge_file_name
         {| meta := m; nodes := ns;
            edges := es1 ++ {| edge_type := t; blocks := l1 ++ l2 |} :: es2 |} seed.
Proof.
  intros H1 H2 H3 H4 Hd.
  pose proof (convert_block_degenerate b Xs Xe Ys Ye H1 H2 H3 H4 Hd) as Hb.
  split.
  - unfold read_edge_block_data. cbn [edge_type blocks].
    rewrite (convert_blocks_skip l1 l2 b Hb). reflexivity.
  - unfold generate_graph. cbn [nodes edges].
    rewrite (convert_records_skip es1 es2 t l1 l2 b Hb). reflexivity.
Qed.

Lemma generate_graph_skips_degenerate_witness :
  (2 < 3 \/ 3 < 1)
  /\ generate_graph minstd 100 (machine 2 []) "n.tsv" "e.tsv"
       {| meta := {| name := "g"; values := ∅ |}; nodes := [node_A];
          edges := [] ++ {| edge_type := "E";
                            blocks := [block 0 3 0 3 (1 # 2)] ++ degenerate_block :: [] |}
                         :: [] |} 42
     = generate_graph minstd 100 (machine 2 []) "n.tsv" "e.tsv"
         {| meta := {| name := "g"; values := ∅ |}; nodes := [node_A];
            edges := [] ++ {| edge_type := "E";
                              blocks := [block 0 3 0 3 (1 # 2)] ++ [] |} :: [] |} 42.
Proof.
  split; [left; lia|].
  apply (generate_graph_skips_degenerate minstd 100 (machine 2 []) "n.tsv" "e.tsv"
           {| name := "g"; values := ∅ |} [node_A] [] [] "E"
           [block 0 3 0 3 (1 # 2)] [] degenerate_block 42 3 2 1 3);
    try reflexivity.
  left. lia.
Defined.

End sampler_bounds.

(** ** The sampler: runs, schedules and thread counts *)

Section sampler_runs.
Import Num Text M1 Sampler Statements.

Lemma concat_insert_tail {A} (ws : list (list (list A))) (i : nat) (c : list A)
    (cs : list (list A)) :
  ws !! i = Some (c :: cs) ->
  concat (concat ws) ≡ₚ c ++ concat (concat (<[i := cs]> ws)).
Proof.
  revert i. induction ws as [|w ws IH]; intros i Hi; [discriminate|].
  destruct i as [|i].
  - injection Hi as ->.
    change (concat (concat ((c :: cs) :: ws)) ≡ₚ c ++ concat (concat (cs :: ws))).
    cbn [concat]. rewrite !concat_app. cbn [concat]. by rewrite app_assoc.
  - change (concat (concat (w :: ws)) ≡ₚ c ++ concat (concat (w :: <[i := cs]> ws))).
    cbn [concat]. rewrite !concat_app.
    pose proof (IH i Hi) as X. rewrite X, !(app_assoc (A:=A)).
    apply Permutation_app_tail, Permutation_app_comm.
Qed.

(** Whatever the order in which the workers write, the rows written are the
    rows of the workers' buffers. *)
Lemma interleave_rows (schedule : list nat) (ws : list (list (list Edge))) :
  concat (interleave schedule ws) ≡ₚ concat (concat ws).
Proof.
  revert ws. induction schedule as [|i schedule IH]; intros ws; [reflexivity|].
  cbn [interleave]. destruct (ws !! i) as [[|c cs]|] eqn:E; try apply IH.
  cbn [concat]. rewrite IH. symmetry. by apply concat_insert_tail.
Qed.

Lemma edge_types_loop_schedules (E : Engine) (fuel : nat) (hw : Z)
    (s1 s2 : list (list nat)) (block_data : list (string * list Record_t)) (g : gen E) :
  match edge_types_loop E fuel hw s1 block_data g,
        edge_types_loop E fuel hw s2 block_data g with
  | Some (Returned e1), Some (Returned e2) => e1 ≡ₚ e2
  | Some (Thrown x), Some (Thrown y) => x = y
  | Some Undefined, Some Undefined => True
  | None, None => True
  | _, _ => False
  end.
Proof.
  revert s1 s2 g. induction block_data as [|[e_type block] rest IH]; intros s1 s2 g.
  { cbn. reflexivity. }
  cbn [edge_types_loop].
  destruct (calls_for E hw (Z.of_nat (length block)) g) as [calls g'].
  destruct (run_calls E fuel block e_type calls) as [[ws|x|]|]; try done.
  specialize (IH (tail s1) (tail s2) g').
  destruct (edge_types_loop E fuel hw (tail s1) rest g') as [[r1|x1|]|],
           (edge_types_loop E fuel hw (tail s2) rest g') as [[r2|x2|]|]; try done.
  rewrite !interleave_rows, IH. reflexivity.
Qed.

(** C3, as amended.  On a machine with a fixed number of hardware threads,
    two runs of the sampler on the same model and seed end the same way and,
    when they return, write the same node file and the same edge rows; the
    order in which the workers get the write lock only changes the order of
    the rows. *)
Theorem generate_graph_same_edges (E : Engine) (fuel : nat) (can : string -> bool)
    (hw : Z) (s1 s2 : list (list nat)) (node_file_name edge_file_name : string)
    (data : m1_data) (seed : Z) :
  same_graph
    (generate_graph E fuel
       {| can_open := can; hardware_concurrency := hw; schedules := s1 |}
       node_file_name edge_file_name data seed)
    (generate_graph E fuel
       {| can_open := can; hardware_concurrency := hw; schedules := s2 |}
       node_file_name edge_file_name data seed).
Proof.
  unfold same_graph, generate_graph. cbn [can_open hardware_concurrency schedules].
  destruct (negb (can node_file_name)); [reflexivity|].
  destruct (negb (can edge_file_name)); [reflexivity|].
  destruct (node_file_rows (nodes data)) as [[ns|x|]|]; try done.
  destruct (convert_records (edges data)) as [bd|x|]; try done.
  pose proof (edge_types_loop_schedules E fuel hw s1 s2 bd (engine_seed E seed)) as H.
  destruct (edge_types_loop E fuel hw s1 bd _) as [[r1|x1|]|],
           (edge_types_loop E fuel hw s2 bd _) as [[r2|x2|]|]; try done.
Qed.

(** C3 as stated fails.  For an edge type of 101 blocks, a machine with two
    hardware threads runs one worker over the blocks 0 to 100 with the first
    draw of the generator as its seed; a machine with three runs two workers,
    the second over the blocks 50 to 100 with the second draw as its seed.
    With the generator of the examples, the model of 101 blocks and the seed
    42 give 110 edge rows on the first machine and 115 on the second. *)
Lemma generate_graph_thread_count :
  (forall (E : Engine) (g : gen E),
      (calls_for E 2 101 g).1 = [(0, 100, (engine_next E g).1)]
      /\ (calls_for E 3 101 g).1
         = [(0, 49, (engine_next E g).1);
            (50, 100, (engine_next E (engine_next E g).2).1)])
  /\ edge_rows (generate_graph minstd 100 (machine 2 []) "n.tsv" "e.tsv" wide_model 42)
     = Some 110%nat
  /\ edge_rows (generate_graph minstd 100 (machine 3 []) "n.tsv" "e.tsv" wide_model 42)
     = Some 115%nat.
Proof.
  split.
  - intros E g. unfold calls_for.
    change (101 <? 100) with false. cbn iota.
    change (thread_ranges 101 (n_threads_of 2)) with [(0, 100)].
    change (thread_ranges 101 (n_threads_of 3)) with [(0, 49); (50, 100)].
    cbn [draw_seeds].
    destruct (engine_next E g) as [s1 g1]. cbn [fst snd].
    destruct (engine_next E g1) as [s2 g2]. split; reflexivity.
  - split; vm_compute; reflexivity.
Qed.

End sampler_runs.

(** ** The geometric-jump loop *)

Section jump_loop.
Import Num Text M1 Sampler Statements.




















End jump_loop.

(** ** The sampler: the rows it writes *)

Section sampler_rows.
Import Num Text M1 Sampler Statements.

















(** *** The output buffer *)

Lemma u64_digits_length (fuel : nat) (value : Z) (acc : string) :
  (String.length (u64_digits fuel value acc) <= fuel + String.length acc)%nat.
Proof.
  revert value acc. induction fuel as [|fuel IH]; intros value acc; [cbn; lia|].
  cbn [u64_digits]. destruct (value / 10 =? 0).
  - cbn [String.length]. lia.
  - etransitivity; [apply IH|]. cbn [String.length]. lia.
Qed.

Lemma length_append (a b : string) :
  String.length (a +:+ b) = (String.length a + String.length b)%nat.
Proof. induction a as [|c a IH]; [reflexivity|]. rewrite append_cons. cbn. lia. Qed.

Lemma row_text_length (x y : Z) (t : string) :
  (1 <= String.length (row_text (x, y, t)) <= 43 + String.length t)%nat.
Proof.
  unfold row_text, unsafe_u64Int_to_str.
  pose proof (u64_digits_length 20 x "") as Hx. pose proof (u64_digits_length 20 y "") as Hy.
  rewrite !length_append. cbn [String.length] in *. lia.
Qed.

(** A row is appended to the buffer below the flush threshold; with an edge
    type of at most 64 characters the row and its terminator end inside the
    buffer, and the position is below the threshold again afterwards. *)
Theorem emit_within_buffer (E : Engine) (x y : Z) (t : string) (g : gen E) (w : worker E) :
  Z.of_nat (String.length t) <= MAX_ALLOWED_TYPE_LENGTH ->
  0 <= buffer_pos w < MAX_BUFFER_SIZE - MAX_BUFFER_SAFETY_MARGIN - 1 ->
  buffer_pos w + Z.of_nat (String.length (row_text (x, y, t))) + 1 <= MAX_BUFFER_SIZE
  /\ 0 <= buffer_pos (emit E (x, y, t) g w)
       < MAX_BUFFER_SIZE - MAX_BUFFER_SAFETY_MARGIN - 1.
Proof.
  unfold MAX_ALLOWED_TYPE_LENGTH, MAX_BUFFER_SIZE, MAX_BUFFER_SAFETY_MARGIN.
  intros Ht Hw. pose proof (row_text_length x y t) as Hr. split; [lia|].
  unfold emit, MAX_BUFFER_SIZE, MAX_BUFFER_SAFETY_MARGIN.
  destruct (_ <=? _) eqn:E1; cbn [buffer_pos]; [lia|]. apply Z.leb_gt in E1. lia.
Qed.

Lemma emit_within_buffer_witness :
  99498 + Z.of_nat (String.length (row_text (18446744073709551615, 18446744073709551615, "E")))
    + 1 <= MAX_BUFFER_SIZE
  /\ 0 <= buffer_pos (emit minstd (18446744073709551615, 18446744073709551615, "E") 7
                       (Build_worker minstd 1 [] 99498 []))
       < MAX_BUFFER_SIZE - MAX_BUFFER_SAFETY_MARGIN - 1.
Proof.
  apply (emit_within_buffer minstd 18446744073709551615 18446744073709551615 "E" 7
           (Build_worker minstd 1 [] 99498 [])).
  - vm_compute. discriminate.
  - vm_compute. split; [discriminate|reflexivity].
Defined.

End sampler_rows.

(** ** The sampler: the decimal conversion of the edge file *)

Section sampler_digits.
Import Num Text M1 Sampler Statements.

Lemma digit_cases (v : Z) :
  v mod 10 = 0 \/ v mod 10 = 1 \/ v mod 10 = 2 \/ v mod 10 = 3 \/ v mod 10 = 4
  \/ v mod 10 = 5 \/ v mod 10 = 6 \/ v mod 10 = 7 \/ v mod 10 = 8 \/ v mod 10 = 9.
Proof. pose proof (Z.mod_pos_bound v 10 ltac:(lia)). lia. Qed.

Ltac digit_case v :=
  let H := fresh "H" in
  destruct (digit_cases v) as [H|[H|[H|[H|[H|[H|[H|[H|[H|H]]]]]]]]]; rewrite H in *.

Lemma digit_uint_string (v : Z) (d : Decimal.uint) :
  NilZero.string_of_uint (digit_uint (v mod 10) d)
  = String (ascii_of_N (Z.to_N (v mod 10 + 48))) (NilEmpty.string_of_uint d).
Proof. digit_case v; reflexivity. Qed.

Lemma u64_uint_string (fuel : nat) (value : Z) (acc : Decimal.uint) :
  NilEmpty.string_of_uint (u64_uint fuel value acc)
  = u64_digits fuel value (NilEmpty.string_of_uint acc).
Proof.
  revert value acc. induction fuel as [|fuel IH]; intros value acc; [reflexivity|].
  cbn [u64_uint u64_digits].
  assert (NilEmpty.string_of_uint (digit_uint (value mod 10) acc)
          = String (ascii_of_N (Z.to_N (value mod 10 + 48))) (NilEmpty.string_of_uint acc))
    as Hd by (digit_case value; reflexivity).
  destruct (value / 10 =? 0); [exact Hd|]. rewrite IH, Hd. reflexivity.
Qed.

Lemma u64_uint_revapp (fuel : nat) (value : Z) (acc : Decimal.uint) :
  (0 < fuel)%nat ->
  u64_uint fuel value acc = Decimal.revapp (u64_lu fuel value) acc.
Proof.
  revert value acc. induction fuel as [|fuel IH]; intros value acc Hf; [lia|].
  cbn [u64_uint u64_lu].
  destruct (value / 10 =? 0) eqn:E.
  - digit_case value; reflexivity.
  - destruct fuel as [|fuel].
    + cbn [u64_uint u64_lu]. digit_case value; reflexivity.
    + rewrite IH by lia. digit_case value; reflexivity.
Qed.

Lemma u64_lu_value (fuel : nat) (value : Z) :
  0 <= value < 10 ^ Z.of_nat fuel ->
  DecimalPos.Unsigned.of_lu (u64_lu fuel value) = Z.to_N value.
Proof.
  revert value. induction fuel as [|fuel IH]; intros value Hv.
  { cbn in Hv. assert (value = 0) as -> by lia. reflexivity. }
  cbn [u64_lu].
  pose proof (Z.div_mod value 10 ltac:(lia)) as Hdm.
  assert (0 <= value / 10 < 10 ^ Z.of_nat fuel) as Hq.
  { split; [apply Z.div_pos; lia|]. apply Z.div_lt_upper_bound; [lia|].
    rewrite Nat2Z.inj_succ, Z.pow_succ_r in Hv by lia. lia. }
  assert (DecimalPos.Unsigned.of_lu (if value / 10 =? 0 then Decimal.Nil else u64_lu fuel (value / 10))
          = Z.to_N (value / 10)) as Hrest.
  { destruct (value / 10 =? 0) eqn:E; [apply Z.eqb_eq in E; rewrite E; reflexivity|].
    apply IH, Hq. }
  rewrite DecimalPos.Unsigned.of_lu_eqn.
  digit_case value; cbn [digit_uint DecimalPos.Unsigned.hd DecimalPos.Unsigned.tl]; rewrite Hrest; lia.
Qed.

Lemma u64_uint_nzhead (fuel : nat) (value : Z) (acc : Decimal.uint) :
  (0 < fuel)%nat -> 0 < value < 10 ^ Z.of_nat fuel ->
  Decimal.nzhead (u64_uint fuel value acc) = u64_uint fuel value acc.
Proof.
  revert value acc. induction fuel as [|fuel IH]; intros value acc Hf Hv; [lia|].
  cbn [u64_uint].
  pose proof (Z.div_mod value 10 ltac:(lia)) as Hdm.
  destruct (value / 10 =? 0) eqn:E.
  - apply Z.eqb_eq in E. digit_case value; try reflexivity. lia.
  - apply Z.eqb_neq in E.
    assert (0 < value / 10 < 10 ^ Z.of_nat fuel) as Hq.
    { split.
      - pose proof (Z.div_pos value 10 ltac:(lia) ltac:(lia)). lia.
      - apply Z.div_lt_upper_bound; [lia|].
        rewrite Nat2Z.inj_succ, Z.pow_succ_r in Hv by lia. lia. }
    destruct fuel as [|fuel]; [cbn in Hq; lia|]. apply IH; [lia|exact Hq].
Qed.

Lemma digit_uint_not_nil (k : Z) (d : Decimal.uint) : digit_uint k d <> Decimal.Nil.
Proof.
  unfold digit_uint.
  repeat match goal with |- context [match ?x with _ => _ end] => destruct x end;
    discriminate.
Qed.

Lemma u64_uint_not_nil (fuel : nat) (value : Z) (acc : Decimal.uint) :
  acc <> Decimal.Nil \/ (0 < fuel)%nat -> u64_uint fuel value acc <> Decimal.Nil.
Proof.
  revert value acc. induction fuel as [|fuel IH]; intros value acc H.
  { destruct H as [H|H]; [exact H|lia]. }
  cbn [u64_uint]. destruct (value / 10 =? 0); [apply digit_uint_not_nil|].
  apply IH. left. apply digit_uint_not_nil.
Qed.

(** The conversion of the edge file writes a 64-bit value as
    [std::to_string] does. *)
Theorem unsafe_u64Int_to_str_decimal (value : Z) :
  0 <= value < two64 -> unsafe_u64Int_to_str value = to_string_u64 value.
Proof.
  intros Hv. unfold unsafe_u64Int_to_str, to_string_u64.
  assert (0 <= value < 10 ^ Z.of_nat 20) as Hv' by (unfold two64 in Hv; cbn; lia).
  change (u64_digits 20 value "")
    with (u64_digits 20 value (NilEmpty.string_of_uint Decimal.Nil)).
  rewrite <- u64_uint_string.
  assert (N.of_uint (u64_uint 20 value Decimal.Nil) = Z.to_N value) as Hof.
  { rewrite u64_uint_revapp by lia.
    change (Decimal.revapp (u64_lu 20 value) Decimal.Nil) with (Decimal.rev (u64_lu 20 value)).
    unfold N.of_uint. rewrite DecimalPos.Unsigned.of_lu_rev. apply u64_lu_value, Hv'. }
  rewrite <- Hof, DecimalN.Unsigned.to_of.
  destruct (Z.eq_dec value 0) as [->|Hne]; [reflexivity|].
  pose proof (u64_uint_not_nil 20 value Decimal.Nil ltac:(right; lia)) as Hnil.
  rewrite DecimalFacts.unorm_nzhead; rewrite u64_uint_nzhead by lia; [|exact Hnil].
  destruct (u64_uint 20 value Decimal.Nil); [contradiction|reflexivity..].
Qed.

Lemma unsafe_u64Int_to_str_decimal_witness :
  unsafe_u64Int_to_str 18446744073709551615 = "18446744073709551615".
Proof.
  apply (unsafe_u64Int_to_str_decimal 18446744073709551615). unfold two64. lia.
Defined.

End sampler_digits.

(** ** From the observations to the node file *)

Section node_file.
Import Num Text M1 Fitter Sampler Statements.

(** *** The counts of the fitted state *)

Lemma um_alter_keys {V} (dflt : V) (f : V -> V) (k : string) (m : list (string * V)) :
  NoDup m.*1 -> NoDup (um_alter dflt f k m).*1
  /\ (forall k', k' ∈ (um_alter dflt f k m).*1 -> k' = k \/ k' ∈ m.*1).
Proof.
  induction m as [|[k0 v0] m IH]; intros Hnd.
  { cbn. split; [apply NoDup_singleton|]. intros k' Hk'.
    apply list_elem_of_singleton in Hk'. by left. }
  apply NoDup_cons in Hnd as [Hk0 Hnd]. cbn [um_alter].
  destruct (decide (k0 = k)) as [->|Hne].
  - cbn. split; [by apply NoDup_cons|]. intros k' Hk'. by right.
  - destruct (IH Hnd) as [I1 I2]. cbn. split.
    + apply NoDup_cons. split; [|exact I1]. intros Hin.
      destruct (I2 _ Hin) as [->|Hin']; [by apply Hne|by apply Hk0].
    + intros k' Hk'. apply elem_of_cons in Hk' as [->|Hk'].
      * right. apply list_elem_of_here.
      * destruct (I2 _ Hk') as [->|Hin']; [by left|]. right. by apply list_elem_of_further.
Qed.

Lemma total_count_incr (k : string) (m : list (string * Z)) :
  Forall (fun kv => 0 <= kv.2) m -> total_count m + 1 < two64 ->
  total_count (um_alter 0 incr k m) = total_count m + 1
  /\ Forall (fun kv => 0 <= kv.2) (um_alter 0 incr k m).
Proof.
  induction m as [|[k0 v0] m IH]; intros Hm Hb.
  { split; [reflexivity|]. repeat constructor. change (0 <= 1). lia. }
  apply Forall_cons in Hm as [Hv Hm]. cbn [snd] in Hv.
  assert (0 <= total_count m) as Ht.
  { clear -Hm. induction Hm as [|x l Hx Hl IHl]; cbn; [lia|]. fold (total_count l). lia. }
  cbn [total_count foldr snd] in Hb. fold (total_count m) in Hb.
  cbn [um_alter]. destruct (decide (k0 = k)) as [->|Hne].
  - cbn [total_count foldr snd]. fold (total_count m).
    assert (incr v0 = v0 + 1) as ->.
    { unfold incr, add64, wrap64. apply Z.mod_small. lia. }
    split; [lia|]. constructor; [cbn; lia|exact Hm].
  - destruct (IH Hm ltac:(lia)) as [I1 I2].
    cbn [total_count foldr snd]. fold (total_count (um_alter 0 incr k m)). rewrite I1.
    fold (total_count m). split; [lia|]. constructor; [exact Hv|exact I2].
Qed.

Record counted (this : GenericGraphReader.t) (n : Z) : Prop := {
  counted_keys : NoDup (GenericGraphReader.node_types this).*1;
  counted_nonneg : Forall (fun kv => 0 <= kv.2) (GenericGraphReader.node_types this);
  counted_total : total_count (GenericGraphReader.node_types this) = n
}.

Lemma observe_counted (this : GenericGraphReader.t) (n : Z) (rows : list observation) :
  counted this n -> n + count_nodes rows < two64 ->
  counted (foldl observe this rows) (n + count_nodes rows).
Proof.
  revert this n. induction rows as [|o rows IH]; intros this n Hc Hb.
  { unfold count_nodes. cbn. rewrite Z.add_0_r. exact Hc. }
  cbn [foldl]. destruct o as [id t|src dst t].
  - unfold count_nodes in *. cbn [List.filter is_node length] in *.
    rewrite Nat2Z.inj_succ in *.
    replace (n + Z.succ (Z.of_nat (length (List.filter is_node rows))))
      with ((n + 1) + Z.of_nat (length (List.filter is_node rows))) by lia.
    apply IH; [|lia]. destruct Hc as [C1 C2 C3].
    destruct (total_count_incr t (GenericGraphReader.node_types this) C2 ltac:(lia)) as [T1 T2].
    constructor; cbn [observe readNode GenericGraphReader.node_types].
    + apply um_alter_keys, C1.
    + exact T2.
    + rewrite T1, C3. reflexivity.
  - unfold count_nodes in *. cbn [List.filter is_node] in *.
    apply IH; [|exact Hb]. destruct Hc as [C1 C2 C3]. constructor; assumption.
Qed.

Lemma fit_counted (rows : list observation) :
  count_nodes rows < two64 -> counted (fit rows) (count_nodes rows).
Proof.
  intros Hb. unfold fit.
  apply (observe_counted GenericGraphReader.new 0 rows); [|lia].
  constructor; cbn; [constructor|constructor|reflexivity].
Qed.

(** *** The node counts of the containers *)

Lemma foldl_preserves {A B} (P : A -> Prop) (f : A -> B -> A) (l : list B) (a : A) :
  (forall a b, P a -> P (f a b)) -> P a -> P (foldl f a l).
Proof. intros Hf. revert a. induction l as [|b l IH]; intros a Ha; cbn; auto. Qed.

Lemma setup_containers_total (this : GenericGraphReader.t) :
  NoDup (GenericGraphReader.node_types this).*1 ->
  total_nodes_of (setup_containers this) = total_count (GenericGraphReader.node_types this).
Proof.
  unfold setup_containers.
  set (ed := foldl _ [] (GenericGraphReader.edge_colors this)).
  generalize (GenericGraphReader.node_types this). intros m Hm.
  assert (forall (acc : nt_containers_t),
            (forall k, k ∈ m.*1 -> k ∉ acc.*1) ->
            total_nodes_of
              (foldl (fun nt '(n_type, cnt) =>
                        um_set n_type
                          {| node_count := cnt; Fitter.node_type := n_type; edge_data := ed |} nt)
                     acc m)
            = total_nodes_of acc + total_count m) as H.
  { induction m as [|[k v] m IH]; intros acc Hacc.
    { cbn [foldl total_count foldr]. lia. }
    apply NoDup_cons in Hm as [Hk Hm]. cbn [foldl].
    assert (um_set k {| node_count := v; Fitter.node_type := k; edge_data := ed |} acc
            = acc ++ [(k, {| node_count := v; Fitter.node_type := k; edge_data := ed |})])
      as Hset.
    { assert (k ∉ acc.*1) as Hn by (apply Hacc, list_elem_of_here).
      clear -Hn. unfold um_set. induction acc as [|[k0 c0] acc IHa]; [reflexivity|].
      cbn [um_alter]. destruct (decide (k0 = k)) as [->|Hne].
      - exfalso. apply Hn. cbn. apply list_elem_of_here.
      - cbn. rewrite IHa; [reflexivity|]. intros Hin. apply Hn. cbn.
        by apply list_elem_of_further. }
    rewrite Hset, IH; [|exact Hm|].
    - unfold total_nodes_of. rewrite fmap_app. cbn [fmap list_fmap snd].
      cbn [total_count foldr snd]. fold (total_count m).
      assert (forall a b, total_nodes (a ++ b) = total_nodes a + total_nodes b) as Happ.
      { intros a b. induction a as [|c a IHa]; cbn; [reflexivity|].
        fold (total_nodes (a ++ b)) (total_nodes a). lia. }
      rewrite Happ. cbn. lia.
    - intros k' Hk' Hin. rewrite fmap_app in Hin. apply elem_of_app in Hin as [Hin|Hin].
      + apply (Hacc k'); [by apply list_elem_of_further|exact Hin].
      + cbn in Hin. apply list_elem_of_singleton in Hin. subst k'. cbn in Hk. by apply Hk. }
  rewrite H; [reflexivity|]. intros k _ Hin. by apply elem_of_nil in Hin.
Qed.

Lemma alter_edge_data_total (f : Edge_Type_Container -> Edge_Type_Container)
    (n_type e_type : string) (nt : nt_containers_t) :
  total_nodes_of (alter_edge_data f n_type e_type nt) = total_nodes_of nt.
Proof.
  unfold alter_edge_data, total_nodes_of.
  induction nt as [|[k c] nt IH]; [reflexivity|].
  cbn [um_alter]. destruct (decide (k = n_type)); cbn; [reflexivity|].
  fold (total_nodes nt.*2). rewrite <- IH. reflexivity.
Qed.

Lemma read_distribution_total
    (add : Z -> Z -> Edge_Type_Container -> Edge_Type_Container)
    (dist : distribution) (nt : nt_containers_t) :
  total_nodes_of (read_distribution add dist nt) = total_nodes_of nt.
Proof.
  unfold read_distribution.
  apply (foldl_preserves (fun x => total_nodes_of x = total_nodes_of nt)); [|reflexivity].
  intros nt1 [n_type e_cont] H1.
  apply (foldl_preserves (fun x => total_nodes_of x = total_nodes_of nt)); [|exact H1].
  intros nt2 [e_type nodes] H2.
  apply (foldl_preserves (fun x => total_nodes_of x = total_nodes_of nt)); [|exact H2].
  intros nt3 [deg amount] H3. rewrite alter_edge_data_total. exact H3.
Qed.

Lemma pad_containers_counts (Sh : Shuffler) (g : sgen Sh) (nt : nt_containers_t) :
  node_count <$> (pad_containers Sh g nt).1.*2 = node_count <$> nt.*2
  /\ Fitter.node_type <$> (pad_containers Sh g nt).1.*2 = Fitter.node_type <$> nt.*2.
Proof.
  revert g. induction nt as [|[k c] nt IH]; intros g; [split; reflexivity|].
  cbn [pad_containers]. destruct (pad_edge_data Sh (node_count c) g (edge_data c)) as [ed g1].
  specialize (IH g1). destruct (pad_containers Sh g1 nt) as [rest g2].
  cbn [fst] in *. destruct IH as [I1 I2]. cbn. rewrite I1, I2. split; reflexivity.
Qed.

Lemma total_nodes_counts (a b : list Node_Type_Container) :
  node_count <$> a = node_count <$> b -> total_nodes a = total_nodes b.
Proof.
  revert b. induction a as [|c a IH]; intros [|d b] H; try discriminate; [reflexivity|].
  injection H as H1 H2. cbn. fold (total_nodes a) (total_nodes b). rewrite H1, (IH b H2).
  reflexivity.
Qed.

Lemma work_container_total (Sh : Shuffler) (this : GenericGraphReader.t) (seed : Z) :
  NoDup (GenericGraphReader.node_types this).*1 ->
  total_nodes (work_container_of Sh this seed)
  = total_count (GenericGraphReader.node_types this).
Proof.
  intros Hnd. unfold work_container_of.
  rewrite (total_nodes_counts _ _ (proj1 (pad_containers_counts Sh _ _))).
  fold (total_nodes_of
          (read_distribution add_out_degree
             (distribution_of (GenericGraphReader.nodes_to_types this)
                (GenericGraphReader.out_degrees this))
             (read_distribution add_in_degree
                (distribution_of (GenericGraphReader.nodes_to_types this)
                   (GenericGraphReader.in_degrees this))
                (setup_containers this)))).
  rewrite !read_distribution_total. apply setup_containers_total, Hnd.
Qed.

Lemma foldl_preserves_elem {A B} (P : A -> Prop) (f : A -> B -> A) (l : list B) (a : A) :
  (forall a b, b ∈ l -> P a -> P (f a b)) -> P a -> P (foldl f a l).
Proof.
  revert a. induction l as [|b l IH]; intros a Hf Ha; [exact Ha|]. cbn [foldl].
  apply IH.
  - intros a' b' Hb'. apply Hf. by apply list_elem_of_further.
  - apply Hf; [apply list_elem_of_here|exact Ha].
Qed.

Lemma um_alter_Forall {V} (P : V -> Prop) (dflt : V) (f : V -> V) (k : string)
    (m : list (string * V)) :
  P (f dflt) -> (forall v, P v -> P (f v)) -> Forall P m.*2 -> Forall P (um_alter dflt f k m).*2.
Proof.
  intros Hd Hf. induction m as [|[k0 v0] m IH]; intros Hm.
  { cbn. by constructor. }
  cbn in Hm. apply Forall_cons in Hm as [Hv Hm]. cbn [um_alter].
  destruct (decide (k0 = k)); cbn; constructor; auto.
Qed.

Lemma setup_containers_nonneg (this : GenericGraphReader.t) :
  Forall (fun kv => 0 <= kv.2) (GenericGraphReader.node_types this) ->
  Forall (fun c => 0 <= node_count c) (setup_containers this).*2.
Proof.
  unfold setup_containers.
  set (ed := foldl _ [] (GenericGraphReader.edge_colors this)).
  intros Hm.
  apply (foldl_preserves_elem
           (fun nt : nt_containers_t => Forall (fun c => 0 <= node_count c) nt.*2)).
  - intros nt [k v] Hin Hnt. rewrite Forall_forall in Hm. specialize (Hm _ Hin). cbn in Hm.
    unfold um_set. apply um_alter_Forall; auto.
  - constructor.
Qed.

Lemma read_distribution_nonneg
    (add : Z -> Z -> Edge_Type_Container -> Edge_Type_Container)
    (dist : distribution) (nt : nt_containers_t) :
  Forall (fun c => 0 <= node_count c) nt.*2 ->
  Forall (fun c => 0 <= node_count c) (read_distribution add dist nt).*2.
Proof.
  unfold read_distribution.
  apply (foldl_preserves (fun x : nt_containers_t => Forall (fun c => 0 <= node_count c) x.*2)).
  intros nt1 [n_type e_cont].
  apply (foldl_preserves (fun x : nt_containers_t => Forall (fun c => 0 <= node_count c) x.*2)).
  intros nt2 [e_type nodes].
  apply (foldl_preserves (fun x : nt_containers_t => Forall (fun c => 0 <= node_count c) x.*2)).
  intros nt3 [deg amount] H3. unfold alter_edge_data.
  apply um_alter_Forall; [cbn; lia|intros v Hv; exact Hv|exact H3].
Qed.

Lemma work_container_nonneg (Sh : Shuffler) (this : GenericGraphReader.t) (seed : Z) :
  Forall (fun kv => 0 <= kv.2) (GenericGraphReader.node_types this) ->
  Forall (fun c => 0 <= node_count c) (work_container_of Sh this seed).
Proof.
  intros Hm. unfold work_container_of.
  match goal with |- Forall _ ?l =>
    assert (Forall (fun z => 0 <= z) (node_count <$> l)) as H; [|rewrite Forall_fmap in H; exact H] end.
  rewrite (proj1 (pad_containers_counts Sh _ _)), Forall_fmap.
  apply read_distribution_nonneg, read_distribution_nonneg, setup_containers_nonneg, Hm.
Qed.

(** *** The rows of the node file *)

Lemma to_NodeID_of_int (z : Z) : 0 <= z < two64 -> to_NodeID (of_int z) = Returned z.
Proof.
  intros Hz. unfold to_NodeID, of_int, inject_Z. cbn [Qnum Qden]. rewrite Z.quot_1_r.
  destruct (0 <=? z) eqn:E1; [|apply Z.leb_gt in E1; lia].
  destruct (z <? two64) eqn:E2; [reflexivity|apply Z.ltb_ge in E2; lia].
Qed.

Lemma Qfloor_of_int (z : Z) : Qfloor (of_int z) = z.
Proof. unfold of_int, inject_Z, Qfloor. apply Z.div_1_r. Qed.

Lemma node_rows_region (c : Node_Type_Container) (s : Z) :
  0 <= s -> 0 <= node_count c -> s + node_count c < two64 - 1 ->
  node_rows (region_record (c, s)) = Some (Returned (rows_of_record (region_record (c, s)))).
Proof.
  intros Hs Hc Hb. unfold node_rows, region_record, rows_of_record, ids_of.
  cbn [startID endID M1.node_type fst snd].
  assert (add64 s (node_count c) = s + node_count c) as ->.
  { unfold add64, wrap64. apply Z.mod_small. lia. }
  unfold convert_start_of_block, convert_end_of_block.
  rewrite !to_NodeID_of_int by lia. cbn [mbind outcome_bind].
  assert (add64 s 1 = s + 1) as ->.
  { unfold add64, wrap64. apply Z.mod_small. lia. }
  rewrite !Qfloor_of_int.
  destruct (s + node_count c <? s + 1) eqn:E1.
  - apply Z.ltb_lt in E1. assert (node_count c = 0) as -> by lia.
    rewrite Z.add_0_r, Z.sub_diag. reflexivity.
  - destruct (s + node_count c =? two64 - 1) eqn:E2; [apply Z.eqb_eq in E2; lia|].
    do 4 f_equal. lia.
Qed.

Lemma node_file_rows_good (l : list Node_Record) :
  Forall (fun n => node_rows n = Some (Returned (rows_of_record n))) l ->
  node_file_rows l = Some (Returned (l ≫= rows_of_record)).
Proof.
  induction 1 as [|n l Hn Hl IH]; [reflexivity|].
  cbn [node_file_rows]. rewrite Hn, IH. reflexivity.
Qed.

Lemma region_records_good (work : list Node_Type_Container) (o : Z) :
  Forall (fun c => 0 <= node_count c) work -> 0 <= o -> o + total_nodes work < two64 - 1 ->
  Forall (fun n => node_rows n = Some (Returned (rows_of_record n)))
         (region_record <$> zip work (region_starts o work))
  /\ ((region_record <$> zip work (region_starts o work)) ≫= rows_of_record).*1
     = seqZ (o + 1) (total_nodes work).
Proof.
  revert o. induction work as [|c work IH]; intros o Hw Ho Hb.
  { split; [constructor|reflexivity]. }
  apply Forall_cons in Hw as [Hc Hw].
  cbn [total_nodes foldr] in Hb |- *. fold (total_nodes work) in Hb |- *.
  assert (0 <= total_nodes work) as Ht.
  { clear -Hw. induction Hw as [|x l Hx Hl IHl]; cbn; [lia|]. fold (total_nodes l). lia. }
  cbn [region_starts zip zip_with]. rewrite fmap_cons.
  assert (add64 o (node_count c) = o + node_count c) as Hadd.
  { unfold add64, wrap64. apply Z.mod_small. lia. }
  rewrite Hadd. destruct (IH (o + node_count c) Hw ltac:(lia) ltac:(lia)) as [I1 I2].
  split.
  - constructor; [apply node_rows_region; lia|exact I1].
  - rewrite bind_cons, fmap_app, I2.
    rewrite (seqZ_app _ (node_count c) (total_nodes work)) by lia.
    f_equal; [|f_equal; lia].
    unfold rows_of_record, ids_of, region_record. cbn [startID endID M1.node_type fst snd].
    rewrite Hadd, !Qfloor_of_int, <- list_fmap_compose.
    replace (o + node_count c - o) with (node_count c) by lia.
    apply list_fmap_id.
Qed.

(** Every node row that was read gets one node id: the node file of a model
    compiled from observations with [n] node rows lists the ids [1 .. n], each
    once. *)
Theorem node_file_of_fitted_model (Sh : Shuffler) (rows : list observation)
    (meta_data : gmap string string) (seed : Z) :
  count_nodes rows < two64 - 1 ->
  exists node_file,
    node_file_rows (nodes (model (process Sh (fit rows) meta_data seed)))
      = Some (Returned node_file)
    /\ node_file.*1 ≡ₚ seqZ 1 (count_nodes rows)
    /\ forall (E : Engine) (fuel : nat) (env : Environment) (node_file_name edge_file_name : string)
             (seed' : Z) (nf : list (Z * string)) (ef : list Edge),
         generate_graph E fuel env node_file_name edge_file_name
           (model (process Sh (fit rows) meta_data seed)) seed' = Some (Returned (nf, ef)) ->
         nf = node_file.
Proof.
  intros Hb. destruct (fit_counted rows ltac:(lia)) as [C1 C2 C3].
  pose proof (work_container_total Sh (fit rows) seed C1) as Ht. rewrite C3 in Ht.
  pose proof (work_container_nonneg Sh (fit rows) seed C2) as Hn.
  assert (nodes (model (process Sh (fit rows) meta_data seed))
          = sort_by Node_Record_lt
              (region_record <$> zip (work_container_of Sh (fit rows) seed)
                                     (region_starts 0 (work_container_of Sh (fit rows) seed))))
    as Hnodes.
  { unfold process. rewrite parse_edge_types_records, parse_nodes_regions. reflexivity. }
  set (work := work_container_of Sh (fit rows) seed) in *.
  destruct (region_records_good work 0 Hn ltac:(lia) ltac:(lia)) as [G1 G2].
  set (regions := region_record <$> zip work (region_starts 0 work)) in *.
  assert (nodes (model (process Sh (fit rows) meta_data seed)) ≡ₚ regions) as Hperm.
  { rewrite Hnodes. apply merge_sort_Permutation. }
  assert (node_file_rows (nodes (model (process Sh (fit rows) meta_data seed)))
          = Some (Returned (nodes (model (process Sh (fit rows) meta_data seed))
                              ≫= rows_of_record))) as Hrows.
  { apply node_file_rows_good. rewrite Hperm. exact G1. }
  eexists. split; [exact Hrows|]. split.
  - rewrite Hperm, G2, Ht. reflexivity.
  - intros E fuel env nfn efn seed' nf ef. unfold generate_graph.
    destruct (negb _); [discriminate|]. destruct (negb _); [discriminate|].
    rewrite Hrows. destruct (convert_records _) as [bd|x|]; try discriminate.
    destruct (edge_types_loop _ _ _ _ _ _) as [[r|x|]|]; try discriminate.
    intros H. injection H as <- _. reflexivity.
Qed.

Lemma node_file_of_fitted_model_witness :
  exists node_file,
    node_file_rows (nodes (model (process minstd_shuffler (fit rows_cycle) ∅ 7)))
      = Some (Returned node_file)
    /\ node_file.*1 ≡ₚ seqZ 1 2.
Proof.
  destruct (node_file_of_fitted_model minstd_shuffler rows_cycle ∅ 7) as (nf & H1 & H2 & _).
  - vm_compute. reflexivity.
  - exists nf. split; [exact H1|exact H2].
Defined.

End node_file.

(** ** Multi-instance generation *)

Section runtime_paths.
Import Num Text Sampler Runtime.

Lemma rsplit_absent (c : ascii) (s : string) : contains c s = false -> rsplit c s = None.
Proof.
  induction s as [|d s IH]; [reflexivity|]. cbn [contains rsplit].
  destruct (Ascii.eqb c d) eqn:E; [discriminate|]. intros H. rewrite (IH H).
  rewrite Ascii.eqb_sym, E. reflexivity.
Qed.

Lemma rsplit_last (c : ascii) (a b : string) :
  contains c b = false -> rsplit c (a +:+ String c b) = Some (a, b).
Proof.
  intros Hb. induction a as [|d a IH].
  - change (rsplit c (String c b) = Some (EmptyString, b)). cbn [rsplit].
    rewrite (rsplit_absent c b Hb), Ascii.eqb_refl. reflexivity.
  - rewrite append_cons. cbn [rsplit]. rewrite IH. reflexivity.
Qed.

Lemma rstrip_keeps (c x : ascii) (s : string) :
  last_char s = Some x -> Ascii.eqb x c = false -> rstrip c s = s.
Proof.
  intros Hl Hx. induction s as [|d s IH]; [reflexivity|].
  cbn [rstrip]. destruct s as [|e s].
  - cbn [rstrip is_empty andb]. injection Hl as ->. rewrite Hx. reflexivity.
  - rewrite IH by exact Hl. reflexivity.
Qed.

(** For a path with a directory part, a stem and an extension, the instance
    path has the same directory and extension and the stem followed by [_i]. *)
Theorem instance_path_keeps_directory (dir stem_ ext : string) (c x : ascii) (i : Z) :
  last_char dir = Some x -> Ascii.eqb x "/" = false ->
  Ascii.eqb c "." = false ->
  contains "/" (String c stem_) = false ->
  contains "/" ext = false -> contains "." ext = false ->
  let p := dir +:+ "/" +:+ String c stem_ +:+ "." +:+ ext in
  parent_path p = dir /\ stem p = String c stem_ /\ extension p = "." +:+ ext
  /\ instance_path p i
     = dir +:+ "/" +:+ String c stem_ +:+ "_" +:+ to_string_u64 i +:+ "." +:+ ext.
Proof.
  intros Hl Hx Hc Hs He1 He2. cbn zeta.
  assert (rsplit "/" (dir +:+ "/" +:+ String c stem_ +:+ "." +:+ ext)
          = Some (dir, String c stem_ +:+ "." +:+ ext)) as Hsplit.
  { apply (rsplit_last "/" dir (String c stem_ +:+ "." +:+ ext)).
    rewrite contains_append, Hs. cbn [orb].
    change ("." +:+ ext) with (String "." ext). cbn [contains]. exact He1. }
  assert (split_extension (String c stem_ +:+ "." +:+ ext) = (String c stem_, "." +:+ ext))
    as Hext.
  { unfold split_extension.
    assert (String.eqb (String c stem_ +:+ "." +:+ ext) "." = false) as ->.
    { rewrite append_cons. cbn [String.eqb]. rewrite Hc. reflexivity. }
    assert (String.eqb (String c stem_ +:+ "." +:+ ext) ".." = false) as ->.
    { rewrite append_cons. cbn [String.eqb]. rewrite Hc. reflexivity. }
    cbn [orb].
    change ("." +:+ ext) with (String "." ext).
    rewrite (rsplit_last "." (String c stem_) ext He2). reflexivity. }
  assert (parent_path (dir +:+ "/" +:+ String c stem_ +:+ "." +:+ ext) = dir) as Hp.
  { unfold parent_path. rewrite Hsplit, (rstrip_keeps "/" x dir Hl Hx).
    destruct dir; [discriminate|reflexivity]. }
  assert (filename (dir +:+ "/" +:+ String c stem_ +:+ "." +:+ ext)
          = String c stem_ +:+ "." +:+ ext) as Hf.
  { unfold filename. rewrite Hsplit. reflexivity. }
  unfold instance_path, stem, extension. rewrite Hp, Hf, Hext. cbn [fst snd].
  repeat split; reflexivity.
Qed.

Lemma instance_path_keeps_directory_witness :
  instance_path "out/run1/nodes.tsv" 3 = "out/run1/nodes_3.tsv".
Proof.
  exact (proj2 (proj2 (proj2
           (instance_path_keeps_directory "out/run1" "odes" "tsv" "n" "1" 3
              eq_refl eq_refl eq_refl eq_refl eq_refl eq_refl)))).
Defined.

Example instance_path_under_root : instance_path "/nodes.tsv" 0 = "//nodes_0.tsv".
Proof. reflexivity. Qed.

(** C9, on the code.  For paths that are bare file names, the parent path is
    empty and the instance paths start with the separator: the two instances
    of [-Generate out_n.tsv out_e.tsv 2] are written to [/out_n_0.tsv],
    [/out_e_0.tsv], [/out_n_1.tsv] and [/out_e_1.tsv], in the root directory
    and not beside [out_n.tsv].  The seeds are the next two draws of the
    runtime's generator. *)
Theorem generate_calls_bare_file_name (E : Engine) (rng_seeds : gen E) :
  parent_path "out_n.tsv" = ""
  /\ (generate_calls E
        {| nodefile_path := "out_n.tsv"; edge_file_path := "out_e.tsv";
           n_to_generate := 2 |} rng_seeds).1
     = [ ("/out_n_0.tsv", "/out_e_0.tsv", (engine_next E rng_seeds).1);
         ("/out_n_1.tsv", "/out_e_1.tsv",
          (engine_next E (engine_next E rng_seeds).2).1) ].
Proof.
  split; [reflexivity|].
  unfold generate_calls. simpl.
  destruct (engine_next E rng_seeds) as [s1 g1]. simpl.
  destruct (engine_next E g1) as [s2 g2]. reflexivity.
Qed.

End runtime_paths.

(** ** The TSV reader *)

Section tsv_rows.
Import Num Text M1 Fitter TSV Statements.

Lemma items_from_field (d : ascii) (cur f r : string) :
  contains d f = false ->
  items_from d cur (f +:+ String d r) = (cur +:+ f) :: items_from d "" r.
Proof.
  revert cur. induction f as [|x f IH]; intros cur;
    [rewrite append_nil_l|rewrite append_cons]; cbn [items_from contains].
  - intros _. rewrite Ascii.eqb_refl. by rewrite append_nil_r.
  - rewrite (Ascii.eqb_sym x d). destruct (Ascii.eqb d x); [discriminate|].
    intros H. rewrite (IH _ H), append_assoc. reflexivity.
Qed.

Lemma items_from_last (d : ascii) (cur f : string) :
  contains d f = false ->
  items_from d cur f = if is_empty (cur +:+ f) then [] else [cur +:+ f].
Proof.
  revert cur. induction f as [|x f IH]; intros cur; cbn [items_from contains].
  - intros _. by rewrite append_nil_r.
  - rewrite (Ascii.eqb_sym x d). destruct (Ascii.eqb d x); [discriminate|].
    intros H. rewrite (IH _ H), append_assoc. reflexivity.
Qed.

Lemma join_cons (d : ascii) (f : string) (rest : list string) :
  rest <> [] -> join d (f :: rest) = f +:+ String d (join d rest).
Proof. destruct rest; [contradiction|reflexivity]. Qed.

(** Splitting a row of fields without the delimiter gives the fields back,
    except for an empty last field, which is dropped. *)
Theorem split_on_char_join (d : ascii) (fields : list string) (last_field : string) :
  Forall (fun f => contains d f = false) fields -> contains d last_field = false ->
  split_on_char (join d (fields ++ [last_field])) d
  = if is_empty last_field then fields else fields ++ [last_field].
Proof.
  intros Hf Hl. unfold split_on_char.
  induction Hf as [|f fields Hd Hf IH].
  - cbn [app join]. rewrite (items_from_last d "" last_field Hl), append_nil_l.
    destruct (is_empty last_field); reflexivity.
  - cbn [app]. rewrite join_cons by (destruct fields; discriminate).
    rewrite (items_from_field d "" f _ Hd), append_nil_l, IH.
    destruct (is_empty last_field); reflexivity.
Qed.

Lemma split_on_char_join_witness :
  split_on_char (join tab (["1"; "A"] ++ [""])) tab = ["1"; "A"]
  /\ split_on_char (join tab (["1"; "A"] ++ ["x"])) tab = ["1"; "A"; "x"].
Proof.
  split.
  - apply (split_on_char_join tab ["1"; "A"] ""); [repeat constructor|reflexivity].
  - apply (split_on_char_join tab ["1"; "A"] "x"); [repeat constructor|reflexivity].
Defined.

(** A row with as many fields as the header has columns is skipped by both
    readers when its last field is empty. *)
Theorem row_with_empty_last_field (this : TSVReader) (fields : list string)
    (model : GenericGraphReader.t) :
  Forall (fun f => contains tab f = false) fields ->
  let raw := join tab (fields ++ [""]) in
  let expected := size_of (fields ++ [""]) in
  node_row this expected model raw = Ok model /\ edge_row this expected model raw = Ok model.
Proof.
  intros Hf. cbn zeta.
  assert (strip_cr (join tab (fields ++ [""])) = join tab (fields ++ [""])) as Hs.
  { apply strip_cr_id. unfold no_cr_end.
    destruct fields as [|f fields] using rev_ind; [reflexivity|].
    clear IHfields. rewrite <- app_assoc. cbn [app].
    assert (forall pre, join tab (pre ++ [f; ""]) = join tab (pre ++ [f]) +:+ String tab "") as Hj.
    { intros pre. induction pre as [|p pre IHp]; [reflexivity|]. cbn [app].
      rewrite !join_cons by (destruct pre; discriminate). rewrite IHp, append_assoc.
      reflexivity. }
    rewrite Hj, last_char_append by reflexivity. reflexivity. }
  unfold node_row, edge_row. rewrite Hs, (split_on_char_join tab fields "" Hf eq_refl).
  cbn [is_empty]. unfold size_of. rewrite length_app. cbn [length].
  assert ((Z.of_nat (length fields) =? Z.of_nat (length fields + 1)) = false) as ->.
  { apply Z.eqb_neq. lia. }
  split; reflexivity.
Qed.

Lemma row_with_empty_last_field_witness :
  node_row (default_reader [] []) 3 GenericGraphReader.new (join tab (["1"; "A"] ++ [""]))
  = Ok GenericGraphReader.new.
Proof.
  apply (proj1 (row_with_empty_last_field (default_reader [] []) ["1"; "A"]
                  GenericGraphReader.new ltac:(repeat constructor))).
Defined.

Lemma append_columns_join (columns : list string) (indices : list Z) (cs : list string)
    (type : string) :
  Forall2 (fun i c => at_index columns i = Ok c) indices cs ->
  append_columns columns indices type
  = Ok (type +:+ foldr (fun c rest => c +:+ "_" +:+ rest) "" cs).
Proof.
  intros H. revert type. induction H as [|i c indices cs Hi H IH]; intros type.
  { cbn. by rewrite append_nil_r. }
  cbn [append_columns foldr]. rewrite Hi. cbn [mbind answer_bind]. rewrite IH.
  rewrite !append_assoc. reflexivity.
Qed.

Lemma underscored_join (cs : list string) :
  cs <> [] ->
  foldr (fun c rest => c +:+ "_" +:+ rest) "" cs = join "_" cs +:+ "_".
Proof.
  induction cs as [|c cs IH]; [contradiction|]. intros _. cbn [foldr].
  destruct cs as [|c' cs]; [reflexivity|].
  rewrite IH by (intros X; discriminate X). rewrite (join_cons "_" c (c' :: cs)) by (intros X; discriminate X).
  rewrite !append_assoc. reflexivity.
Qed.

(** The composite type of a row is its selected columns joined by
    underscores. *)
Theorem composite_type_join (columns : list string) (indices : list Z) (cs : list string) :
  Forall2 (fun i c => at_index columns i = Ok c) indices cs ->
  composite_type columns indices = Ok (join "_" cs).
Proof.
  intros H. unfold composite_type. rewrite (append_columns_join columns indices cs "" H).
  cbn [mbind answer_bind]. rewrite append_nil_l.
  destruct cs as [|c cs]; [reflexivity|].
  rewrite underscored_join by (intros X; discriminate X).
  rewrite is_empty_append. cbn [is_empty]. rewrite andb_false_r.
  f_equal. apply drop_last_snoc.
Qed.

Lemma composite_type_join_witness :
  composite_type ["7"; "person"; "adult"] [1; 2] = Ok "person_adult".
Proof.
  apply (composite_type_join ["7"; "person"; "adult"] [1; 2] ["person"; "adult"]).
  repeat constructor.
Defined.

Lemma at_index_in_range {A} (v : list A) (i : Z) :
  0 <= i < size_of v -> exists a, at_index v i = Ok a.
Proof.
  intros Hi. unfold at_index, size_of in *.
  destruct (i <? 0) eqn:E; [apply Z.ltb_lt in E; lia|].
  destruct (v !! Z.to_nat i) as [a|] eqn:El; [by exists a|].
  apply lookup_ge_None in El. lia.
Qed.

Lemma append_columns_in_range (columns : list string) (indices : list Z) (type : string) :
  Forall (fun i => 0 <= i < size_of columns) indices ->
  exists t, append_columns columns indices type = Ok t.
Proof.
  intros H. revert type. induction H as [|i indices Hi H IH]; intros type.
  { by exists type. }
  cbn [append_columns]. destruct (at_index_in_range columns i Hi) as [c ->].
  cbn [mbind answer_bind]. apply IH.
Qed.

Lemma composite_type_in_range (columns : list string) (indices : list Z) :
  Forall (fun i => 0 <= i < size_of columns) indices ->
  exists t, composite_type columns indices = Ok t.
Proof.
  intros H. unfold composite_type.
  destruct (append_columns_in_range columns indices "" H) as [t ->].
  cbn [mbind answer_bind]. eexists. reflexivity.
Qed.

Lemma max_element_in_range (v : list Z) (n : Z) :
  v <> [] -> Forall (fun i => 0 <= i < n) v ->
  exists highest, max_element v = Ok highest /\ 0 <= highest < n.
Proof.
  intros Hv H. destruct v as [|x v]; [contradiction|]. apply Forall_cons in H as [Hx H].
  cbn [max_element]. eexists. split; [reflexivity|].
  clear Hv. revert x Hx. induction H as [|y v Hy H IH]; intros x Hx; cbn [foldl]; [exact Hx|].
  apply IH. lia.
Qed.

Lemma node_row_in_range (this : TSVReader) (n : Z) (model : GenericGraphReader.t)
    (l : string) :
  0 <= idx_node_id this < n -> Forall (fun i => 0 <= i < n) (idx_node_type this) ->
  if has_columns n l
  then exists node_id node_type, node_row this n model l = Ok (readNode model node_id node_type)
  else node_row this n model l = Ok model.
Proof.
  intros Hid Hty. unfold node_row, has_columns. cbn zeta.
  destruct (size_of (split_on_char (strip_cr l) tab) =? n) eqn:E; cbn [negb]; [|reflexivity].
  apply Z.eqb_eq in E.
  destruct (at_index_in_range (split_on_char (strip_cr l) tab) (idx_node_id this))
    as [node_id ->]; [lia|].
  destruct (composite_type_in_range (split_on_char (strip_cr l) tab) (idx_node_type this))
    as [node_type ->]; [by rewrite E|].
  exists node_id, node_type. reflexivity.
Qed.

Lemma edge_row_in_range (this : TSVReader) (n : Z) (model : GenericGraphReader.t)
    (l : string) :
  0 <= idx_start_node_id this < n -> 0 <= idx_end_node_id this < n ->
  Forall (fun i => 0 <= i < n) (idx_edge_type this) ->
  if has_columns n l
  then exists s e t, edge_row this n model l = Ok (readEdge model s e t)
  else edge_row this n model l = Ok model.
Proof.
  intros Hs He Hty. unfold edge_row, has_columns. cbn zeta.
  destruct (size_of (split_on_char (strip_cr l) tab) =? n) eqn:E; cbn [negb]; [|reflexivity].
  apply Z.eqb_eq in E.
  destruct (at_index_in_range (split_on_char (strip_cr l) tab) (idx_start_node_id this))
    as [s ->]; [lia|].
  destruct (at_index_in_range (split_on_char (strip_cr l) tab) (idx_end_node_id this))
    as [e ->]; [lia|].
  destruct (composite_type_in_range (split_on_char (strip_cr l) tab) (idx_edge_type this))
    as [t ->]; [by rewrite E|].
  exists s, e, t. reflexivity.
Qed.

Lemma node_rows_loop (this : TSVReader) (n : Z) (lines : list string)
    (model : GenericGraphReader.t) :
  0 <= idx_node_id this < n -> Forall (fun i => 0 <= i < n) (idx_node_type this) ->
  exists m, rows_loop (node_row this n) model lines = Ok m
    /\ GenericGraphReader.node_count m
       = Nat.iter (length (List.filter (has_columns n) lines)) incr
                  (GenericGraphReader.node_count model).
Proof.
  intros Hid Hty. revert model. induction lines as [|l lines IH]; intros model.
  { exists model. split; reflexivity. }
  cbn [rows_loop List.filter].
  pose proof (node_row_in_range this n model l Hid Hty) as Hrow.
  destruct (has_columns n l).
  - destruct Hrow as (node_id & node_type & ->). cbn [mbind answer_bind].
    destruct (IH (readNode model node_id node_type)) as (m & R1 & R2).
    exists m. split; [exact R1|]. rewrite R2. cbn [length readNode GenericGraphReader.node_count].
    rewrite Nat.iter_succ_r. reflexivity.
  - rewrite Hrow. cbn [mbind answer_bind]. apply IH.
Qed.

Lemma edge_rows_loop (this : TSVReader) (n : Z) (lines : list string)
    (model : GenericGraphReader.t) :
  0 <= idx_start_node_id this < n -> 0 <= idx_end_node_id this < n ->
  Forall (fun i => 0 <= i < n) (idx_edge_type this) ->
  exists m, rows_loop (edge_row this n) model lines = Ok m
    /\ GenericGraphReader.node_count m = GenericGraphReader.node_count model.
Proof.
  intros Hs He Hty. revert model. induction lines as [|l lines IH]; intros model.
  { exists model. split; reflexivity. }
  cbn [rows_loop].
  pose proof (edge_row_in_range this n model l Hs He Hty) as Hrow.
  destruct (has_columns n l).
  - destruct Hrow as (s & e & t & ->). cbn [mbind answer_bind].
    destruct (IH (readEdge model s e t)) as (m & R1 & R2). exists m. split; [exact R1|].
    rewrite R2. reflexivity.
  - rewrite Hrow. cbn [mbind answer_bind]. apply IH.
Qed.

(** Once the header of a file has a column for every configured index, no
    data row can make the read fail.  A node file adds one node for each row
    that has as many columns as the header, and an edge file adds none. *)
Theorem read_file_rows (this : TSVReader) (content : string) (model : GenericGraphReader.t) :
  let lines := getlines content in
  let n := size_of (split_on_char (header_of lines) tab) in
  (0 <= idx_node_id this < n -> idx_node_type this <> [] ->
   Forall (fun i => 0 <= i < n) (idx_node_type this) ->
   exists m, read_node_file this content model = Ok m
     /\ GenericGraphReader.node_count m
        = Nat.iter (length (List.filter (has_columns n) (tail lines))) incr
                   (GenericGraphReader.node_count model))
  /\ (0 <= idx_start_node_id this < n -> 0 <= idx_end_node_id this < n ->
      idx_edge_type this <> [] -> Forall (fun i => 0 <= i < n) (idx_edge_type this) ->
      exists m, read_edge_file this content model = Ok m
        /\ GenericGraphReader.node_count m = GenericGraphReader.node_count model).
Proof.
  cbn zeta. split.
  - intros Hid Hne Hty. unfold read_node_file.
    destruct (_ <=? idx_node_id this) eqn:E1; [apply Z.leb_le in E1; lia|].
    destruct (max_element_in_range _ _ Hne Hty) as (highest & -> & Hh).
    cbn [mbind answer_bind].
    destruct (_ <=? highest) eqn:E2; [apply Z.leb_le in E2; lia|].
    apply node_rows_loop; assumption.
  - intros Hs He Hne Hty. unfold read_edge_file.
    destruct (_ <=? idx_start_node_id this) eqn:E1; [apply Z.leb_le in E1; lia|].
    destruct (_ <=? idx_end_node_id this) eqn:E2; [apply Z.leb_le in E2; lia|].
    destruct (max_element_in_range _ _ Hne Hty) as (highest & -> & Hh).
    cbn [mbind answer_bind].
    destruct (_ <=? highest) eqn:E3; [apply Z.leb_le in E3; lia|].
    apply edge_rows_loop; assumption.
Qed.

Lemma read_file_rows_witness :
  exists m, read_node_file (default_reader [] []) small_node_file GenericGraphReader.new = Ok m
    /\ GenericGraphReader.node_count m = 3.
Proof.
  destruct (proj1 (read_file_rows (default_reader [] []) small_node_file
                     GenericGraphReader.new)) as (m & R1 & R2).
  - vm_compute. split; [discriminate|reflexivity].
  - discriminate.
  - repeat constructor; vm_compute; discriminate || reflexivity.
  - exists m. split; [exact R1|]. rewrite R2. vm_compute. reflexivity.
Defined.

End tsv_rows.

(** ** The script format *)

Ltac zlia :=
  repeat match goal with
         | H : (_ <=? _) = true |- _ => apply Z.leb_le in H
         | H : (_ <=? _) = false |- _ => apply Z.leb_gt in H
         | H : (_ <? _) = true |- _ => apply Z.ltb_lt in H
         | H : (_ <? _) = false |- _ => apply Z.ltb_ge in H
         end; lia.

Section script_text.
Import Num Text Script Program Statements.

Lemma sdrop_append (a b : string) : sdrop (String.length a) (a +:+ b) = b.
Proof. induction a as [|x a IH]; [by destruct b|]. rewrite append_cons. exact IH. Qed.

Lemma sdrop_add (n k : nat) (s : string) : sdrop (n + k) s = sdrop k (sdrop n s).
Proof.
  revert s. induction n as [|n IH]; intros s; [by destruct s|].
  destruct s as [|c s]; [by destruct k|]. exact (IH s).
Qed.

Lemma sdrop_nil (n : nat) : sdrop n "" = "".
Proof. by destruct n. Qed.

Lemma stake_append (a b : string) (k : nat) :
  stake (String.length a + k) (a +:+ b) = a +:+ stake k b.
Proof. induction a as [|x a IH]; [reflexivity|]. rewrite !append_cons. simpl. by rewrite IH. Qed.

Lemma stake_sdrop (k : nat) (s : string) : stake k s +:+ sdrop k s = s.
Proof.
  revert s. induction k as [|k IH]; intros [|c s]; try reflexivity.
  cbn [stake sdrop]. by rewrite append_cons, IH.
Qed.

Lemma stake_length (k : nat) (s : string) :
  (k <= String.length s)%nat -> String.length (stake k s) = k.
Proof.
  revert s. induction k as [|k IH]; intros [|c s] H; cbn in *; try lia.
  rewrite IH; lia.
Qed.

Lemma sdrop_length (k : nat) (s : string) :
  String.length (sdrop k s) = (String.length s - k)%nat.
Proof.
  revert s. induction k as [|k IH]; intros [|c s]; cbn; try lia. apply IH.
Qed.

Lemma replaced_skip (search replace s : string) (k : nat) :
  replaced search replace s k = replaced search replace (sdrop k s) 0.
Proof.
  revert k. induction s as [|c s IH]; intros [|k]; try reflexivity. cbn. apply IH.
Qed.

(** What [find] tells about the text from the position on. *)
Lemma find_at_None (search replace s : string) (i : nat) :
  find_at search s i = None -> replaced search replace s 0 = s.
Proof.
  revert i. induction s as [|c s IH]; intros i; [reflexivity|].
  cbn [find_at replaced]. destruct (String.prefix search (String c s)); [discriminate|].
  intros H. by rewrite (IH _ H).
Qed.

Lemma find_at_Some (search replace s : string) (i p : nat) :
  search <> "" -> find_at search s i = Some p ->
  exists k, p = (i + k)%nat /\ (k + String.length search <= String.length s)%nat
    /\ replaced search replace s 0
       = stake k s +:+ replace
           +:+ replaced search replace (sdrop (k + String.length search) s) 0.
Proof.
  intros Hs. revert i. induction s as [|c s IH]; intros i.
  - cbn. destruct search; [done|discriminate].
  - cbn [find_at replaced]. destruct (String.prefix search (String c s)) eqn:Ep.
    + intros [= <-]. exists 0%nat. split; [lia|]. split.
      * apply String.prefix_correct in Ep. cbn [Nat.add].
        assert (String.length (substring 0 (String.length search) (String c s))
                = String.length search) as <- by (by rewrite Ep).
        clear. generalize (String.length search) as n. generalize (String c s) as t.
        induction t as [|x t IH]; intros [|n]; cbn; try lia. specialize (IH n). lia.
      * cbn [stake Nat.add]. rewrite append_nil_l. f_equal. rewrite replaced_skip.
        destruct search as [|x search]; [done|]. cbn [String.length sdrop].
        replace (S (String.length search) - 1)%nat with (String.length search) by lia.
        reflexivity.
    + intros H. destruct (IH _ H) as (k & -> & Hk & Hr).
      exists (S k). split; [lia|]. split; [cbn; lia|].
      cbn [stake Nat.add sdrop]. rewrite append_cons. f_equal. exact Hr.
Qed.

Lemma replace_loop_replaced (search replace : string) (n : nat) :
  search <> "" ->
  forall (fuel : nat) (pre rest : string),
    (String.length rest <= n)%nat -> (n < fuel)%nat ->
    replace_loop fuel search replace (pre +:+ rest) (String.length pre)
    = Some (pre +:+ replaced search replace rest 0).
Proof.
  intros Hs. induction n as [n IH] using lt_wf_ind. intros fuel pre rest Hn Hf.
  destruct fuel as [|fuel]; [lia|]. cbn [replace_loop]. unfold find.
  rewrite length_append.
  destruct (String.length pre + String.length rest <? String.length pre)%nat eqn:El;
    [apply Nat.ltb_lt in El; lia|].
  rewrite sdrop_append.
  destruct (find_at search rest (String.length pre)) as [p|] eqn:Ef.
  - destruct (find_at_Some search replace rest _ _ Hs Ef) as (k & -> & Hk & Hr).
    assert (0 < String.length search)%nat as Hpos
      by (destruct search; [done|cbn; lia]).
    destruct (String.length pre <? String.length pre + String.length rest)%nat eqn:E2;
      [|apply Nat.ltb_ge in E2; lia].
    unfold replace_at. rewrite stake_append.
    rewrite <- Nat.add_assoc, sdrop_add, sdrop_append.
    rewrite <- !append_assoc.
    replace (String.length pre + k + String.length replace)%nat
      with (String.length ((pre +:+ stake k rest) +:+ replace))
      by (rewrite !length_append, stake_length; lia).
    rewrite (IH (String.length (sdrop (k + String.length search) rest))).
    + rewrite Hr, !append_assoc. reflexivity.
    + rewrite sdrop_length. lia.
    + reflexivity.
    + rewrite sdrop_length. lia.
  - by rewrite (find_at_None _ replace _ _ Ef).
Qed.

(** With a search string that is not empty, [inplace_replaceAll] ends within
    one turn for each character of the target and one more, and leaves the
    target with every occurrence replaced, from left to right; the text put
    in is not searched again. *)
Theorem inplace_replaceAll_replaced (search_str replace_str target_str : string) (fuel : nat) :
  search_str <> "" -> (String.length target_str < fuel)%nat ->
  inplace_replaceAll fuel search_str replace_str target_str
  = Some (replaced search_str replace_str target_str 0).
Proof.
  intros Hs Hf.
  exact (replace_loop_replaced search_str replace_str (String.length target_str) Hs
           fuel "" target_str (Nat.le_refl _) Hf).
Qed.

(** Empty search: after each turn the target has grown by the replacement and
    the position stands before the old target. *)
Lemma replace_loop_empty (replace rest : string) (fuel : nat) :
  rest <> "" -> forall pre,
  replace_loop fuel "" replace (pre +:+ rest) (String.length pre) = None.
Proof.
  intros Hr. induction fuel as [|fuel IH]; intros pre; [reflexivity|].
  cbn [replace_loop]. unfold find. rewrite length_append.
  destruct (String.length pre + String.length rest <? String.length pre)%nat eqn:El;
    [apply Nat.ltb_lt in El; lia|].
  rewrite sdrop_append.
  assert (find_at "" rest (String.length pre) = Some (String.length pre)) as ->
    by (by destruct rest).
  assert (0 < String.length rest)%nat by (destruct rest; [done|cbn; lia]).
  destruct (String.length pre <? String.length pre + String.length rest)%nat eqn:E2;
    [|apply Nat.ltb_ge in E2; lia].
  unfold replace_at. cbn [String.length].
  rewrite <- (Nat.add_0_r (String.length pre)) at 1. rewrite stake_append.
  cbn [stake]. rewrite append_nil_r, Nat.add_0_r, sdrop_append.
  rewrite <- append_assoc, <- length_append. apply IH.
Qed.

Lemma inplace_replaceAll_replaced_witness :
  inplace_replaceAll 7 "an" "ann" "banana" = Some "bannanna".
Proof.
  apply (inplace_replaceAll_replaced "an" "ann" "banana" 7); [discriminate|cbn; lia].
Defined.

(** With an empty search string and a target that is not empty, the loop of
    [inplace_replaceAll] never ends: no number of turns is enough. *)
Theorem inplace_replaceAll_empty_search (replace_str target_str : string) (fuel : nat) :
  target_str <> "" -> inplace_replaceAll fuel "" replace_str target_str = None.
Proof. intros H. exact (replace_loop_empty replace_str target_str fuel H ""). Qed.

Lemma inplace_replaceAll_empty_search_witness :
  inplace_replaceAll 1000 "" "x" "-help" = None.
Proof. apply (inplace_replaceAll_empty_search "x" "-help" 1000). discriminate. Defined.

End script_text.

Section script_tokens.
Import Num Text Script Program Statements.

Lemma append_arguments_pieces (s : string) (args : list string) :
  append_arguments s args = s +:+ foldr (fun a t => piece a +:+ t) "" args.
Proof.
  revert s. induction args as [|a args IH]; intros s; cbn [append_arguments foldr].
  - by rewrite append_nil_r.
  - rewrite IH. unfold piece.
    destruct (Ascii.eqb (first_char a) "-" || Ascii.eqb (first_char a) "+");
      rewrite !append_assoc; reflexivity.
Qed.

Lemma lex_append (st : lexer) (a b : string) : lex st (a +:+ b) = lex (lex st a) b.
Proof.
  revert st. induction a as [|c a IH]; intros st; [reflexivity|].
  rewrite append_cons. cbn [lex]. apply IH.
Qed.

Lemma push_back_append (b : string) (c : ascii) (r : string) :
  push_back b c +:+ r = b +:+ String c r.
Proof. unfold push_back. by rewrite append_assoc. Qed.

(** Inside a token every character but white space is kept. *)
Lemma lex_token (toks : list string) (buf w : string) :
  no_blank w = true ->
  lex {| e_mode := Escape_Inactive; r_mode := ReadToken; raw_tokens := toks; buffer := buf |} w
  = {| e_mode := Escape_Inactive; r_mode := ReadToken; raw_tokens := toks;
       buffer := buf +:+ w |}.
Proof.
  revert buf. induction w as [|c w IH]; intros buf; cbn [lex no_blank all_chars].
  - by rewrite append_nil_r.
  - intros H. apply andb_true_iff in H as [Hc Hw]. unfold lex_char. cbn.
    apply negb_true_iff in Hc. rewrite Hc. fold (no_blank w) in Hw.
    rewrite (IH _ Hw), push_back_append. reflexivity.
Qed.

(** Between quotation marks every character but the mark is kept. *)
Lemma lex_quoted (toks : list string) (buf w : string) :
  contains quote w = false ->
  lex {| e_mode := Escape_Active; r_mode := ReadToken; raw_tokens := toks; buffer := buf |} w
  = {| e_mode := Escape_Active; r_mode := ReadToken; raw_tokens := toks;
       buffer := buf +:+ w |}.
Proof.
  revert buf. induction w as [|c w IH]; intros buf; cbn [lex contains].
  - by rewrite append_nil_r.
  - rewrite (Ascii.eqb_sym quote c). unfold lex_char. cbn.
    destruct (Ascii.eqb c quote); [discriminate|]. intros Hw.
    rewrite (IH _ Hw), push_back_append. reflexivity.
Qed.

Lemma lex_piece (toks : list string) (buf arg : string) :
  passes arg = true ->
  lex {| e_mode := Escape_Inactive; r_mode := ReadToken; raw_tokens := toks; buffer := buf |}
      (piece arg)
  = {| e_mode := Escape_Inactive; r_mode := ReadToken; raw_tokens := toks ++ [buf];
       buffer := arg |}.
Proof.
  unfold passes, piece.
  destruct (Ascii.eqb (first_char arg) "-" || Ascii.eqb (first_char arg) "+") eqn:Et.
  - intros Hw. destruct arg as [|c w]; [discriminate|]. cbn [lex].
    cbn [no_blank all_chars] in Hw. apply andb_true_iff in Hw as [Hc Hw].
    apply negb_true_iff in Hc. unfold lex_char. cbn. rewrite Hc.
    assert (Ascii.eqb c quote = false) as ->.
    { cbn in Et. destruct (Ascii.eqb c "-") eqn:E1.
      - apply Ascii.eqb_eq in E1. by subst.
      - destruct (Ascii.eqb c "+") eqn:E2; [|discriminate].
        apply Ascii.eqb_eq in E2. by subst. }
    fold (no_blank w) in Hw. rewrite (lex_token _ _ _ Hw). reflexivity.
  - intros Hq. apply negb_true_iff in Hq. rewrite !append_cons. cbn [lex].
    unfold lex_char. cbn.
    rewrite lex_append, (lex_quoted _ _ _ Hq). reflexivity.
Qed.

Lemma lex_pieces (rest : list string) :
  Forall (fun a => passes a = true) rest ->
  forall (toks : list string) (buf : string),
  finish_lex
    (lex {| e_mode := Escape_Inactive; r_mode := ReadToken; raw_tokens := toks;
            buffer := buf |}
         (foldr (fun a t => piece a +:+ t) "" rest))
  = Ok (classify <$> toks ++ without_empty_last (buf :: rest)).
Proof.
  induction 1 as [|a rest Ha _ IH]; intros toks buf; cbn [foldr].
  - cbn. by destruct buf; rewrite ?app_nil_r.
  - rewrite lex_append, (lex_piece _ _ _ Ha), IH, <- app_assoc. reflexivity.
Qed.

Lemma tokenize_command_line (first : string) (rest : list string) (fuel : nat) :
  word first = true -> Forall (fun a => passes a = true) rest ->
  tokenize_s1 fuel (append_arguments first rest) []
  = Some (Ok (classify <$> without_empty_last (first :: rest))).
Proof.
  intros Hw Hr. unfold tokenize_s1. cbn [apply_replaces]. f_equal.
  rewrite append_arguments_pieces, lex_append.
  unfold word in Hw. apply andb_true_iff in Hw as [Hw Hb].
  apply andb_true_iff in Hw as [He Hq].
  destruct first as [|c w]; [discriminate|].
  cbn [no_blank all_chars] in Hb. apply andb_true_iff in Hb as [Hc Hb].
  apply negb_true_iff in Hc, Hq. cbn in Hq.
  cbn [lex]. unfold lex_char. cbn. rewrite Hq, Hc.
  fold (no_blank w) in Hb. rewrite (lex_token _ _ _ Hb).
  rewrite lex_pieces by exact Hr. reflexivity.
Qed.

(** The arguments of the command line arrive at the parser one token each,
    white space inside an argument included, when the first holds no white
    space and no quotation mark in front, the ones that start with [-] or [+]
    hold no white space and the others no quotation mark; only an empty last
    argument is lost. *)
Theorem command_line_tokens (first : string) (rest : list string) (fuel : nat) :
  word first = true -> Forall (fun a => passes a = true) rest ->
  tokenize_s1 fuel (append_arguments first rest) []
  = Some (Ok (classify <$> without_empty_last (first :: rest))).
Proof. apply tokenize_command_line. Qed.

Lemma command_line_tokens_witness :
  tokenize_s1 0 (append_arguments "-load" ["my model.m1"; "-Scale"; "2"; ""]) []
  = Some (Ok [(TTag, "-LOAD"); (TArgument, "my model.m1"); (TTag, "-SCALE");
              (TArgument, "2")]).
Proof.
  apply (command_line_tokens "-load" ["my model.m1"; "-Scale"; "2"; ""] 0);
    [reflexivity|repeat constructor].
Defined.

End script_tokens.

Section script_parser.
Import Num Text Runtime Script Program Statements.

Lemma scan_bounds (stop : token -> bool) (rest : list token) (idx : Z) :
  idx <= scan stop rest idx <= idx + Z.of_nat (length rest).
Proof.
  revert idx. induction rest as [|t rest IH]; intros idx; cbn [scan length]; [lia|].
  destruct (stop t); [lia|]. specialize (IH (idx + 1)). lia.
Qed.

Lemma scan_from_bounds (stop : token -> bool) (tokens : list token) (idx : Z) :
  0 <= idx ->
  idx <= scan_from stop tokens idx <= Z.max idx (Z.of_nat (length tokens)).
Proof.
  intros H. unfold scan_from.
  pose proof (scan_bounds stop (drop (Z.to_nat idx) tokens) idx) as Hb.
  rewrite length_drop in Hb. lia.
Qed.











Lemma parse_loop_S (fuel : nat) (tokens : list token) (current_idx : Z)
    (instructions : list Instruction) :
  parse_loop (S fuel) tokens current_idx instructions
  = if Z.of_nat (length tokens) <=? current_idx then Some (Ok instructions)
    else
      match at_index tokens current_idx with
      | Ok t =>
          if is_tag t then
            let idx_end_of_instruction := scan_from is_tag tokens (current_idx + 1) - 1 in
            match instruction_at fuel tokens current_idx idx_end_of_instruction t.2 with
            | Some (Ok instr) =>
                parse_loop fuel tokens (idx_end_of_instruction + 1) (instructions ++ [instr])
            | Some (Raise e) => Some (Raise e)
            | Some UB => Some UB
            | None => None
            end
          else Some (m ← token_text t; Raise (Unexpected_token_type m))
      | Raise e => Some (Raise e)
      | UB => Some UB
      end.
Proof. reflexivity. Qed.

Section trailing_tag.

Variable tokens : list token.
Variable last_token : token.
Hypothesis last_is_tag : last_token.1 = TTag.

Let ext := tokens ++ [last_token].

Lemma at_index_ext {A} (v w : list A) (k : Z) (x : A) :
  at_index v k = Ok x -> at_index (v ++ w) k = Ok x.
Proof.
  unfold at_index. destruct (k <? 0); [discriminate|].
  destruct (v !! Z.to_nat k) eqn:E; [|discriminate].
  intros [= <-]. by rewrite (lookup_app_l_Some _ _ _ _ E).
Qed.

Lemma at_index_tokens (k : Z) (x : token) :
  at_index tokens k = Ok x -> at_index ext k = Ok x.
Proof. apply at_index_ext. Qed.

Lemma scan_ext (stop : token -> bool) (rest : list token) (idx : Z) :
  stop last_token = true -> scan stop (rest ++ [last_token]) idx = scan stop rest idx.
Proof.
  intros Hs. revert idx. induction rest as [|t rest IH]; intros idx; cbn [scan app].
  - by rewrite Hs.
  - destruct (stop t); [reflexivity|apply IH].
Qed.

Lemma scan_from_ext (stop : token -> bool) (idx : Z) :
  stop last_token = true -> scan_from stop ext idx = scan_from stop tokens idx.
Proof.
  intros Hs. unfold scan_from, ext.
  destruct (decide (Z.to_nat idx <= length tokens)%nat) as [Hl|Hl].
  - rewrite drop_app_le by exact Hl. by apply scan_ext.
  - rewrite !drop_ge; [reflexivity|lia|rewrite length_app; cbn; lia].
Qed.

Lemma stop_tag : is_tag last_token = true.
Proof. unfold is_tag. by rewrite last_is_tag. Qed.

Lemma stop_tag_or_subtag : is_tag_or_subtag last_token = true.
Proof. unfold is_tag_or_subtag. by rewrite last_is_tag. Qed.

Ltac ext_step t :=
  match goal with
  | |- context [at_index tokens ?k] =>
      let E := fresh "E" in
      destruct (at_index tokens k) as [t| |] eqn:E; cbn; try discriminate;
      rewrite (at_index_tokens _ _ E); cbn
  end.

Lemma path_arguments_ext (turns : nat) (arg_idx : Z) (paths res : list string) :
  path_arguments turns tokens arg_idx paths = Ok res ->
  path_arguments turns ext arg_idx paths = Ok res.
Proof.
  revert arg_idx paths. induction turns as [|turns IH]; intros arg_idx paths;
    cbn [path_arguments]; [done|]. ext_step t.
  destruct t.1; cbn; try (by destruct (token_text t)). apply IH.
Qed.

Lemma index_arguments_ext (turns : nat) (arg_idx : Z) (instruction : string)
    (indices : list Z) (flag : bool) (res : list Z * bool) :
  index_arguments turns tokens arg_idx instruction indices flag = Ok res ->
  index_arguments turns ext arg_idx instruction indices flag = Ok res.
Proof.
  revert arg_idx indices flag. induction turns as [|turns IH]; intros arg_idx indices flag;
    cbn [index_arguments]; [done|]. ext_step t.
  destruct t.1; cbn; try (by destruct (token_text t)).
  destruct (stoul t.2); [|discriminate]. apply IH.
Qed.

Lemma template_arguments_ext (turns : nat) (arg_idx : Z) (pairs res : list (string * string)) :
  template_arguments turns tokens arg_idx pairs = Ok res ->
  template_arguments turns ext arg_idx pairs = Ok res.
Proof.
  revert arg_idx pairs. induction turns as [|turns IH]; intros arg_idx pairs;
    cbn [template_arguments]; [done|]. ext_step t.
  destruct (Token_Type_eqb t.1 TArgument); [|by destruct (token_text t)].
  ext_step t0.
  destruct (Token_Type_eqb t0.1 TArgument); [|by destruct (token_text t)]. apply IH.
Qed.

Lemma bind_Ok {A B} (x : answer A) (f : A -> answer B) (b : B) :
  x ≫= f = Ok b -> exists a, x = Ok a /\ f a = Ok b.
Proof. destruct x as [a| |]; cbn; try discriminate. intros H. by exists a. Qed.

Lemma sub_instruction_ext (sub idx_end : Z) (st st' : read_state) :
  sub_instruction tokens sub idx_end st = Ok st' ->
  sub_instruction ext sub idx_end st = Ok st'.
Proof.
  unfold sub_instruction. ext_step t.
  repeat match goal with
         | |- context [String.eqb ?a ?b] => destruct (String.eqb a b)
         end.
  - intros H. apply bind_Ok in H as (paths & H & E1).
    by rewrite (path_arguments_ext _ _ _ _ H).
  - intros H. apply bind_Ok in H as (paths & H & E1).
    by rewrite (path_arguments_ext _ _ _ _ H).
  - ext_step u1. done.
  - intros H. apply bind_Ok in H as (paths & H & E1).
    by rewrite (index_arguments_ext _ _ _ _ _ _ H).
  - ext_step u2. destruct (s1_check_parse_valid _ _ _ _ _); cbn; try discriminate.
    ext_step u3. done.
  - intros H. apply bind_Ok in H as (paths & H & E1).
    by rewrite (index_arguments_ext _ _ _ _ _ _ H).
  - ext_step u4. destruct (s1_check_parse_valid _ _ _ _ _); cbn; try discriminate.
    ext_step u5. done.
  - by destruct (token_text t).
Qed.

Lemma sub_instructions_ext (idx_end : Z) (fuel : nat) :
  forall (sub : Z) (st st' : read_state),
    sub_instructions fuel tokens sub idx_end st = Some (Ok st') ->
    sub_instructions (S fuel) ext sub idx_end st = Some (Ok st').
Proof.
  induction fuel as [|fuel IH]; intros sub st st'; cbn [sub_instructions];
    destruct (idx_end <? sub); try done.
  rewrite (scan_from_ext _ _ stop_tag_or_subtag).
  destruct (sub_instruction tokens sub _ st) as [st1| |] eqn:Es; try discriminate.
  rewrite (sub_instruction_ext _ _ _ _ Es). intros H.
  specialize (IH _ _ _ H). exact IH.
Qed.

Lemma instruction_at_ext (fuel : nat) (current_idx idx_end : Z) (tag : string)
    (instr : Instruction) :
  instruction_at fuel tokens current_idx idx_end tag = Some (Ok instr) ->
  instruction_at (S fuel) ext current_idx idx_end tag = Some (Ok instr).
Proof.
  unfold instruction_at.
  repeat match goal with
         | |- context [String.eqb ?a ?b] => destruct (String.eqb a b)
         end; try done.
  - destruct (sub_instructions fuel tokens _ _ _) as [[st| |]|] eqn:Es; try discriminate.
    by rewrite (sub_instructions_ext _ _ _ _ _ Es).
  - destruct (_ || _); [done|]. intros [= H]. f_equal. revert H.
    ext_step u6. destruct (negb _); [done|].
    intros H. apply bind_Ok in H as (pairs & H & E1).
    by rewrite (template_arguments_ext _ _ _ _ H).
  - intros [= H]. f_equal. revert H. ext_step u7. done.
  - intros [= H]. f_equal. revert H. ext_step u8. done.
  - intros [= H]. f_equal. revert H. ext_step u9. done.
  - intros [= H]. f_equal. revert H. ext_step u10. done.
  - intros [= H]. f_equal. revert H. ext_step u11.
    destruct (s1_check_parse_valid _ _ _ _ _); cbn; try discriminate.
    ext_step u12.
    destruct (negb _); cbn; try discriminate.
    ext_step u13. done.
Qed.

(** The loop over the tags reaches the added tag with the instructions of
    the tokens before it. *)
Lemma parse_loop_ext (instrs : list Instruction) (fuel : nat) :
  forall (current_idx : Z) (acc : list Instruction),
    0 <= current_idx <= Z.of_nat (length tokens) ->
    parse_loop fuel tokens current_idx acc = Some (Ok instrs) ->
    exists k, parse_loop (S fuel) ext current_idx acc
              = parse_loop (S k) ext (Z.of_nat (length tokens)) instrs.
Proof.
  induction fuel as [|fuel IH]; intros cur acc Hc.
  - cbn [parse_loop]. destruct (Z.of_nat (length tokens) <=? cur) eqn:E; [|discriminate].
    intros [= <-]. exists 0%nat. by replace cur with (Z.of_nat (length tokens)) by lia.
  - rewrite (parse_loop_S fuel tokens).
    destruct (Z.of_nat (length tokens) <=? cur) eqn:E.
    + intros [= <-]. exists (S fuel). by replace cur with (Z.of_nat (length tokens)) by lia.
    + destruct (at_index tokens cur) as [t| |] eqn:Et; try discriminate.
      destruct (is_tag t) eqn:Ei; [|by destruct (token_text t)].
      cbn zeta.
      destruct (instruction_at fuel tokens cur _ t.2) as [[instr| |]|] eqn:Ea;
        try discriminate.
      intros H.
      pose proof (scan_from_bounds is_tag tokens (cur + 1) ltac:(lia)) as Hb.
      apply IH in H as [k Hk]; [|lia]. exists k. rewrite <- Hk.
      rewrite (parse_loop_S (S fuel) ext). unfold ext at 1. rewrite length_app. cbn [length].
      destruct (Z.of_nat (length tokens + 1) <=? cur) eqn:E2; [zlia|].
      rewrite (at_index_tokens _ _ Et), Ei.
      cbn zeta.
      rewrite (scan_from_ext _ _ stop_tag), (instruction_at_ext _ _ _ _ _ Ea).
      reflexivity.
Qed.

End trailing_tag.

Lemma at_index_last {A} (v : list A) (x : A) :
  at_index (v ++ [x]) (Z.of_nat (length v)) = Ok x.
Proof.
  unfold at_index. destruct (Z.of_nat (length v) <? 0) eqn:E; [zlia|].
  by rewrite Nat2Z.id, list_lookup_middle.
Qed.

Lemma at_index_beyond {A} (v : list A) (k : Z) :
  Z.of_nat (length v) <= k -> at_index v k = UB.
Proof.
  intros H. unfold at_index. destruct (k <? 0) eqn:E; [reflexivity|].
  rewrite lookup_ge_None_2; [reflexivity|lia].
Qed.

Lemma scan_from_end (stop : token -> bool) (v : list token) (k : Z) :
  Z.of_nat (length v) <= k -> scan_from stop v k = k.
Proof. intros H. unfold scan_from. rewrite drop_ge; [reflexivity|lia]. Qed.

(** The tag at the end, without arguments. *)
Lemma parse_loop_last (tokens : list token) (tag : string) (instrs : list Instruction)
    (k : nat) :
  let ext := tokens ++ [(TTag, tag)] in
  let n := Z.of_nat (length tokens) in
  parse_loop (S k) ext n instrs
  = match instruction_at k ext n n tag with
    | Some (Ok instr) => Some (Ok (instrs ++ [instr]))
    | Some (Raise e) => Some (Raise e)
    | Some UB => Some UB
    | None => None
    end.
Proof.
  intros ext n. rewrite parse_loop_S. unfold ext at 1. rewrite length_app. cbn [length].
  destruct (Z.of_nat (length tokens + 1) <=? n) eqn:E; [zlia|].
  unfold ext at 1, n at 1. rewrite at_index_last. cbn [is_tag fst snd Token_Type_eqb].
  cbn zeta. rewrite scan_from_end by (unfold ext; rewrite length_app; cbn; lia).
  replace (n + 1 - 1) with n by lia.
  destruct (instruction_at k ext n n tag) as [[instr| |]|]; try reflexivity.
  destruct k; cbn [parse_loop]; unfold ext; rewrite length_app; cbn [length];
    destruct (Z.of_nat (length tokens + 1) <=? n + 1) eqn:E2; (reflexivity || zlia).
Qed.

Lemma parse_s1_file_last (tokens : list token) (tag : string) (instrs : list Instruction) :
  parse_s1_file tokens = Some (Ok instrs) ->
  exists k,
    parse_s1_file (tokens ++ [(TTag, tag)])
    = match instruction_at k (tokens ++ [(TTag, tag)]) (Z.of_nat (length tokens))
              (Z.of_nat (length tokens)) tag with
      | Some (Ok instr) => Some (Ok (instrs ++ [instr]))
      | Some (Raise e) => Some (Raise e)
      | Some UB => Some UB
      | None => None
      end.
Proof.
  intros H. unfold parse_s1_file in *.
  destruct (parse_loop_ext tokens (TTag, tag) eq_refl instrs _ 0 [] ltac:(lia) H) as [k Hk].
  exists k. pose proof (parse_loop_last tokens tag instrs k) as Hl. cbn zeta in Hl.
  rewrite <- Hl. etrans; [|exact Hk]. f_equal. rewrite length_app. cbn [length]. lia.
Qed.

(** After tokens that parse, a last tag without arguments is read past the
    end of the tokens when it is [-SCALE] or [-GENERATE], and is reported as
    an instruction with zero arguments in place of one when it is [-LOAD],
    [-SAVE] or [-SEED]; the report for [-SEED] names the Load instruction. *)
Theorem parse_s1_file_trailing_tag (tokens : list token) (instrs : list Instruction)
    (tag : string) :
  parse_s1_file tokens = Some (Ok instrs) ->
  (tag = "-SCALE" \/ tag = "-GENERATE" ->
   parse_s1_file (tokens ++ [(TTag, tag)]) = Some UB)
  /\ (tag = "-LOAD" \/ tag = "-SEED" ->
      parse_s1_file (tokens ++ [(TTag, tag)])
      = Some (Raise (Incorrect_number_of_arguments "LOAD" 1 0)))
  /\ (tag = "-SAVE" ->
      parse_s1_file (tokens ++ [(TTag, tag)])
      = Some (Raise (Incorrect_number_of_arguments "SAVE" 1 0))).
Proof.
  intros H. destruct (parse_s1_file_last tokens tag instrs H) as [k ->].
  assert (at_index (tokens ++ [(TTag, tag)]) (Z.of_nat (length tokens) + 1) = UB) as Hub
    by (apply at_index_beyond; rewrite length_app; cbn; lia).
  split; [|split].
  - intros [-> | ->]; unfold instruction_at; cbn [String.eqb Ascii.eqb Bool.eqb];
      by rewrite Hub.
  - intros [-> | ->]; unfold instruction_at; cbn [String.eqb Ascii.eqb Bool.eqb];
      rewrite at_index_last, Z.sub_diag; reflexivity.
  - intros ->. unfold instruction_at. cbn [String.eqb Ascii.eqb Bool.eqb].
    rewrite at_index_last, Z.sub_diag. reflexivity.
Qed.

Lemma parse_s1_file_trailing_tag_witness :
  parse_s1_file ([(TTag, "-HELP")] ++ [(TTag, "-SCALE")]) = Some UB
  /\ parse_s1_file ([(TTag, "-HELP")] ++ [(TTag, "-SEED")])
     = Some (Raise (Incorrect_number_of_arguments "LOAD" 1 0)).
Proof.
  split.
  - exact (proj1 (parse_s1_file_trailing_tag [(TTag, "-HELP")] [with_type IHelp] "-SCALE"
                    eq_refl) (or_introl eq_refl)).
  - exact (proj1 (proj2 (parse_s1_file_trailing_tag [(TTag, "-HELP")] [with_type IHelp]
                           "-SEED" eq_refl)) (or_intror eq_refl)).
Defined.

Lemma sub_instruction_argument (tokens : list token) (sub idx_end : Z) (st : read_state)
    (a : string) :
  at_index tokens sub = Ok (TArgument, a) -> a ∉ sub_instruction_names ->
  sub_instruction tokens sub idx_end st = UB.
Proof.
  intros Ht Ha. unfold sub_instruction. rewrite Ht. cbn [mbind answer_bind snd].
  unfold sub_instruction_names in Ha.
  repeat match goal with
         | |- context [String.eqb a ?b] =>
             let E := fresh "E" in
             destruct (String.eqb a b) eqn:E;
               [exfalso; apply Ha; apply String.eqb_eq in E; subst;
                repeat first [apply list_elem_of_here | apply list_elem_of_further]|]
         end.
  reflexivity.
Qed.

Lemma parse_s1_file_leading_argument (a : string) (rest : list token) :
  parse_s1_file ((TArgument, a) :: rest) = Some UB.
Proof. reflexivity. Qed.

(** An argument where a tag or a sub-instruction is expected is not
    reported: the message of the error is read from behind a string literal.
    This is so for an argument as the first token, and for an argument right
    behind [-READ] that is not the name of a sub-instruction. *)
Theorem parse_s1_file_misplaced_argument (a : string) (rest : list token) :
  parse_s1_file ((TArgument, a) :: rest) = Some UB
  /\ (a ∉ sub_instruction_names ->
      parse_s1_file ((TTag, "-READ") :: (TArgument, a) :: rest) = Some UB).
Proof.
  split; [apply parse_s1_file_leading_argument|]. intros Ha.
  unfold parse_s1_file. cbn [length]. rewrite parse_loop_S. cbn [length].
  destruct (Z.of_nat (S (S (length rest))) <=? 0) eqn:E; [zlia|].
  change (at_index ((TTag, "-READ") :: (TArgument, a) :: rest) 0)
    with (Ok (TTag, "-READ") : answer token).
  cbn [is_tag fst snd Token_Type_eqb]. cbn zeta.
  pose proof (scan_bounds is_tag rest 2) as Hb.
  change (scan_from is_tag ((TTag, "-READ") :: (TArgument, a) :: rest) (0 + 1))
    with (scan is_tag rest 2).
  unfold instruction_at. cbn [String.eqb Ascii.eqb Bool.eqb].
  cbn [sub_instructions].
  destruct (scan is_tag rest 2 - 1 <? 0 + 1) eqn:E2; [zlia|].
  by rewrite (sub_instruction_argument ((TTag, "-READ") :: (TArgument, a) :: rest) (0 + 1)
                _ _ a eq_refl Ha).
Qed.

Lemma parse_s1_file_misplaced_argument_witness :
  parse_s1_file [(TTag, "-READ"); (TArgument, "nodes.tsv"); (TArgument, "edges.tsv")]
  = Some UB.
Proof.
  apply (proj2 (parse_s1_file_misplaced_argument "nodes.tsv" [(TArgument, "edges.tsv")])).
  unfold sub_instruction_names. intros H.
  repeat (apply elem_of_cons in H as [H|H]; [discriminate|]).
  by apply elem_of_nil in H.
Defined.

End script_parser.

(** ** The loop over the instructions *)

Section run_invariant.
Import Num Text M1 Sampler Runtime TSV Script Program Statements.

Variable E : Engine.
Variable Sh : Fitter.Shuffler.
Variable seed_seq : string -> gen E.

(** What one instruction does to the variables the invariant speaks of. *)
Lemma execute_instruction_effect (fuel : nat) (sys : System) (m m' : main_state E)
    (current_instruction : Instruction) :
  (Z.to_nat (instruction_counter m + 1) <= length (instructions m))%nat ->
  execute_instruction E Sh seed_seq fuel sys m current_instruction = Some (Ok m') ->
  instruction_counter m' = instruction_counter m
  /\ take (Z.to_nat (instruction_counter m + 1)) (instructions m')
     = take (Z.to_nat (instruction_counter m + 1)) (instructions m)
  /\ (length (instructions m) <= length (instructions m'))%nat
  /\ (has_active_model m' = true ->
      has_active_model m = true \/ type current_instruction = IRead)
  /\ (needs_model (type current_instruction) = true -> has_active_model m = true).
Proof.
  intros Hin. unfold execute_instruction.
  destruct (type current_instruction) eqn:Et; cbn [needs_model].
  - destruct (engine_next E (rng_seeds m)) as [seed rng].
    destruct (readTo _ _ _ _ _ _) as [model| |]; cbn; try discriminate.
    intros [= <-]. cbn. repeat split; auto; discriminate.
  - destruct (file sys _ _) as [text|]; [|discriminate].
    destruct (tokenize_s1 _ _ _) as [[new_tokens| |]|]; try discriminate.
    destruct (parse_s1_file _) as [[new_instructions| |]|]; try discriminate.
    intros [= <-]. cbn. repeat split; auto; try discriminate.
    + rewrite take_app_le by (rewrite length_take; lia). by rewrite take_take, Nat.min_id.
    + rewrite !length_app, length_take, length_drop. lia.
  - destruct (has_active_model m) eqn:Ea; [|discriminate]. cbn [negb].
    destruct (generate_calls E _ _) as [calls rng].
    destruct (run_generate_calls _ _ _ _ _ _ _ _ _) as [[[generated files]| |]|];
      try discriminate.
    intros [= <-]. cbn. repeat split; auto.
  - destruct (lift _) as [model| |]; cbn; try discriminate.
    intros [= <-]. cbn. repeat split; auto; discriminate.
  - destruct (has_active_model m) eqn:Ea; [|discriminate]. cbn [negb].
    destruct (lift _) as [model| |]; cbn; try discriminate.
    intros [= <-]. cbn. repeat split; auto.
  - destruct (has_active_model m) eqn:Ea; [|discriminate]. cbn [negb].
    destruct (save _ _ _ _) as [text| |]; cbn; try discriminate.
    intros [= <-]. cbn. repeat split; auto.
  - intros [= <-]. cbn. repeat split; auto; discriminate.
  - intros [= <-]. repeat split; auto; discriminate.
  - discriminate.
Qed.

Lemma lookup_take_eq {A} (l l' : list A) (n k : nat) :
  take n l = take n l' -> (k < n)%nat -> l !! k = l' !! k.
Proof.
  intros H Hk. rewrite <- (lookup_take_lt l n k Hk), <- (lookup_take_lt l' n k Hk).
  by rewrite H.
Qed.

Lemma read_before_take (l l' : list Instruction) (n k : nat) :
  take n l = take n l' -> (k <= n)%nat -> read_before l k -> read_before l' k.
Proof.
  intros H Hk (j & r & Hj & Hl & Hr). exists j, r. split; [exact Hj|]. split; [|exact Hr].
  rewrite <- Hl. symmetry. apply (lookup_take_eq _ _ n); [exact H|lia].
Qed.

Lemma read_before_mono (l : list Instruction) (k k' : nat) :
  (k <= k')%nat -> read_before l k -> read_before l k'.
Proof. intros Hk (j & r & Hj & H). exists j, r. split; [lia|exact H]. Qed.

Lemma run_invariant_step (fuel : nat) (sys : System) (m m' : main_state E)
    (current_instruction : Instruction) :
  at_index (instructions m) (instruction_counter m) = Ok current_instruction ->
  execute_instruction E Sh seed_seq fuel sys m current_instruction = Some (Ok m') ->
  run_invariant m -> run_invariant (next_instruction m').
Proof.
  intros Hat Hex ([H0 Hs] & Ha & Hr).
  assert (instructions m !! Z.to_nat (instruction_counter m) = Some current_instruction)
    as Hcur.
  { unfold at_index in Hat. destruct (instruction_counter m <? 0); [discriminate|].
    destruct (instructions m !! _); [|discriminate]. by injection Hat as ->. }
  pose proof (lookup_lt_Some _ _ _ Hcur) as Hlt.
  assert (Z.to_nat (instruction_counter m + 1) <= length (instructions m))%nat as Hin
    by lia.
  destruct (execute_instruction_effect _ _ _ _ _ Hin Hex) as (Hc & Ht & Hl & Hact & Hneed).
  unfold run_invariant, next_instruction. cbn. rewrite Hc.
  replace (Z.to_nat (instruction_counter m + 1))
    with (S (Z.to_nat (instruction_counter m))) in * by lia.
  split; [unfold size_of in *; lia|]. split.
  - intros H. destruct (Hact H) as [H1|H1].
    + apply (read_before_take (instructions m) _ (S (Z.to_nat (instruction_counter m))));
        [done|lia|]. apply (read_before_mono _ (Z.to_nat (instruction_counter m))); [lia|].
      by apply Ha.
    + exists (Z.to_nat (instruction_counter m)), current_instruction.
      split; [lia|]. split; [|exact H1]. rewrite <- Hcur.
      apply (lookup_take_eq _ _ (S (Z.to_nat (instruction_counter m)))); [done|lia].
  - intros k instr Hk Hlk Hn.
    assert (instructions m !! k = Some instr) as Hlk'.
    { rewrite <- Hlk. symmetry.
      apply (lookup_take_eq _ _ (S (Z.to_nat (instruction_counter m)))); [done|lia]. }
    apply (read_before_take (instructions m) _ (S (Z.to_nat (instruction_counter m))));
      [done|lia|].
    destruct (decide (k = Z.to_nat (instruction_counter m))) as [->|Hne].
    + rewrite Hcur in Hlk'. injection Hlk' as <-. apply Ha, Hneed, Hn.
    + apply (Hr k instr); [lia|exact Hlk'|exact Hn].
Qed.

Lemma run_invariant_end (fuel : nat) (sys : System) :
  forall (m m' : main_state E),
    run E Sh seed_seq fuel sys m = Some (Ok m') -> run_invariant m ->
    run_invariant m' /\ instruction_counter m' = size_of (instructions m').
Proof.
  induction fuel as [|fuel IH]; intros m m'; cbn [run];
    destruct (size_of (instructions m) <=? instruction_counter m) eqn:Es; try discriminate.
  - intros [= <-] Hi. split; [exact Hi|]. destruct Hi as ([H0 Hs] & _). zlia.
  - intros [= <-] Hi. split; [exact Hi|]. destruct Hi as ([H0 Hs] & _). zlia.
  - destruct (at_index _ _) as [ci| |] eqn:Hat; try discriminate.
    destruct (execute_instruction _ _ _ _ _ _ _) as [[m1| |]|] eqn:Hex; try discriminate.
    intros H Hi. apply (IH _ _ H). exact (run_invariant_step _ _ _ _ _ Hat Hex Hi).
Qed.

Lemma run_invariant_init (instrs : list Instruction) (rng : gen E) :
  run_invariant (main_init E instrs rng).
Proof.
  split; [cbn; unfold size_of; lia|]. split; [discriminate|]. intros k instr Hk. cbn in Hk. lia.
Qed.

(** When the loop of [main] ends, it has run every instruction of its list,
    the ones spliced in by Execute included, and before every Generate, Scale
    or Save of the list stands a Read: only a Read makes the model active. *)
Theorem run_reads_first (fuel : nat) (sys : System) (instrs : list Instruction)
    (rng : gen E) (m : main_state E) :
  run E Sh seed_seq fuel sys (main_init E instrs rng) = Some (Ok m) ->
  instruction_counter m = size_of (instructions m)
  /\ reads_first (instructions m) (length (instructions m)).
Proof.
  intros H.
  destruct (run_invariant_end _ _ _ _ H (run_invariant_init instrs rng))
    as ((_ & _ & Hr) & Hc).
  split; [exact Hc|]. rewrite Hc in Hr. unfold size_of in Hr. by rewrite Nat2Z.id in Hr.
Qed.



End run_invariant.

Section main_runs.
Import Num Text M1 Sampler Runtime TSV Script Program Statements.

Lemma run_reads_first_witness :
  match run (constant_engine 0) Fitter.minstd_shuffler (fun _ => tt) 3 bare_system
          (main_init (constant_engine 0) read_then_scale tt) with
  | Some (Ok m) =>
      instruction_counter m = 2
      /\ reads_first (instructions m) (length (instructions m))
  | _ => False
  end.
Proof.
  destruct (run (constant_engine 0) Fitter.minstd_shuffler (fun _ => tt) 3 bare_system
              (main_init (constant_engine 0) read_then_scale tt)) as [[m| |]|] eqn:H;
    try (vm_compute in H; discriminate H).
  destruct (run_reads_first (constant_engine 0) Fitter.minstd_shuffler (fun _ => tt) 3
              bare_system read_then_scale tt m H) as [Hc Hr].
  split; [|exact Hr]. vm_compute in H. injection H as <-. reflexivity.
Defined.


Lemma classify_argument (a : string) :
  Ascii.eqb (first_char a) "-" || Ascii.eqb (first_char a) "+" = false ->
  classify a = (TArgument, a).
Proof.
  intros H. apply orb_false_iff in H as [H1 H2]. unfold classify, starts_with.
  destruct a as [|c a]; [reflexivity|]. cbn in H1, H2. cbn [String.prefix].
  destruct (ascii_dec "-" c) as [<-|_]; [discriminate|].
  destruct (ascii_dec "+" c) as [<-|_]; [discriminate|]. reflexivity.
Qed.

Lemma without_empty_last_cons (first : string) (rest : list string) :
  is_empty first = false ->
  exists others, without_empty_last (first :: rest) = first :: others.
Proof.
  intros H. destruct rest as [|a rest]; cbn [without_empty_last].
  - rewrite H. by exists [].
  - by eexists.
Qed.

Section main_arguments.
Import Num Text M1 Sampler Runtime TSV Script Program Statements.

Variable E : Engine.
Variable Sh : Fitter.Shuffler.
Variable seed_seq : string -> gen E.

(** Called with a first argument that is no tag and no sub-instruction, a
    file name for one, [main] does not report it: the message of the error is
    read from behind a string literal. *)
Theorem main_first_argument (fuel : nat) (sys : System) (rng : gen E)
    (first : string) (rest : list string) :
  word first = true ->
  Ascii.eqb (first_char first) "-" || Ascii.eqb (first_char first) "+" = false ->
  Forall (fun a => passes a = true) rest ->
  main E Sh seed_seq fuel sys rng (first :: rest) = Some UB.
Proof.
  intros Hw Ht Hr. unfold main. cbn [starting_script].
  rewrite (tokenize_command_line first rest fuel Hw Hr).
  assert (is_empty first = false) as He.
  { unfold word in Hw. destruct (is_empty first); [discriminate|reflexivity]. }
  destruct (without_empty_last_cons first rest He) as [others ->].
  cbn [fmap list_fmap]. rewrite (classify_argument _ Ht).
  change ((fix go (l : list string) : list token :=
             match l with
             | [] => []
             | x :: l0 => classify x :: go l0
             end) others) with (classify <$> others).
  by rewrite parse_s1_file_leading_argument.
Qed.

End main_arguments.

Lemma main_first_argument_witness :
  main (constant_engine 0) Fitter.minstd_shuffler (fun _ => tt) 10 bare_system tt
       ["model.m1"; "-generate"; "nodes.tsv"; "edges.tsv"; "1"]
  = Some UB.
Proof.
  apply (main_first_argument (constant_engine 0) Fitter.minstd_shuffler (fun _ => tt) 10
           bare_system tt "model.m1" ["-generate"; "nodes.tsv"; "edges.tsv"; "1"]);
    [reflexivity|reflexivity|repeat constructor].
Defined.

End main_runs.

Section execute_cycle.
Import Num Text M1 Sampler Runtime TSV Script Program Statements.

Variable E : Engine.
Variable Sh : Fitter.Shuffler.
Variable seed_seq : string -> gen E.

Lemma run_at_cycle (sys : System) (path : string) (fuel : nat) :
  starts_with_itself sys path ->
  forall m : main_state E,
    0 <= instruction_counter m ->
    instructions m !! Z.to_nat (instruction_counter m) = Some (execute_script path) ->
    run E Sh seed_seq fuel sys m = None.
Proof.
  intros Hs. induction fuel as [|fuel IH]; intros m H0 Hl; cbn [run];
    pose proof (lookup_lt_Some _ _ _ Hl) as Hlt;
    destruct (size_of (instructions m) <=? instruction_counter m) eqn:Es;
    try (unfold size_of in Es; apply Z.leb_le in Es; lia); [reflexivity|].
  unfold at_index. destruct (instruction_counter m <? 0) eqn:En;
    [apply Z.ltb_lt in En; lia|]. rewrite Hl.
  unfold execute_instruction. cbn [type execute_script execute scriptfile_path replace_templates].
  destruct (Hs (instruction_counter m)) as (text & tokens & others & -> & Ht & Hp).
  assert (tokenize_s1 fuel text [] = Some (Ok tokens)) as -> by exact Ht.
  rewrite Hp. apply IH; cbn; [lia|].
  apply list_lookup_middle. rewrite length_take. lia.
Qed.

(** Scripts that call themselves are not detected: when the script at a
    path starts with the instruction to execute that path, a run that starts
    with this instruction has no end; every turn puts the script into the
    list of instructions again. *)
Theorem execute_cycle (sys : System) (path : string) (rng : gen E) (fuel : nat)
    (rest : list Instruction) :
  starts_with_itself sys path ->
  run E Sh seed_seq fuel sys (main_init E (execute_script path :: rest) rng) = None.
Proof.
  intros Hs. apply (run_at_cycle sys path fuel Hs); [cbn; lia|reflexivity].
Qed.

End execute_cycle.

Section execute_cycle_example.
Import Num Text M1 Sampler Runtime TSV Script Program Statements.

Lemma execute_cycle_witness :
  run (constant_engine 0) Fitter.minstd_shuffler (fun _ => tt) 1000 looping_system
      (main_init (constant_engine 0) [execute_script "loop.s1"] tt) = None.
Proof.
  apply (execute_cycle (constant_engine 0) Fitter.minstd_shuffler (fun _ => tt)
           looping_system "loop.s1" tt 1000 []).
  intros counter. exists "-execute loop.s1", [(TTag, "-EXECUTE"); (TArgument, "loop.s1")], [].
  repeat split; reflexivity.
Defined.

End execute_cycle_example.
